(** * The block-level Markdown parser of mistune3 ([block_parser.py])

    A shallow embedding of [mistune3/block_parser.py]: Python values and
    exceptions, the fragment of Python's [re] engine that the parser's
    patterns use, the [BlockState] the handlers mutate, the rule handlers and
    the parser driver, followed by the properties of the block parser that
    are checked against this code. *)

From Stdlib Require Import Strings.String Strings.Ascii Arith.Arith Lists.List Bool.Bool Lia.
From stdpp Require Import gmap strings list fin_maps.

Set Default Proof Using "Type".
Set Warnings "-register-all".
Local Open Scope string_scope.
Local Open Scope list_scope.
Local Open Scope nat_scope.

(** ** Python results: a value, a raised exception, or an exhausted budget *)

Inductive exn :=
| AttributeError (what : string)
| NameError (name : string)
| ValueError (what : string)
| KeyError (key : string)
| TypeError (what : string)
| IndexError (what : string).

Inductive result (A : Type) :=
| Ok (a : A)
| Raise (e : exn)
| OutOfFuel.
Arguments Ok {A} a.
Arguments Raise {A} e.
Arguments OutOfFuel {A}.

Definition bind {A B} (c : result A) (k : A -> result B) : result B :=
  match c with
  | Ok a => k a
  | Raise e => Raise e
  | OutOfFuel => OutOfFuel
  end.

Notation "'let*' x ':=' c 'in' k" := (bind c (fun x => k))
  (at level 10, x pattern, c at level 100, k at level 200).

(** ** Characters and Python [str] operations *)

Definition NL : ascii := "010"%char.
Definition TAB : ascii := "009"%char.
Definition VT : ascii := "011"%char.
Definition FF : ascii := "012"%char.
Definition CR : ascii := "013"%char.
Definition SP : ascii := " "%char.

(** [lit] reads the backslash escapes of a Python string literal, so that
    inputs can be written as they are in Python: [lit "> foo\nbar\n"]. *)
Fixpoint lit (s : string) : string :=
  match s with
  | EmptyString => EmptyString
  | String "\"%char (String "n"%char s') => String NL (lit s')
  | String "\"%char (String "t"%char s') => String TAB (lit s')
  | String c s' => String c (lit s')
  end.

(** [str.isspace] on one ASCII character; also the class [\s] on ASCII
    text. *)
Definition is_space (a : ascii) : bool :=
  let n := nat_of_ascii a in
  ((9 <=? n) && (n <=? 13)) || ((28 <=? n) && (n <=? 32)).

(** [str.isdigit] on one ASCII character; also the class [\d] on ASCII
    text. *)
Definition is_digit (a : ascii) : bool :=
  let n := nat_of_ascii a in (48 <=? n) && (n <=? 57).

(** An ASCII character, and a text of ASCII characters.  Python's
    [str.isspace], [\s] and [\d] also hold characters outside ASCII, which
    [is_space] and [is_digit] leave out: the classes agree on ASCII text. *)
Definition is_ascii (a : ascii) : bool := nat_of_ascii a <? 128.

Fixpoint ascii_text (s : string) : bool :=
  match s with
  | String a s' => is_ascii a && ascii_text s'
  | EmptyString => true
  end.

(** [s[n:]] *)
Fixpoint sdrop (n : nat) (s : string) : string :=
  match n, s with
  | O, _ => s
  | S n', String _ s' => sdrop n' s'
  | S _, EmptyString => EmptyString
  end.

(** [s[:n]] *)
Fixpoint stake (n : nat) (s : string) : string :=
  match n, s with
  | O, _ => EmptyString
  | S n', String c s' => String c (stake n' s')
  | S _, EmptyString => EmptyString
  end.

(** [s[a:b]] for non-negative [a] and [b] *)
Definition slice (a b : nat) (s : string) : string := stake (b - a) (sdrop a s).

(** the character before offset [p], if any *)
Definition char_before (p : nat) (s : string) : option ascii :=
  match p with
  | O => None
  | S q => String.get q s
  end.

Fixpoint lstrip_by (f : ascii -> bool) (s : string) : string :=
  match s with
  | String c s' => if f c then lstrip_by f s' else s
  | EmptyString => EmptyString
  end.

Definition srev (s : string) : string :=
  string_of_list_ascii (rev (list_ascii_of_string s)).

Definition rstrip_by (f : ascii -> bool) (s : string) : string :=
  srev (lstrip_by f (srev s)).

Definition strip_by (f : ascii -> bool) (s : string) : string :=
  rstrip_by f (lstrip_by f s).

(** [s.strip()] *)
Definition strip (s : string) : string := strip_by is_space s.

(** [s.strip('\n')] *)
Definition strip_nl (s : string) : string := strip_by (Ascii.eqb NL) s.

(** [s.count('\n')] *)
Fixpoint count_nl (s : string) : nat :=
  match s with
  | String c s' => (if Ascii.eqb c NL then 1 else 0) + count_nl s'
  | EmptyString => 0
  end.

(** [s.startswith(p)] *)
Definition startswith (p s : string) : bool := String.prefix p s.

(** [s.find(sub, start)]; [None] stands for [-1] *)
Fixpoint find_from_aux (sub s : string) (pos : nat) : option nat :=
  if String.prefix sub s then Some pos
  else match s with
       | String _ s' => find_from_aux sub s' (S pos)
       | EmptyString => None
       end.

Definition find_from (sub s : string) (start : nat) : option nat :=
  if String.length s <? start then None
  else find_from_aux sub (sdrop start s) start.

(** [c in s] for a one-character [c] *)
Fixpoint has_char (c : ascii) (s : string) : bool :=
  match s with
  | String d s' => Ascii.eqb c d || has_char c s'
  | EmptyString => false
  end.

Definition lower_char (a : ascii) : ascii :=
  let n := nat_of_ascii a in
  if (65 <=? n) && (n <=? 90) then ascii_of_nat (n + 32) else a.

(** [s.lower()] on ASCII text *)
Fixpoint lower (s : string) : string :=
  match s with
  | String c s' => String (lower_char c) (lower s')
  | EmptyString => EmptyString
  end.

(** [c * n] for a one-character [c] *)
Fixpoint repeat_char (c : ascii) (n : nat) : string :=
  match n with
  | O => EmptyString
  | S n' => String c (repeat_char c n')
  end.

(** [s.split('\n')] *)
Fixpoint split_nl_aux (s cur : string) : list string :=
  match s with
  | EmptyString => [srev cur]
  | String c s' =>
      if Ascii.eqb c NL then srev cur :: split_nl_aux s' EmptyString
      else split_nl_aux s' (String c cur)
  end.

Definition split_nl (s : string) : list string := split_nl_aux s EmptyString.

(** ['\n'.join(l)] *)
Fixpoint join_nl (l : list string) : string :=
  match l with
  | [] => EmptyString
  | [x] => x
  | x :: rest => x +:+ String NL (join_nl rest)
  end.

(** ['|'.join(l)], the key of a rule list *)
Fixpoint join_bar (l : list string) : string :=
  match l with
  | [] => EmptyString
  | [x] => x
  | x :: rest => x +:+ "|" +:+ join_bar rest
  end.

(** ** The fragment of Python's [re] used by the parser

    Patterns are kept as syntax trees.  The matcher is a backtracking
    matcher in continuation-passing style with Python's priorities: the
    left alternative first, greedy repetitions longest first, lazy ones
    shortest first.  Capturing groups are numbered by their opening
    parenthesis, and the last group closed is remembered ([lastindex]). *)

Inductive citem :=
| COne (a : ascii)             (* a literal character *)
| CRange (lo hi : ascii)       (* [lo-hi] *)
| CSpace                        (* \s *)
| CDigit.                       (* \d *)

Inductive re :=
| Eps
| Cls (neg : bool) (items : list citem)     (* [...] and [^...] *)
| Seq (r1 r2 : re)
| Alt (r1 r2 : re)
| Rep (greedy : bool) (lo : nat) (hi : option nat) (r : re)
| Grp (name : option string) (r : re)       (* (...) and (?P<name>...) *)
| Bol                                       (* ^ *)
| Eol                                       (* $ *)
| NotAhead (r : re)                         (* (?!...) *)
| Behind (neg : bool) (items : list citem). (* (?<=c) for one character *)

Definition item_has (i : citem) (a : ascii) : bool :=
  match i with
  | COne b => Ascii.eqb a b
  | CRange lo hi =>
      (nat_of_ascii lo <=? nat_of_ascii a) && (nat_of_ascii a <=? nat_of_ascii hi)
  | CSpace => is_space a
  | CDigit => is_digit a
  end.

Definition in_class (neg : bool) (items : list citem) (a : ascii) : bool :=
  xorb neg (existsb (fun i => item_has i a) items).

(** Pattern syntax, as written in the source *)
Definition Chr (a : ascii) : re := Cls false [COne a].
Definition Dot : re := Cls true [COne NL].                       (* . *)
Definition Star (r : re) : re := Rep true 0 None r.              (* r* *)
Definition Plus (r : re) : re := Rep true 1 None r.              (* r+ *)
Definition Opt (r : re) : re := Rep true 0 (Some 1) r.           (* r? *)
Definition Between (lo hi : nat) (r : re) : re := Rep true lo (Some hi) r. (* r{lo,hi} *)
Definition AtLeast (lo : nat) (r : re) : re := Rep true lo None r. (* r{lo,} *)
Definition LazyStar (r : re) : re := Rep false 0 None r.         (* r*? *)
Definition Named (n : string) (r : re) : re := Grp (Some n) r.
Definition Group (r : re) : re := Grp None r.

Fixpoint Str (s : string) : re :=
  match s with
  | EmptyString => Eps
  | String c EmptyString => Chr c
  | String c s' => Seq (Chr c) (Str s')
  end.

Fixpoint seqs (l : list re) : re :=
  match l with
  | [] => Eps
  | [r] => r
  | r :: rest => Seq r (seqs rest)
  end.

Fixpoint alts (l : list re) : re :=
  match l with
  | [] => Eps
  | [r] => r
  | r :: rest => Alt r (alts rest)
  end.

Definition WS : re := Cls false [COne SP; COne TAB].             (* [ \t] *)
Definition NotNL : re := Cls true [COne NL].                     (* [^\n] *)
Definition Spaces03 : re := Between 0 3 (Chr SP).                (*  {0,3} *)
Definition NLorEnd : re := Alt (Chr NL) Eol.                     (* (?:\n|$) *)

Fixpoint ngroups (r : re) : nat :=
  match r with
  | Seq r1 r2 | Alt r1 r2 => ngroups r1 + ngroups r2
  | Rep _ _ _ r1 | NotAhead r1 => ngroups r1
  | Grp _ r1 => S (ngroups r1)
  | _ => 0
  end.

(** [groupindex]: the names of the groups of [r], the groups before [r]
    being [base] in number *)
Fixpoint group_names (r : re) (base : nat) : list (string * nat) :=
  match r with
  | Seq r1 r2 | Alt r1 r2 =>
      group_names r1 base ++ group_names r2 (base + ngroups r1)
  | Rep _ _ _ r1 | NotAhead r1 => group_names r1 base
  | Grp (Some n) r1 => (n, S base) :: group_names r1 (S base)
  | Grp None r1 => group_names r1 (S base)
  | _ => []
  end.

Record mstate := MState {
  ms_pos : nat;                            (* offset in the subject *)
  ms_prev : option ascii;                  (* the character before it *)
  ms_rest : string;                        (* the subject from it on *)
  ms_caps : list (nat * (nat * nat));      (* spans of the groups closed *)
  ms_last : option nat                     (* the last group closed *)
}.

Definition advance (a : ascii) (rest : string) (st : mstate) : mstate :=
  MState (S (ms_pos st)) (Some a) rest (ms_caps st) (ms_last st).

Definition close_group (i start : nat) (st : mstate) : mstate :=
  MState (ms_pos st) (ms_prev st) (ms_rest st)
         ((i, (start, ms_pos st)) :: ms_caps st) (Some i).

(** [^]: the start of the subject, with [re.M] also after a newline *)
Definition at_bol (M : bool) (st : mstate) : bool :=
  match ms_prev st with
  | None => true
  | Some a => M && Ascii.eqb a NL
  end.

(** [$]: the end of the subject or before its final newline, with [re.M]
    before any newline *)
Definition at_eol (M : bool) (st : mstate) : bool :=
  match ms_rest st with
  | EmptyString => true
  | String a EmptyString => Ascii.eqb a NL
  | String a _ => M && Ascii.eqb a NL
  end.

Definition below (hi : option nat) (count : nat) : bool :=
  match hi with
  | None => true
  | Some h => count <? h
  end.

Definition orelse {A} (a : option A) (b : unit -> option A) : option A :=
  match a with
  | Some x => Some x
  | None => b tt
  end.

(** A repetition [body{lo,hi}] followed by [k], [count] iterations being
    done: the greedy one tries a further iteration first, the lazy one tries
    [k] first.  An iteration that consumes nothing is not repeated, which
    bounds the number of iterations by the length of the subject. *)
Fixpoint rep_loop (body : mstate -> (mstate -> option mstate) -> option mstate)
    (greedy : bool) (lo : nat) (hi : option nat) (k : mstate -> option mstate)
    (fuel count : nat) (st : mstate) {struct fuel} : option mstate :=
  let again (_ : unit) :=
    match fuel with
    | O => None
    | S fuel' =>
        if below hi count then
          body st (fun st' =>
            if ms_pos st' <=? ms_pos st then None
            else rep_loop body greedy lo hi k fuel' (S count) st')
        else None
    end in
  let stop (_ : unit) := if lo <=? count then k st else None in
  if greedy then orelse (again tt) stop else orelse (stop tt) again.

Fixpoint run (M : bool) (r : re) (base : nat) (st : mstate)
    (k : mstate -> option mstate) {struct r} : option mstate :=
  match r with
  | Eps => k st
  | Cls neg items =>
      match ms_rest st with
      | String a rest => if in_class neg items a then k (advance a rest st) else None
      | EmptyString => None
      end
  | Seq r1 r2 => run M r1 base st (fun st' => run M r2 (base + ngroups r1) st' k)
  | Alt r1 r2 =>
      match run M r1 base st k with
      | Some x => Some x
      | None => run M r2 (base + ngroups r1) st k
      end
  | Rep greedy lo hi r1 =>
      rep_loop (fun st' k' => run M r1 base st' k') greedy lo hi k
               (String.length (ms_rest st)) 0 st
  | Grp _ r1 =>
      run M r1 (S base) st (fun st' => k (close_group (S base) (ms_pos st) st'))
  | Bol => if at_bol M st then k st else None
  | Eol => if at_eol M st then k st else None
  | NotAhead r1 =>
      match run M r1 base st Some with
      | Some _ => None
      | None => k st
      end
  | Behind neg items =>
      match ms_prev st with
      | Some a => if in_class neg items a then k st else None
      | None => None
      end
  end.

(** A compiled pattern: the tree and the [re.M] flag *)
Record pattern := Pattern { p_re : re; p_multiline : bool }.

(** A match object *)
Record Match := MkMatch {
  m_string : string;
  m_start : nat;                           (* m.start() *)
  m_end : nat;                             (* m.end() *)
  m_caps : list (nat * (nat * nat));
  m_lastindex : option nat;
  m_names : list (string * nat);           (* the pattern's groupindex *)
  m_groups : nat                           (* the pattern's number of groups *)
}.

Fixpoint assoc {A} (k : nat) (l : list (nat * A)) : option A :=
  match l with
  | [] => None
  | (k', v) :: rest => if k =? k' then Some v else assoc k rest
  end.

Fixpoint sassoc {A} (k : string) (l : list (string * A)) : option A :=
  match l with
  | [] => None
  | (k', v) :: rest => if String.eqb k k' then Some v else sassoc k rest
  end.

Fixpoint name_of {A} (i : nat) (l : list (A * nat)) : option A :=
  match l with
  | [] => None
  | (n, j) :: rest => if i =? j then Some n else name_of i rest
  end.

(** [m.lastgroup] *)
Definition m_lastgroup (m : Match) : option string :=
  match m_lastindex m with
  | Some i => name_of i (m_names m)
  | None => None
  end.

(** [m.group(i)] for a group index; [None] for a group that did not take
    part in the match *)
Definition group_index (m : Match) (i : nat) : option string :=
  match i with
  | O => Some (slice (m_start m) (m_end m) (m_string m))
  | _ => match assoc i (m_caps m) with
         | Some (a, b) => Some (slice a b (m_string m))
         | None => None
         end
  end.

(** [m.group(name)] used as a string: [IndexError] for a name the pattern
    does not have; a group that did not take part gives Python's [None],
    which the callers use as a string at once, a [TypeError] *)
Definition group (m : Match) (name : string) : result string :=
  match sassoc name (m_names m) with
  | None => Raise (IndexError "no such group")
  | Some i =>
      match group_index m i with
      | Some s => Ok s
      | None => Raise (TypeError "NoneType")
      end
  end.

Definition start_state (s : string) (pos : nat) : mstate :=
  let p := Nat.min pos (String.length s) in
  MState p (char_before p s) (sdrop p s) [] None.

Definition to_match (p : pattern) (s : string) (start : nat) (st : mstate) : Match :=
  MkMatch s start (ms_pos st) (ms_caps st) (ms_last st)
          (group_names (p_re p) 0) (ngroups (p_re p)).

(** [p.match(s, pos)] *)
Definition re_match (p : pattern) (s : string) (pos : nat) : option Match :=
  let st := start_state s pos in
  match run (p_multiline p) (p_re p) 0 st Some with
  | Some st' => Some (to_match p s (ms_pos st) st')
  | None => None
  end.

(** [p.match(s, pos, endpos)]: the subject is cut at [endpos] *)
Definition re_match_until (p : pattern) (s : string) (pos endpos : nat) : option Match :=
  re_match p (stake endpos s) pos.

Fixpoint search_from (M : bool) (r : re) (pos : nat) (prev : option ascii)
    (rest : string) {struct rest} : option (nat * mstate) :=
  match run M r 0 (MState pos prev rest [] None) Some with
  | Some st' => Some (pos, st')
  | None =>
      match rest with
      | String c rest' => search_from M r (S pos) (Some c) rest'
      | EmptyString => None
      end
  end.

(** [p.search(s, pos)] *)
Definition re_search (p : pattern) (s : string) (pos : nat) : option Match :=
  let st := start_state s pos in
  match search_from (p_multiline p) (p_re p) (ms_pos st) (ms_prev st) (ms_rest st) with
  | Some (start, st') => Some (to_match p s start st')
  | None => None
  end.

(** [p.sub('', s)]: every match that is not empty is deleted, from left to
    right *)
Fixpoint sub_del (fuel : nat) (M : bool) (r : re) (pos : nat) (prev : option ascii)
    (rest : string) : string :=
  match fuel with
  | O => rest
  | S fuel' =>
      match run M r 0 (MState pos prev rest [] None) Some with
      | Some st' =>
          if pos <? ms_pos st' then
            sub_del fuel' M r (ms_pos st') (ms_prev st') (ms_rest st')
          else
            match rest with
            | String c rest' => String c (sub_del fuel' M r (S pos) (Some c) rest')
            | EmptyString => EmptyString
            end
      | None =>
          match rest with
          | String c rest' => String c (sub_del fuel' M r (S pos) (Some c) rest')
          | EmptyString => EmptyString
          end
      end
  end.

Definition re_sub_del (p : pattern) (s : string) : string :=
  sub_del (S (String.length s)) (p_multiline p) (p_re p) 0 None s.

(** ** Tokens and the environment

    A token is a Python [dict] with string keys; the order of insertion is
    kept, as Python keeps it. *)

Inductive pyval :=
| VNone
| VBool (b : bool)
| VInt (n : nat)
| VStr (s : string)
| VDict (d : list (string * pyval))
| VList (l : list pyval).

Definition token := list (string * pyval).

(** [d.get(k)] *)
Definition dget (k : string) (d : token) : option pyval := sassoc k d.

(** [d[k] = v]: an existing key keeps its place, a new key goes last *)
Fixpoint dset (k : string) (v : pyval) (d : token) : token :=
  match d with
  | [] => [(k, v)]
  | (k', v') :: rest =>
      if String.eqb k k' then (k, v) :: rest else (k', v') :: dset k v rest
  end.

(** [v == s] for a string [s] *)
Definition is_str (v : pyval) (s : string) : bool :=
  match v with
  | VStr t => String.eqb t s
  | _ => false
  end.

(** [tokens] as the value of a [children] field *)
Definition VTokens (l : list token) : pyval := VList (map VDict l).

(** An entry of [env['ref_links']]: [{'url': ..., 'title': ...}], the title
    being optional *)
Record link_attrs := LinkAttrs { url : string; title : option string }.

Record Env := MkEnv { ref_links : gmap string link_attrs }.

(** ** What [block_parser.py] imports from [util] and [helpers]

    These modules are not part of the code at hand; the parser is modelled
    over any implementation of them.  A pattern text that the parser splices
    into its own patterns is taken as a pattern tree. *)

Record externals := Externals {
  unikey : string -> string;
  escape : string -> string;
  escape_url : string -> string;
  safe_entity : string -> string;
  strip_end : string -> string;
  expand_tab : string -> string;
  (* expand_leading_tab(text, width=4) *)
  expand_leading_tab : string -> nat -> string;
  unescape_char : string -> string;
  (* parse_link_href(src, pos, block=True): (None, None), or the
     destination and the offset after it *)
  parse_link_href : string -> nat -> option (string * nat);
  (* parse_link_title(src, pos, max_pos): (None, None), or the title and
     the offset after it *)
  parse_link_title : string -> nat -> nat -> option (string * nat);
  LINK_LABEL : re;
  HTML_TAGNAME : re;
  HTML_ATTRIBUTES : re;
  BLOCK_TAGS : list string;
  PRE_TAGS : list string
}.

(** ** BlockState *)

(** Modelled from the spec: the class [BlockState] of [state.py], which is
    not part of the code at hand.  Its fields are those of section 3 of the
    specification: "source reference, cursor, cursor_max, tokens, env, line,
    line_root, depth, in_block, list_tight". *)
Record BlockState := MkState {
  src : string;
  tokens : list token;
  cursor : nat;
  cursor_max : nat;
  env : Env;
  line : nat;
  line_root : nat;
  depth : nat;
  in_block : string;
  list_tight : bool
}.

Definition set_tokens (t : list token) (s : BlockState) : BlockState :=
  MkState (src s) t (cursor s) (cursor_max s) (env s) (line s) (line_root s)
          (depth s) (in_block s) (list_tight s).

Definition set_cursor (c : nat) (s : BlockState) : BlockState :=
  MkState (src s) (tokens s) c (cursor_max s) (env s) (line s) (line_root s)
          (depth s) (in_block s) (list_tight s).

Definition set_env (e : Env) (s : BlockState) : BlockState :=
  MkState (src s) (tokens s) (cursor s) (cursor_max s) e (line s) (line_root s)
          (depth s) (in_block s) (list_tight s).

Definition set_line (n : nat) (s : BlockState) : BlockState :=
  MkState (src s) (tokens s) (cursor s) (cursor_max s) (env s) n (line_root s)
          (depth s) (in_block s) (list_tight s).

Definition set_line_root (n : nat) (s : BlockState) : BlockState :=
  MkState (src s) (tokens s) (cursor s) (cursor_max s) (env s) (line s) n
          (depth s) (in_block s) (list_tight s).

Definition set_in_block (b : string) (s : BlockState) : BlockState :=
  MkState (src s) (tokens s) (cursor s) (cursor_max s) (env s) (line s)
          (line_root s) (depth s) b (list_tight s).

Definition set_list_tight (b : bool) (s : BlockState) : BlockState :=
  MkState (src s) (tokens s) (cursor s) (cursor_max s) (env s) (line s)
          (line_root s) (depth s) (in_block s) b.

(** Modelled from the spec: the root state of a document ("A root state is
    created per document"), with an empty link table, and [list_tight]
    starting true. *)
Definition root_state : BlockState :=
  MkState "" [] 0 0 (MkEnv ∅) 0 0 0 "document" true.

(** Modelled from the spec: [state_cls(parent)], "a child state sharing env
    (link table) and inheriting depth+1".  The sharing of [env] is modelled
    by the callers, which copy the child's [env] back once the child is
    parsed. *)
Definition child_state (parent : BlockState) : BlockState :=
  MkState "" [] 0 0 (env parent) 0 0 (S (depth parent)) "document" true.

(** Modelled from the spec: [process(text)], which gives the state its
    source; "cursor_max is the length". *)
Definition process (text : string) (s : BlockState) : BlockState :=
  MkState text (tokens s) (cursor s) (String.length text) (env s) (line s)
          (line_root s) (depth s) (in_block s) (list_tight s).

(** Modelled from the spec: "match(pattern): attempt the pattern against
    the source starting at cursor". *)
Definition state_match (s : BlockState) (p : pattern) : option Match :=
  re_match p (src s) (cursor s).

(** Modelled from the spec: "get_text(end)": the slice from the cursor. *)
Definition get_text (s : BlockState) (end_pos : nat) : string :=
  slice (cursor s) end_pos (src s).

(** Modelled from the spec: "find_line_end()": the offset after the current
    logical line, its newline included, or [cursor_max]. *)
Definition find_line_end (s : BlockState) : nat :=
  match find_from (String NL "") (src s) (cursor s) with
  | Some i => S i
  | None => cursor_max s
  end.

(** Modelled from the spec: "last_token()". *)
Definition last_token (s : BlockState) : option token := last (tokens s).

(** Modelled from the spec: "append_token(tok)". *)
Definition append_token (tok : token) (s : BlockState) : BlockState :=
  set_tokens (tokens s ++ [tok]) s.

(** Modelled from the spec: "prepend inserts before the most recently
    appended token". *)
Definition prepend_token (tok : token) (s : BlockState) : BlockState :=
  match rev (tokens s) with
  | [] => set_tokens [tok] s
  | t :: before => set_tokens (rev before ++ [tok; t]) s
  end.

(** Modelled from the spec: "add_token(tok, line_delta)"; the line counter
    moves by [line_delta] when it is given. *)
Definition add_token (tok : token) (line_delta : option nat) (s : BlockState)
  : BlockState :=
  set_line (line s + default 0 line_delta) (append_token tok s).

Definition is_paragraph (tok : token) : bool :=
  match dget "type" tok with
  | Some v => is_str v "paragraph"
  | None => false
  end.

Definition extend_text (text : string) (tok : token) : token :=
  match dget "text" tok with
  | Some (VStr t) => dset "text" (VStr (t +:+ text)) tok
  | _ => dset "text" (VStr text) tok
  end.

(** the token list with its last token replaced *)
Definition set_last (tok : token) (l : list token) : list token :=
  removelast l ++ [tok].

(** Modelled from the spec: "append_paragraph(): if the last emitted token
    is a paragraph, append the current logical line to its text and advance
    cursor; returns the new cursor.  Otherwise returns none." *)
Definition append_paragraph (s : BlockState) : option nat * BlockState :=
  match last_token s with
  | Some tok =>
      if is_paragraph tok then
        let pos := find_line_end s in
        (Some pos,
         set_cursor pos (set_tokens (set_last (extend_text (get_text s pos) tok) (tokens s)) s))
      else (None, s)
  | None => (None, s)
  end.

(** Modelled from the spec: "add_paragraph(text): start or extend a
    paragraph token with the given text". *)
Definition add_paragraph (text : string) (s : BlockState) : BlockState :=
  match last_token s with
  | Some tok =>
      if is_paragraph tok then set_tokens (set_last (extend_text text tok) (tokens s)) s
      else append_token [("type", VStr "paragraph"); ("text", VStr text)] s
  | None => append_token [("type", VStr "paragraph"); ("text", VStr text)] s
  end.

(** ** The patterns of [block_parser.py] *)

(** [_INDENT_CODE_TRIM = re.compile(r'^ {1,4}', flags=re.M)] *)
Definition _INDENT_CODE_TRIM : pattern :=
  Pattern (Seq Bol (Between 1 4 (Chr SP))) true.

(** [_AXT_HEADING_TRIM = re.compile(r'(\s+|^)#+\s*$')] *)
Definition _AXT_HEADING_TRIM : pattern :=
  Pattern (seqs [Group (Alt (Plus (Cls false [CSpace])) Bol); Plus (Chr "#");
                 Star (Cls false [CSpace]); Eol]) false.

(** [_BLOCK_QUOTE_TRIM = re.compile(r'^ {0,1}', flags=re.M)] *)
Definition _BLOCK_QUOTE_TRIM : pattern :=
  Pattern (Seq Bol (Between 0 1 (Chr SP))) true.

(** [_BLOCK_QUOTE_LEADING = re.compile(r'^ *>', flags=re.M)] *)
Definition _BLOCK_QUOTE_LEADING : pattern :=
  Pattern (seqs [Bol; Star (Chr SP); Chr ">"]) true.

(** [_LINE_BLANK_END = re.compile(r'\n[ \t]*\n$')] *)
Definition _LINE_BLANK_END : pattern :=
  Pattern (seqs [Chr NL; Star WS; Chr NL; Eol]) false.

(** [_LINE_HAS_TEXT]: a capturing group around [ *] (any number of
    spaces), followed by [\S] *)
Definition _LINE_HAS_TEXT : pattern :=
  Pattern (Seq (Group (Star (Chr SP))) (Cls true [CSpace])) false.

(** [_BLANK_TO_LINE = re.compile(r'[ \t]*\n')] *)
Definition _BLANK_TO_LINE : pattern :=
  Pattern (Seq (Star WS) (Chr NL)) false.

(** [_CLOSE_TAG_END = re.compile(r'[ \t]*>[ \t]*(?:\n|$)')] *)
Definition _CLOSE_TAG_END : pattern :=
  Pattern (seqs [Star WS; Chr ">"; Star WS; NLorEnd]) false.

(** [BLANK_LINE = re.compile(r'(^[ \t\v\f]*\n)+', re.M)] *)
Definition blank_line_re : re :=
  Plus (Group (seqs [Bol; Star (Cls false [COne SP; COne TAB; COne VT; COne FF]);
                     Chr NL])).
Definition BLANK_LINE : pattern := Pattern blank_line_re true.

(** [STRICT_BLOCK_QUOTE = re.compile(r'( {0,3}>[^\n]*(?:\n|$))+')] *)
Definition STRICT_BLOCK_QUOTE : pattern :=
  Pattern (Plus (Group (seqs [Spaces03; Chr ">"; Star NotNL; NLorEnd]))) false.

(** [LIST = r'^(?P<list_1> {0,3})(?P<list_2>[\*\+-]|\d{1,9}[.)])(?P<list_3>[ \t]*|[ \t].+)$'] *)
Definition LIST : re :=
  seqs [Bol;
        Named "list_1" Spaces03;
        Named "list_2" (Alt (Cls false [COne "*"; COne "+"; COne "-"])
                            (Seq (Between 1 9 (Cls false [CDigit]))
                                 (Cls false [COne "."; COne ")"])));
        Named "list_3" (Alt (Star WS) (Seq WS (Plus Dot)));
        Eol].

(** one line of [INDENT_CODE]: [(?: {4}| *\t)[^\n]+(?:\n+|$)] *)
Definition indent_code_line : re :=
  seqs [Alt (Rep true 4 (Some 4) (Chr SP)) (Seq (Star (Chr SP)) (Chr TAB));
        Plus NotNL;
        Alt (Plus (Chr NL)) Eol].

(** [INDENT_CODE = r'(?: {4}| *\t)[^\n]+(?:\n+|$)((?:(?: {4}| *\t)[^\n]+(?:\n+|$))|\s)*'] *)
Definition INDENT_CODE : re :=
  Seq indent_code_line (Star (Group (Alt indent_code_line (Cls false [CSpace])))).

(** [FENCED_CODE = r'^(?P<fenced_1> {0,3})(?P<fenced_2>`{3,}|~{3,})[ \t]*(?P<fenced_3>.*?)$'] *)
Definition FENCED_CODE : re :=
  seqs [Bol;
        Named "fenced_1" Spaces03;
        Named "fenced_2" (Alt (AtLeast 3 (Chr "`")) (AtLeast 3 (Chr "~")));
        Star WS;
        Named "fenced_3" (LazyStar Dot);
        Eol].

(** the alternatives [<!--|<\?|<![A-Z]|<!\[CDATA\[] *)
Definition html_markers : list re :=
  [Str "<!--"; Str "<?"; Seq (Str "<!") (Cls false [CRange "A" "Z"]); Str "<![CDATA["].

(** the patterns of the source *)
Section Patterns.
Variable X : externals.

(** [_OPEN_TAG_END = re.compile(HTML_ATTRIBUTES + r'[ \t]*>[ \t]*(?:\n|$)')] *)
Definition _OPEN_TAG_END : pattern :=
  Pattern (seqs [HTML_ATTRIBUTES X; Star WS; Chr ">"; Star WS; NLorEnd]) false.

(** The text [r'</?' + '|'.join(BLOCK_TAGS) + '|' + '|'.join(PRE_TAGS) +
    r'(?:[ \t]+|\n|$)'] read as a pattern: an alternation of the tag
    names, in which [</?] belongs to the first alternative only and
    [(?:[ \t]+|\n|$)] to the last one only. *)
Definition tag_names : list string :=
  (match BLOCK_TAGS X with [] => [""] | l => l end)
  ++ (match PRE_TAGS X with [] => [""] | l => l end).

Definition tag_alternatives : re :=
  let tag_end := alts [Plus WS; Chr NL; Eol] in
  match tag_names with
  | [] => Eps
  | [t] => seqs [Chr "<"; Opt (Chr "/"); Str t; tag_end]
  | t :: rest =>
      Alt (seqs [Chr "<"; Opt (Chr "/"); Str t])
          (alts (map Str (removelast rest)
                 ++ [Seq (Str (List.last rest "")) tag_end]))
  end.

(** [_BLOCK_HTML_BREAK = re.compile(r' {0,3}(?:(?:</?' + ... +
    r'(?:[ \t]+|\n|$))|<!--|<\?|<![A-Z]|<!\[CDATA\[)')] *)
Definition _BLOCK_HTML_BREAK : pattern :=
  Pattern (Seq Spaces03 (alts (tag_alternatives :: html_markers))) false.

(** [RAW_HTML = r'^ {0,3}(</?' + HTML_TAGNAME + r'|<!--|<\?|<![A-Z]|<!\[CDATA\[)'] *)
Definition RAW_HTML : re :=
  seqs [Bol; Spaces03;
        Group (alts (seqs [Chr "<"; Opt (Chr "/"); HTML_TAGNAME X] :: html_markers))].

(** [BLOCK_HTML = r'^ {0,3}(?:(?:</?' + _BLOCK_TAGS_PATTERN +
    r'(?:[ \t]+|\n|$))|<!--|<\?|<![A-Z]|<!\[CDATA\[)'] *)
Definition BLOCK_HTML : re :=
  seqs [Bol; Spaces03; alts (tag_alternatives :: html_markers)].

(** [SPECIFICATION] *)
Definition SPECIFICATION : list (string * re) :=
  [ ("blank_line", blank_line_re);
    (* r'^ {0,3}(?P<axt_1>#{1,6})(?!#+)(?P<axt_2>[ \t]*|[ \t]+.*?)$' *)
    ("axt_heading",
     seqs [Bol; Spaces03; Named "axt_1" (Between 1 6 (Chr "#"));
           NotAhead (Plus (Chr "#"));
           Named "axt_2" (Alt (Star WS) (Seq (Plus WS) (LazyStar Dot)));
           Eol]);
    (* r'^ {0,3}(?P<setext_1>=|-){1,}[ \t]*$' *)
    ("setex_heading",
     seqs [Bol; Spaces03; AtLeast 1 (Named "setext_1" (Alt (Chr "=") (Chr "-")));
           Star WS; Eol]);
    ("fenced_code", FENCED_CODE);
    ("indent_code", INDENT_CODE);
    (* r'^ {0,3}(D{3,}|U{3,}|A{3,})$', in which D, U and A are the
       non-capturing groups of -, _ and \* followed by [ \t]* *)
    ("thematic_break",
     seqs [Bol; Spaces03;
           Group (alts [AtLeast 3 (Seq (Chr "-") (Star WS));
                        AtLeast 3 (Seq (Chr "_") (Star WS));
                        AtLeast 3 (Seq (Chr "*") (Star WS))]);
           Eol]);
    (* r'^ {0,3}\[(?P<link_1>' + LINK_LABEL + r')\]:' *)
    ("ref_link",
     seqs [Bol; Spaces03; Chr "["; Named "link_1" (LINK_LABEL X); Chr "]"; Chr ":"]);
    (* r' {0,3}>(?P<quote_1>.*?)$' *)
    ("block_quote", seqs [Spaces03; Chr ">"; Named "quote_1" (LazyStar Dot); Eol]);
    ("list", LIST);
    ("block_html", BLOCK_HTML);
    ("raw_html", RAW_HTML) ].

(** [RULE_NAMES]; ['list'] is commented out in the source *)
Definition RULE_NAMES : list string :=
  [ "blank_line"; "fenced_code"; "indent_code"; "axt_heading"; "setex_heading";
    "thematic_break"; "block_quote"; "ref_link"; "raw_html" ].
End Patterns.

(** ** BlockParser *)

(** What a handler returns: [None], an offset, or [True] *)
Inductive pyret :=
| RNone
| RPos (n : nat)
| RTrue.

(** Python's truth value of a returned value, as in [if end_pos:] *)
Definition truthy (r : pyret) : bool :=
  match r with
  | RNone => false
  | RPos O => false
  | RPos (S _) => true
  | RTrue => true
  end.

(** the integer a true returned value stands for, as in
    [state.cursor = end_pos] *)
Definition as_int (r : pyret) : nat :=
  match r with
  | RNone => 0
  | RPos n => n
  | RTrue => 1
  end.

Definition of_pos (p : option nat) : pyret :=
  match p with
  | Some n => RPos n
  | None => RNone
  end.

(** An entry of [self.__methods]: a bound method [parse_<name>] put there
    by [__init__], or the wrapper [lambda state: func(self, state)] put
    there by [register_rule] *)
Inductive method :=
| MBound (name : string)
| MLambda.

Record BlockParser := MkParser {
  specification : gmap string re;
  rules : list string;
  block_quote_rules : list string;
  list_rules : list string;
  max_nested_level : nat;
  __sc : gmap string pattern;
  __methods : gmap string method
}.

Definition set_sc (c : gmap string pattern) (p : BlockParser) : BlockParser :=
  MkParser (specification p) (rules p) (block_quote_rules p) (list_rules p)
           (max_nested_level p) c (__methods p).

(** The names that a [BlockParser] has as attributes: those of the class
    body and those set by [__init__]. *)
Definition BlockParser_attributes : list string :=
  [ "state_cls"; "BLANK_LINE"; "STRICT_BLOCK_QUOTE"; "LIST"; "INDENT_CODE";
    "FENCED_CODE"; "RAW_HTML"; "BLOCK_HTML"; "SPECIFICATION"; "RULE_NAMES";
    "compile_sc"; "register_rule"; "parse_method"; "parse_blank_line";
    "parse_thematic_break"; "parse_indent_code"; "parse_fenced_code";
    "parse_axt_heading"; "parse_setex_heading"; "parse_ref_link";
    "parse_block_quote"; "parse_list"; "_parse_list_item"; "parse_block_html";
    "parse_raw_html"; "parse_paragraph"; "postprocess_paragraph"; "parse";
    "render"; "_scan_rules"; "_call_render"; "_iter_render";
    "specification"; "rules"; "block_quote_rules"; "list_rules";
    "max_nested_level"; "_BlockParser__sc"; "_BlockParser__methods" ].

(** [obj.<name>] for an attribute that the object does not have: Python
    raises [AttributeError], whatever the caller is to do with the value.
    The source reads [self.find_line_end], [self.get_text],
    [self.THEMATIC_BREAK], [self.AXT_HEADING] and [self.BLOCK_QUOTE], none of
    which is among [BlockParser_attributes], and [.pattern] of
    [self.FENCED_CODE] and of [self.LIST], which are of type [str]. *)
Definition missing_attribute {A : Type} (name : string) : result A :=
  Raise (AttributeError name).

(** The use of a name that is bound neither in the function, nor in the
    module, nor in the builtins: Python raises [NameError]. *)
Definition unbound_name {A : Type} (name : string) : result A :=
  Raise (NameError name).

(** [p.replace('3', w, 1)] on the text of a pattern, for a [w] of one digit:
    the first character [3] of the text is changed.  In a pattern tree, a
    [3] of the text is a bound of a repetition, a character of a class or a
    character of a group name; the text of [r{lo,hi}] has [r] first, and the
    text of a named group has the name first. *)
Definition digit_char (w : nat) : ascii := ascii_of_nat (48 + w).

Fixpoint replace_3_string (w : nat) (s : string) : string * bool :=
  match s with
  | EmptyString => (EmptyString, false)
  | String c s' =>
      if Ascii.eqb c "3" then (String (digit_char w) s', true)
      else let (t, b) := replace_3_string w s' in (String c t, b)
  end.

Definition replace_3_item (w : nat) (i : citem) : citem * bool :=
  match i with
  | COne a => if Ascii.eqb a "3" then (COne (digit_char w), true) else (i, false)
  | CRange lo hi =>
      if Ascii.eqb lo "3" then (CRange (digit_char w) hi, true)
      else if Ascii.eqb hi "3" then (CRange lo (digit_char w), true)
      else (i, false)
  | _ => (i, false)
  end.

Fixpoint replace_3_items (w : nat) (l : list citem) : list citem * bool :=
  match l with
  | [] => ([], false)
  | i :: rest =>
      let (i', b) := replace_3_item w i in
      if b then (i' :: rest, true)
      else let (rest', b') := replace_3_items w rest in (i :: rest', b')
  end.

Fixpoint replace_3 (w : nat) (r : re) : re * bool :=
  match r with
  | Eps | Bol | Eol => (r, false)
  | Cls neg items => let (items', b) := replace_3_items w items in (Cls neg items', b)
  | Behind neg items => let (items', b) := replace_3_items w items in (Behind neg items', b)
  | Seq r1 r2 =>
      let (r1', b) := replace_3 w r1 in
      if b then (Seq r1' r2, true)
      else let (r2', b') := replace_3 w r2 in (Seq r1 r2', b')
  | Alt r1 r2 =>
      let (r1', b) := replace_3 w r1 in
      if b then (Alt r1' r2, true)
      else let (r2', b') := replace_3 w r2 in (Alt r1 r2', b')
  | Rep g lo hi r1 =>
      let (r1', b) := replace_3 w r1 in
      if b then (Rep g lo hi r1', true)
      else if lo =? 3 then (Rep g w hi r1, true)
      else match hi with
           | Some 3 => (Rep g lo (Some w) r1, true)
           | _ => (r, false)
           end
  | Grp (Some n) r1 =>
      let (n', b) := replace_3_string w n in
      if b then (Grp (Some n') r1, true)
      else let (r1', b') := replace_3 w r1 in (Grp (Some n) r1', b')
  | Grp None r1 => let (r1', b) := replace_3 w r1 in (Grp None r1', b)
  | NotAhead r1 => let (r1', b) := replace_3 w r1 in (NotAhead r1', b)
  end.

(** [l.remove(x)]: the first [x] is removed; [None] stands for the
    [ValueError] of an absent [x] *)
Fixpoint remove_first (x : string) (l : list string) : option (list string) :=
  match l with
  | [] => None
  | y :: rest =>
      if String.eqb x y then Some rest
      else option_map (cons y) (remove_first x rest)
  end.

(** [l.index(x)] *)
Fixpoint index_of (x : string) (l : list string) : option nat :=
  match l with
  | [] => None
  | y :: rest => if String.eqb x y then Some 0 else option_map S (index_of x rest)
  end.

(** [l.insert(i, x)] for [i <= len(l)] *)
Definition insert_at (i : nat) (x : string) (l : list string) : list string :=
  firstn i l ++ x :: skipn i l.

(** [int(s)] for a string of ASCII digits *)
Fixpoint int_digits (s : string) (acc : nat) : option nat :=
  match s with
  | EmptyString => Some acc
  | String c s' =>
      if is_digit c then int_digits s' (10 * acc + (nat_of_ascii c - 48)) else None
  end.

Definition int_of (s : string) : result nat :=
  match s with
  | EmptyString => Raise (ValueError "invalid literal for int()")
  | _ => match int_digits s 0 with
         | Some n => Ok n
         | None => Raise (ValueError "invalid literal for int()")
         end
  end.

(** [s[-1]] *)
Definition last_char (s : string) : result ascii :=
  match rev (list_ascii_of_string s) with
  | c :: _ => Ok c
  | [] => Raise (IndexError "string index out of range")
  end.

(** [s[:-1]] *)
Definition but_last (s : string) : string := stake (String.length s - 1) s.

(** A generic [while] loop: the body says whether to go on *)
Fixpoint while {S : Type} (fuel : nat) (body : S -> result (bool * S)) (s : S)
  : result S :=
  match fuel with
  | O => OutOfFuel
  | S fuel' =>
      let* (again, s') := body s in
      if again then while fuel' body s' else Ok s'
  end.

(** [m.group(name)] as Python gives it: [None] for a group that did not
    take part *)
Definition group_opt (m : Match) (name : string) : result (option string) :=
  match sassoc name (m_names m) with
  | None => Raise (IndexError "no such group")
  | Some i => Ok (group_index m i)
  end.

(** [len(m.group(i))] and the like: the group used as a string *)
Definition group_at (m : Match) (i : nat) : result string :=
  if m_groups m <? i then Raise (IndexError "no such group") else
  match group_index m i with
  | Some s => Ok s
  | None => Raise (TypeError "NoneType")
  end.

Definition set_rules (r : list string) (p : BlockParser) : BlockParser :=
  MkParser (specification p) r (block_quote_rules p) (list_rules p)
           (max_nested_level p) (__sc p) (__methods p).

Definition set_methods (m : gmap string method) (p : BlockParser) : BlockParser :=
  MkParser (specification p) (rules p) (block_quote_rules p) (list_rules p)
           (max_nested_level p) (__sc p) m.

(** [{name: getattr(self, 'parse_' + name) for name in self.RULE_NAMES}] *)
Definition bound_methods (names : list string) : gmap string method :=
  list_to_map (map (fun n => (n, MBound n)) names).

Section Parser.
Variable X : externals.

(** [__init__(rules=None, block_quote_rules=None, list_rules=None,
    max_nested_level=6)] *)
Definition BlockParser_init (rules block_quote_rules list_rules : option (list string))
    (max_nested_level : nat) : BlockParser :=
  MkParser (list_to_map (SPECIFICATION X))
           (default RULE_NAMES rules)
           (default RULE_NAMES block_quote_rules)
           (default RULE_NAMES list_rules)
           max_nested_level
           ∅
           (bound_methods RULE_NAMES).

(** [BlockParser()] *)
Definition default_parser : BlockParser := BlockParser_init None None None 6.

(** [r'(?P<%s>%s)' % (k, self.specification[k]) for k in rules] *)
Fixpoint named_rules (spec : gmap string re) (rules : list string)
  : result (list re) :=
  match rules with
  | [] => Ok []
  | k :: rest =>
      match spec !! k with
      | None => Raise (KeyError k)
      | Some r => let* l := named_rules spec rest in Ok (Named k r :: l)
      end
  end.

(** [compile_sc(rules)] (lines 137-151): the compiled pattern and the
    parser with its cache [__sc] updated *)
Definition compile_sc (self : BlockParser) (rules_arg : option (list string))
  : result (pattern * BlockParser) :=
  let (key, rules) :=
    match rules_arg with
    | None => ("$", rules self)
    | Some r => (join_bar r, r)
    end in
  match __sc self !! key with
  | Some sc => Ok (sc, self)
  | None =>
      let* parts := named_rules (specification self) rules in
      let sc := Pattern (alts parts) true in
      Ok (sc, set_sc (<[key := sc]> (__sc self)) self)
  end.

(** [register_rule(name, func, before=None)] (lines 153-159); the wrapper
    it stores does not depend on what [func] does until it is called *)
Definition register_rule (self : BlockParser) (name : string)
    (before : option string) : result BlockParser :=
  let self := set_methods (<[name := MLambda]> (__methods self)) self in
  match before with
  | Some (String c b) =>
      match index_of (String c b) (rules self) with
      | Some index => Ok (set_rules (insert_at index name (rules self)) self)
      | None => Raise (ValueError "is not in list")
      end
  | _ => Ok (set_rules (rules self ++ [name]) self)
  end.

Definition parse_blank_line (m : Match) (state : BlockState)
  : result (pyret * BlockState) :=
  let state := append_token [("type", VStr "blank_line")] state in
  Ok (RPos (m_end m), state).

Definition parse_thematic_break (m : Match) (state : BlockState)
  : result (pyret * BlockState) :=
  let state := append_token [("type", VStr "thematic_break")] state in
  (* $ does not count '\n' *)
  Ok (RPos (m_end m + 1), state).

Definition parse_indent_code (m : Match) (state : BlockState)
  : result (pyret * BlockState) :=
  (* it is a part of the paragraph *)
  let (end_pos, state) := append_paragraph state in
  if truthy (of_pos end_pos) then Ok (of_pos end_pos, state)
  else
    let* code := group m "indent_code" in
    let code := expand_leading_tab X code 4 in
    let code := re_sub_del _INDENT_CODE_TRIM code in
    let code := escape X (strip_nl code) in
    let state := append_token [("type", VStr "block_code"); ("raw", VStr code)] state in
    Ok (RPos (m_end m), state).

(** the closing fence of [parse_fenced_code]:
    [re.compile(r'^ {0,3}' + c + '{' + str(len(marker)) + r',}[ \t]*(?:\n|$)', re.M)],
    the character [c] being a backtick or a tilde *)
Definition _end (c : ascii) (n : nat) : pattern :=
  Pattern (seqs [Bol; Spaces03; AtLeast n (Chr c); Star WS; NLorEnd]) true.

(** [re.compile('^ {0,' + str(len(spaces)) + '}', re.M)] *)
Definition _trim_pattern (n : nat) : pattern :=
  Pattern (Seq Bol (Between 0 n (Chr SP))) true.

(** [parse_fenced_code(m, state)] (lines 188-222) *)
Definition parse_fenced_code (m : Match) (state : BlockState)
  : result (pyret * BlockState) :=
  let* spaces := group m "fenced_1" in
  let* marker := group m "fenced_2" in
  let* info := group m "fenced_3" in
  match marker with
  | EmptyString => Raise (IndexError "string index out of range")
  | String c _ =>
      if negb (String.eqb info "") && Ascii.eqb c "`" && has_char c info then
        (* CommonMark Example 145
           Info strings for backtick code blocks cannot contain backticks *)
        Ok (RNone, state)
      else
        let cursor_start := m_end m in
        let (code, end_pos) :=
          match re_search (_end c (String.length marker)) (src state) cursor_start with
          | Some m2 => (slice cursor_start (m_start m2) (src state), m_end m2)
          | None => (sdrop cursor_start (src state), cursor_max state)
          end in
        let code :=
          if negb (String.eqb spaces "") && negb (String.eqb code "") then
            re_sub_del (_trim_pattern (String.length spaces)) code
          else code in
        let token :=
          [("type", VStr "block_code"); ("raw", VStr (escape X code));
           ("fenced", VBool true)] in
        let token :=
          if negb (String.eqb info "") then
            let info := unescape_char X info in
            dset "attrs" (VDict [("info", VStr (safe_entity X (strip info)))]) token
          else token in
        Ok (RPos end_pos, append_token token state)
  end.

Definition parse_axt_heading (m : Match) (state : BlockState)
  : result (pyret * BlockState) :=
  let* axt_1 := group m "axt_1" in
  let level := String.length axt_1 in
  let* axt_2 := group m "axt_2" in
  let text := strip axt_2 in
  (* remove last # *)
  let text :=
    if negb (String.eqb text "") then re_sub_del _AXT_HEADING_TRIM text else text in
  let token :=
    [("type", VStr "heading"); ("text", VStr text);
     ("attrs", VDict [("level", VInt level)])] in
  Ok (RPos (m_end m + 1), append_token token state).

(** [parse_setex_heading(m, state)] (lines 235-241): the last token is a
    dict that the state's list holds, so that the assignments to it change
    the token in the list *)
Definition parse_setex_heading (m : Match) (state : BlockState)
  : result (pyret * BlockState) :=
  match last_token state with
  | None => Ok (RNone, state)
  | Some [] => Ok (RNone, state)
  | Some last_token =>
      match dget "type" last_token with
      | None => Raise (KeyError "type")
      | Some ty =>
          if is_str ty "paragraph" then
            let* setext_1 := group_opt m "setext_1" in
            let level :=
              match setext_1 with
              | Some g => if String.eqb g "=" then 1 else 2
              | None => 2
              end in
            let last_token := dset "type" (VStr "heading") last_token in
            let last_token := dset "attrs" (VDict [("level", VInt level)]) last_token in
            Ok (RPos (m_end m + 1), set_tokens (set_last last_token (tokens state)) state)
          else Ok (RNone, state)
      end
  end.

(** [key not in d] followed by [d[key] = attrs] *)
Definition add_ref_link (key : string) (attrs : link_attrs) (e : Env) : Env :=
  MkEnv (<[key := attrs]> (ref_links e)).

(** [parse_ref_link(m, state)] (lines 243-289) *)
Definition parse_ref_link (m : Match) (state : BlockState)
  : result (pyret * BlockState) :=
  let (end_pos, state) := append_paragraph state in
  if truthy (of_pos end_pos) then Ok (of_pos end_pos, state)
  else
    let* link_1 := group m "link_1" in
    let key := unikey X link_1 in
    if String.eqb key "" then Ok (RNone, state)
    else
      match parse_link_href X (src state) (m_end m) with
      | None => Ok (RNone, state)
      | Some (href, href_pos) =>
          let max_pos :=
            match re_search BLANK_LINE (src state) href_pos with
            | Some _blank => m_start _blank
            | None => cursor_max state
            end in
          let (title, title_pos) :=
            match parse_link_title X (src state) href_pos max_pos with
            | Some (title, title_pos) => (Some title, Some title_pos)
            | None => (None, None)
            end in
          let (title, title_pos) :=
            if truthy (of_pos title_pos) then
              match re_match _BLANK_TO_LINE (src state) (default 0 title_pos) with
              | Some m => (title, Some (m_end m))
              | None => (None, None)
              end
            else (title, title_pos) in
          let (href, href_pos) :=
            match title_pos with
            | None =>
                match re_match _BLANK_TO_LINE (src state) href_pos with
                | Some m => (Some href, Some (m_end m))
                | None => (None, None)
                end
            | Some _ => (Some href, Some href_pos)
            end in
          (* end_pos = title_pos or href_pos *)
          let end_pos := if truthy (of_pos title_pos) then title_pos else href_pos in
          if negb (truthy (of_pos end_pos)) then Ok (RNone, state)
          else
            match ref_links (env state) !! key with
            | Some _ => Ok (of_pos end_pos, state)
            | None =>
                match href with
                | None => Raise (TypeError "NoneType")
                | Some href =>
                    let href := unescape_char X href in
                    let attrs :=
                      LinkAttrs (escape_url X href)
                        (match title with
                         | Some (String c t) => Some (safe_entity X (String c t))
                         | _ => None
                         end) in
                    Ok (of_pos end_pos, set_env (add_ref_link key attrs (env state)) state)
                end
            end
      end.

Definition block_html_token (text : string) : token :=
  [("type", VStr "block_html"); ("raw", VStr text)].

Definition _parse_html_to_end (state : BlockState) (end_marker : string)
    (start_pos : nat) : pyret * BlockState :=
  match find_from end_marker (src state) start_pos with
  | None =>
      let text := sdrop (cursor state) (src state) in
      let end_pos := cursor_max state in
      (RPos end_pos, append_token (block_html_token text) state)
  | Some marker_pos =>
      let text := get_text state marker_pos in
      let state := set_cursor marker_pos state in
      let end_pos := find_line_end state in
      let text := text +:+ get_text state end_pos in
      (RPos end_pos, append_token (block_html_token text) state)
  end.

Definition _parse_html_to_newline (state : BlockState) (newline : pattern)
  : pyret * BlockState :=
  match re_search newline (src state) (cursor state) with
  | Some m =>
      let end_pos := m_start m in
      let text := get_text state end_pos in
      (RPos end_pos, append_token (block_html_token text) state)
  | None =>
      let text := sdrop (cursor state) (src state) in
      let end_pos := cursor_max state in
      (RPos end_pos, append_token (block_html_token text) state)
  end.

Definition mem (x : string) (l : list string) : bool := existsb (String.eqb x) l.

(** [parse_raw_html(m, state)] (lines 508-555); [close_tag] and [open_tag]
    are [tag], the one or the other being set as [is_close] says *)
Definition parse_raw_html (m : Match) (state : BlockState)
  : result (pyret * BlockState) :=
  let* whole :=
    match m_lastgroup m with
    | Some g => group m g
    | None => Raise (IndexError "no such group")
    end in
  let marker := strip whole in
  (* rule 2 *)
  if String.eqb marker "<!--" then Ok (_parse_html_to_end state "-->" (m_end m))
  (* rule 3 *)
  else if String.eqb marker "<?" then Ok (_parse_html_to_end state "?>" (m_end m))
  (* rule 5 *)
  else if String.eqb marker "<![CDATA[" then Ok (_parse_html_to_end state "]]>" (m_end m))
  (* rule 4 *)
  else if startswith "<!" marker then Ok (_parse_html_to_end state ">" (m_end m))
  else
    let is_close := startswith "</" marker in
    let tag := lower (sdrop (if is_close then 2 else 1) marker) in
    if is_close && mem tag (BLOCK_TAGS X) then
      (* rule 6 *)
      Ok (_parse_html_to_newline state BLANK_LINE)
    else if negb is_close && mem tag (PRE_TAGS X) then
      (* rule 1 *)
      Ok (_parse_html_to_end state ("</" +:+ tag +:+ ">") (m_end m))
    else if negb is_close && mem tag (BLOCK_TAGS X) then
      (* rule 6 *)
      Ok (_parse_html_to_newline state BLANK_LINE)
    else
      (* Blocks of type 7 may not interrupt a paragraph. *)
      let (end_pos, state) := append_paragraph state in
      if truthy (of_pos end_pos) then Ok (of_pos end_pos, state)
      else
        (* rule 7 *)
        let start_pos := m_end m in
        let end_pos := find_line_end state in
        let tag_end := if is_close then _CLOSE_TAG_END else _OPEN_TAG_END X in
        if negb (String.eqb tag "") then
          match re_match_until tag_end (src state) start_pos end_pos with
          | Some _ => Ok (_parse_html_to_newline state BLANK_LINE)
          | None => Ok (RNone, state)
          end
        else Ok (RNone, state).

Definition lift (r : result (pyret * BlockState)) (self : BlockParser)
  : result (pyret * BlockState * BlockParser) :=
  let* (end_pos, state) := r in Ok (end_pos, state, self).

(** the quoted lines of a [STRICT_BLOCK_QUOTE] match, with their markers
    removed *)
Definition dequote (m : Match) : string :=
  let quote := slice (m_start m) (m_end m) (m_string m) in
  let quote := re_sub_del _BLOCK_QUOTE_LEADING quote in
  let quote := expand_leading_tab X quote 3 in
  re_sub_del _BLOCK_QUOTE_TRIM quote.

(** what the lazy loop of [parse_block_quote] carries from one iteration
    to the next *)
Record quote_loop := QuoteLoop {
  q_text : string;
  q_prev_blank_line : bool;
  q_end_pos : pyret;
  q_state : BlockState;
  q_self : BlockParser
}.

(** what a handler called through [parse_method] gives back: the value
    returned, the state and the parser *)
Definition handled : Type := result (pyret * BlockState * BlockParser).

(** One iteration of the [while] loop of the lazy branch of
    [parse_block_quote]; [false] ends the loop.  [parse_method] stands for
    [self.parse_method]. *)
Definition quote_loop_body
    (parse_method : BlockParser -> option Match -> BlockState -> handled)
    (break_sc : pattern) (q : quote_loop) : result (bool * quote_loop) :=
  let state := q_state q in
  if cursor state <? cursor_max state then
    match state_match state STRICT_BLOCK_QUOTE with
    | Some m =>
        let quote := dequote m in
        let prev_blank_line :=
          if String.eqb (strip quote) "" then true
          else bool_decide (is_Some (re_search _LINE_BLANK_END quote 0)) in
        Ok (true, QuoteLoop (q_text q +:+ quote) prev_blank_line (q_end_pos q)
                            (set_cursor (m_end m) state) (q_self q))
    | None =>
        if q_prev_blank_line q then
          (* CommonMark Example 249
             because of laziness, a blank line is needed between
             a block quote and a following paragraph *)
          Ok (false, q)
        else
          let m := state_match state break_sc in
          let* (end_pos, state, self) := parse_method (q_self q) m state in
          if truthy end_pos then
            Ok (false, QuoteLoop (q_text q) false end_pos state self)
          else
            (* lazy continuation line *)
            let* pos := missing_attribute "find_line_end" in
            let* line := missing_attribute "get_text" in
            let line := expand_leading_tab X line 3 in
            Ok (true, QuoteLoop (q_text q +:+ line) false (q_end_pos q)
                                (set_cursor pos state) self)
    end
  else Ok (false, q).

(** One iteration of the [while] loop of [parse]; [false] ends the
    loop. *)
Definition parse_iteration
    (parse_method : BlockParser -> option Match -> BlockState -> handled)
    (sc : pattern) (st : BlockState * BlockParser)
  : result (bool * (BlockState * BlockParser)) :=
  let (state, self) := st in
  if cursor state <? cursor_max state then
    match re_search sc (src state) (cursor state) with
    | None => Ok (false, (state, self))
    | Some m =>
        let end_pos := m_start m in
        let state :=
          if cursor state <? end_pos then
            let text := get_text state end_pos in
            set_cursor end_pos (add_paragraph text state)
          else state in
        let* (end_pos, state, self) := parse_method self (Some m) state in
        if truthy end_pos then
          Ok (true, (set_cursor (as_int end_pos) state, self))
        else
          let end_pos := find_line_end state in
          (* state.add_paragraph(state.get_text(pos)) *)
          let* pos := unbound_name "pos" in
          let state := add_paragraph (get_text state pos) state in
          Ok (true, (set_cursor end_pos state, self))
    end
  else Ok (false, (state, self)).

(** [parse_method(m, state)] (lines 161-163), [parse_block_quote(m, state)]
    (lines 291-375) and [parse(state, rules)] (lines 571-596) call one
    another; the budget [fuel] bounds the depth of the calls and the number
    of iterations of each loop. *)
Fixpoint parse_method (fuel : nat) (self : BlockParser) (m : option Match)
    (state : BlockState) {struct fuel} : handled :=
  match fuel with
  | O => OutOfFuel
  | S fuel' =>
      match m with
      | None => Raise (AttributeError "lastgroup")
      | Some m =>
          match m_lastgroup m with
          | None => Raise (KeyError "None")
          | Some g =>
              match __methods self !! g with
              | None => Raise (KeyError g)
              | Some MLambda =>
                  (* lambda state: func(self, state), called as func(m, state) *)
                  Raise (TypeError "<lambda>() takes 1 positional argument but 2 were given")
              | Some (MBound name) =>
                  if String.eqb name "blank_line" then lift (parse_blank_line m state) self
                  else if String.eqb name "fenced_code" then lift (parse_fenced_code m state) self
                  else if String.eqb name "indent_code" then lift (parse_indent_code m state) self
                  else if String.eqb name "axt_heading" then lift (parse_axt_heading m state) self
                  else if String.eqb name "setex_heading" then lift (parse_setex_heading m state) self
                  else if String.eqb name "thematic_break" then lift (parse_thematic_break m state) self
                  else if String.eqb name "block_quote" then parse_block_quote fuel' self m state
                  else if String.eqb name "ref_link" then lift (parse_ref_link m state) self
                  else if String.eqb name "raw_html" then lift (parse_raw_html m state) self
                  else Raise (AttributeError ("parse_" +:+ name))
              end
          end
      end
  end

with parse_block_quote (fuel : nat) (self : BlockParser) (m : Match)
    (state : BlockState) {struct fuel} : handled :=
  match fuel with
  | O => OutOfFuel
  | S fuel' =>
      (* cleanup at first to detect if it is code block *)
      let* quote_1 := group m "quote_1" in
      let text := quote_1 +:+ String NL "" in
      let text := expand_leading_tab X text 3 in
      let text := re_sub_del _BLOCK_QUOTE_TRIM text in
      let* (sc, self) := compile_sc self (Some ["blank_line"; "indent_code"; "fenced_code"]) in
      let require_marker := bool_decide (is_Some (re_match sc text 0)) in
      let state := set_cursor (m_end m + 1) state in
      let* q :=
        if require_marker then
          match state_match state STRICT_BLOCK_QUOTE with
          | Some m =>
              Ok (QuoteLoop (text +:+ dequote m) false RNone (set_cursor (m_end m) state) self)
          | None => Ok (QuoteLoop text false RNone state self)
          end
        else
          let* (break_sc, self) :=
            compile_sc self (Some ["blank_line"; "thematic_break"; "fenced_code";
                                   "block_html"]) in
          while fuel' (quote_loop_body (parse_method fuel') break_sc)
                (QuoteLoop text false RNone state self)
      in
      let state := q_state q in
      let self := q_self q in
      let end_pos := q_end_pos q in
      (* according to CommonMark Example 6, the second tab should be
         treated as 4 spaces *)
      let text := expand_tab X (q_text q) in
      (* scan children state *)
      let child := process text (set_in_block "block_quote" (child_state state)) in
      let* rules :=
        if max_nested_level self <=? depth state then
          match remove_first "block_quote" (block_quote_rules self) with
          | Some rules => Ok rules
          | None => Raise (ValueError "list.remove(x): x not in list")
          end
        else Ok (block_quote_rules self) in
      let* (child, self) := parse fuel' self child (Some rules) in
      let state := set_env (env child) state in
      let token := [("type", VStr "block_quote"); ("children", VTokens (tokens child))] in
      if truthy end_pos then Ok (end_pos, prepend_token token state, self)
      else
        let state := append_token token state in
        Ok (RPos (cursor state), state, self)
  end

with parse (fuel : nat) (self : BlockParser) (state : BlockState)
    (rules : option (list string)) {struct fuel} : result (BlockState * BlockParser) :=
  match fuel with
  | O => OutOfFuel
  | S fuel' =>
      let* (sc, self) := compile_sc self rules in
      let* (state, self) :=
        while fuel' (parse_iteration (parse_method fuel') sc) (state, self) in
      let state :=
        if cursor state <? cursor_max state then
          let text := sdrop (cursor state) (src state) in
          set_cursor (cursor_max state) (add_paragraph text state)
        else state in
      Ok (state, self)
  end.

Definition _get_list_bullet (c : ascii) : re :=
  if Ascii.eqb c "." then Seq (Between 0 9 (Cls false [CDigit])) (Chr ".")  (* r'\d{0,9}\.' *)
  else if Ascii.eqb c ")" then Seq (Between 0 9 (Cls false [CDigit])) (Chr ")") (* r'\d{0,9}\)' *)
  else if Ascii.eqb c "*" then Chr "*"                                       (* r'\*' *)
  else if Ascii.eqb c "+" then Chr "+"                                       (* r'\+' *)
  else Chr "-".

(** the text made by [_compile_list_item_pattern]: a group of [ {0,w}],
    a group of the bullet, a group of [[ \t]*|[ \t][^\n]+], and then
    [(?:\n|$)] *)
Definition _compile_list_item_pattern (bullet : re) (leading_width : nat) : re :=
  let leading_width := if 3 <? leading_width then 3 else leading_width in
  seqs [Group (Between 0 leading_width (Chr SP));
        Group bullet;
        Group (Alt (Star WS) (Seq WS (Plus NotNL)));
        NLorEnd].

Definition _compile_continue_width (text : string) (leading_width : nat)
  : string * nat :=
  let text := expand_leading_tab X text 3 in
  let text := expand_tab X text in
  let (text, space_width) :=
    match re_match _LINE_HAS_TEXT text 0 with
    | Some m2 =>
        (* indent code, startswith 5 spaces *)
        let space_width :=
          if startswith "     " text then 1
          else String.length (default "" (group_index m2 1)) in
        (sdrop space_width text, space_width)
    | None => ("", 1)
    end in
  (text, leading_width + space_width).

Definition _clean_list_item_text (src text : string) (continue_width : nat)
  : string :=
  (* according to Example 7, tab should be treated as 3 spaces *)
  let rv := if String.eqb text "" then [] else [text] in
  let trim_space := repeat_char SP continue_width in
  let lines := split_nl src in
  join_nl (rv ++ map (fun line =>
                        if startswith trim_space line then
                          (* according to CommonMark Example 5
                             tab should be treated as 4 spaces *)
                          expand_tab X (sdrop (String.length trim_space) line)
                        else line) lines).

(** [any(tok['type'] == 'blank_line' for tok in tokens)] *)
Definition has_blank_line (tokens : list token) : bool :=
  existsb (fun tok => match dget "type" tok with
                      | Some v => is_str v "blank_line"
                      | None => false
                      end) tokens.

(** [_parse_list_item(parent_state, match, children, rules)] (lines
    425-503).  The list [pairs] is built from [self.THEMATIC_BREAK.pattern],
    [self.FENCED_CODE.pattern], [self.AXT_HEADING.pattern],
    [self.BLOCK_QUOTE.pattern], [_BLOCK_HTML_BREAK.pattern] and
    [self.LIST.pattern], in this order.  Each pattern is put in a group
    named after its token, behind [(?<=\n)]; for a token other than
    [list_item] and [break] the method [parse_<token>], which has the
    parameters [m] and [state], is called with [parent_state] alone.  [fuel]
    is the budget of [self.parse]. *)
Definition _parse_list_item (fuel : nat) (self : BlockParser)
    (parent_state : BlockState) (match_ : Match) (children : list token)
    (rules : list string)
  : result (option Match * list token * BlockState * BlockParser) :=
  let line_root_ := line parent_state in
  let start_line := line_root_ + line_root parent_state in
  let* group_1 := group_at match_ 1 in
  let space_width := String.length group_1 in
  let* marker := group_at match_ 2 in
  let leading_width := space_width + String.length marker in
  let* c := last_char marker in
  let bullet := _get_list_bullet c in
  let item_pattern := _compile_list_item_pattern bullet leading_width in
  let* group_3 := group_at match_ 3 in
  let '(text, continue_width) := _compile_continue_width group_3 leading_width in
  let* thematic_break := missing_attribute "THEMATIC_BREAK" in
  let* fenced_code := missing_attribute "pattern" in
  let* axt_heading := missing_attribute "AXT_HEADING" in
  let* block_quote := missing_attribute "BLOCK_QUOTE" in
  let* list_ := missing_attribute "pattern" in
  let pairs : list (string * re) :=
    [ ("thematic_break", thematic_break);
      ("fenced_code", fenced_code);
      ("axt_heading", axt_heading);
      ("block_quote", block_quote);
      ("block_html", p_re (_BLOCK_HTML_BREAK X));
      ("list", list_) ] in
  let pairs :=
    if leading_width <? 3 then
      map (fun '(n, p) => (n, fst (replace_3 leading_width p))) pairs
    else pairs in
  let pairs := firstn 1 pairs ++ ("list_item", item_pattern) :: skipn 1 pairs in
  let break_pattern :=
    if negb (String.eqb text "") then
      seqs [Star WS; Chr NL; Between 0 (continue_width - 1) (Chr SP);
            NotAhead bullet; Cls true [CSpace]]
    else
      seqs [Star WS; Chr NL;
            Group (alts [Seq Spaces03 (NotAhead bullet);
                         AtLeast 4 (Chr SP);
                         Seq (Star (Chr SP)) (Chr TAB)]);
            Cls true [CSpace]] in
  let pairs := pairs ++ [("break", break_pattern)] in
  let sc :=
    Pattern (alts (map (fun '(n, p) => Named n (Seq (Behind false [COne NL]) p)) pairs))
            false in
  let* (src_, line_count, has_next, parent_state) :=
    match re_search sc (src parent_state) (m_end match_) with
    | Some m =>
        let tok_type := default "" (m_lastgroup m) in
        let cursor := m_start m in
        let src_ := slice (m_end match_) cursor (src parent_state) in
        let line_count := count_nl src_ + 1 in
        let parent_state :=
          set_cursor cursor (set_line (line parent_state + line_count) parent_state) in
        if String.eqb tok_type "list_item" then Ok (src_, line_count, true, parent_state)
        else if String.eqb tok_type "break" then Ok (src_, line_count, false, parent_state)
        else
          (* func = getattr(self, 'parse_' + tok_type); func(parent_state) *)
          Raise (TypeError "missing 1 required positional argument: 'state'")
    | None =>
        let src_ := sdrop (m_end match_) (src parent_state) in
        let line_count := count_nl src_ + 1 in
        Ok (src_, line_count, false,
            set_cursor (cursor_max parent_state)
                       (set_line (line parent_state + line_count) parent_state))
    end in
  let state := set_line_root line_root_ (child_state parent_state) in
  let text := _clean_list_item_text src_ text continue_width in
  let parent_state :=
    if list_tight parent_state
       && bool_decide (is_Some (re_search _LINE_BLANK_END text 0))
    then set_list_tight false parent_state else parent_state in
  let state := process (strip_end X text) state in
  let* (state, self) := parse fuel self state (Some rules) in
  let parent_state := set_env (env state) parent_state in
  let parent_state :=
    if list_tight parent_state && has_blank_line (tokens state)
    then set_list_tight false parent_state else parent_state in
  let children :=
    children ++ [[("type", VStr "list_item");
                  ("start_line", VInt start_line);
                  ("end_line", VInt (start_line + line_count));
                  ("children", VTokens (tokens state))]] in
  if has_next then
    Ok (state_match parent_state (Pattern item_pattern false), children, parent_state, self)
  else Ok (None, children, parent_state, self).

Definition list_item_attrs (depth : nat) (tight : bool) : pyval :=
  VDict [("depth", VInt depth); ("tight", VBool tight)].

(** [parse_list(m, state)] (lines 377-423); [fuel] bounds the iterations
    of its [while m:] loop *)
Definition parse_list (fuel : nat) (self : BlockParser) (m : Match)
    (state : BlockState) : result (pyret * BlockState * BlockParser) :=
  let* text := group m "list_3" in
  (* Example 285
     an empty list item cannot interrupt a paragraph *)
  let (end_pos, state) :=
    if String.eqb (strip text) "" then append_paragraph state else (None, state) in
  if truthy (of_pos end_pos) then Ok (of_pos end_pos, state, self)
  else
    let* marker := group m "list_2" in
    let ordered := 1 <? String.length marker in
    let attrs : token := [("ordered", VBool ordered)] in
    let* (end_pos, attrs, state) :=
      if ordered then
        let* start := int_of (but_last marker) in
        if negb (start =? 1) then
          (* Example 304
             we allow only lists starting with 1 to interrupt paragraphs *)
          let (end_pos, state) := append_paragraph state in
          if truthy (of_pos end_pos) then Ok (end_pos, attrs, state)
          else Ok (None, dset "start" (VInt start) attrs, state)
        else Ok (None, attrs, state)
      else Ok (None, attrs, state) in
    if truthy (of_pos end_pos) then Ok (of_pos end_pos, state, self)
    else
      let depth := depth state in
      let* rules :=
        if max_nested_level self <=? depth then
          match remove_first "list" (list_rules self) with
          | Some rules => Ok rules
          | None => Raise (ValueError "list.remove(x): x not in list")
          end
        else Ok (list_rules self) in
      let* (_, children, state, self) :=
        while fuel (fun '(m, children, state, self) =>
          match m with
          | Some m =>
              let* r := _parse_list_item fuel self state m children rules in
              Ok (true, r)
          | None => Ok (false, (m, children, state, self))
          end)
          (Some m, [], state, self) in
      let attrs := dset "depth" (VInt depth) attrs in
      let attrs := dset "tight" (VBool (list_tight state)) attrs in
      let children :=
        map (dset "attrs" (list_item_attrs depth (list_tight state))) children in
      let token :=
        [("type", VStr "list"); ("children", VTokens children); ("attrs", VDict attrs)] in
      let state := add_token token None state in
      (* reset list_tight *)
      let state := set_list_tight true state in
      Ok (RTrue, state, self).
End Parser.

(** ** An implementation of the imported names

    The properties below that hold of every implementation of [util] and
    [helpers] are stated over any [externals].  The evaluations of the
    parser on a given document need one; [sample_externals] is a plain
    implementation for ASCII text. *)

(** Modelled from the spec: [expand_leading_tab(text, width)], "leading tabs
    are expanded to up to 3 spaces": on each line, a tab that follows at most
    three leading spaces is replaced by spaces up to [width] columns. *)
Fixpoint expand_lines (width : nat) (keep_tab_width : option nat) (s : string)
    (lead : option nat) : string :=
  match s with
  | EmptyString => EmptyString
  | String c s' =>
      if Ascii.eqb c NL then String c (expand_lines width keep_tab_width s' (Some 0))
      else
        match lead with
        | Some n =>
            if Ascii.eqb c SP && (n <? 3) then
              String c (expand_lines width keep_tab_width s' (Some (S n)))
            else if Ascii.eqb c TAB then
              repeat_char SP (default (width - n) keep_tab_width)
                +:+ expand_lines width keep_tab_width s' None
            else String c (expand_lines width keep_tab_width s' None)
        | None => String c (expand_lines width keep_tab_width s' None)
        end
  end.

Definition sample_expand_leading_tab (text : string) (width : nat) : string :=
  expand_lines width None text (Some 0).

(** Modelled from the spec: [expand_tab(text)], "a subsequent tab is expanded
    to 4 spaces". *)
Definition sample_expand_tab (text : string) : string :=
  expand_lines 4 (Some 4) text (Some 0).

(** Modelled from the spec: [escape], "HTML-escaped": the characters [&],
    [<], [>] and the double quote are replaced by their entities. *)
Fixpoint sample_escape (s : string) : string :=
  match s with
  | EmptyString => EmptyString
  | String c s' =>
      (if Ascii.eqb c "&" then "&amp;"
       else if Ascii.eqb c "<" then "&lt;"
       else if Ascii.eqb c ">" then "&gt;"
       else if Ascii.eqb c "034" then "&quot;"
       else String c "") +:+ sample_escape s'
  end.

(** Modelled from the spec: [unikey], "Normalize label (Unicode-case-fold,
    collapse whitespace)", on ASCII text. *)
Fixpoint collapse_ws (s : string) (pending : bool) : string :=
  match s with
  | EmptyString => EmptyString
  | String c s' =>
      if is_space c then collapse_ws s' true
      else (if pending then String SP (String c "") else String c "")
             +:+ collapse_ws s' false
  end.

Definition sample_unikey (s : string) : string :=
  lower (collapse_ws (lstrip_by is_space s) false).

(** [strip_end]: white space at the end of the text, from a newline on, is
    replaced by one newline. *)
Definition sample_strip_end (s : string) : string :=
  let t := rstrip_by is_space s in
  if has_char NL (sdrop (String.length t) s) then t +:+ String NL "" else s.

(** A link destination without angle brackets: the run of characters that
    are not white space, after optional white space with at most one
    newline. *)
Fixpoint skip_blank (s : string) (pos : nat) (newlines : nat) : option (string * nat) :=
  match s with
  | EmptyString => Some (s, pos)
  | String c s' =>
      if Ascii.eqb c NL then
        match newlines with
        | O => None
        | S n => skip_blank s' (S pos) n
        end
      else if is_space c then skip_blank s' (S pos) newlines
      else Some (s, pos)
  end.

Fixpoint take_word (s : string) : string :=
  match s with
  | EmptyString => EmptyString
  | String c s' => if is_space c then EmptyString else String c (take_word s')
  end.

Definition sample_parse_link_href (src : string) (pos : nat) : option (string * nat) :=
  match skip_blank (sdrop pos src) pos 1 with
  | Some (rest, p) =>
      let w := take_word rest in
      if String.eqb w "" then None else Some (w, p + String.length w)
  | None => None
  end.

(** A link title in double quotes on the line of the destination. *)
Definition sample_parse_link_title (src : string) (pos max_pos : nat)
  : option (string * nat) :=
  match skip_blank (slice pos max_pos src) pos 0 with
  | Some (String q rest, p) =>
      if Ascii.eqb q "034" then
        match find_from (String "034" "") rest 0 with
        | Some n => Some (stake n rest, p + n + 2)
        | None => None
        end
      else None
  | _ => None
  end.

(** Modelled from the spec: type 6 of section 4.5, "any block tag from the
    known set", the tag names of CommonMark. *)
Definition sample_BLOCK_TAGS : list string :=
  [ "address"; "article"; "aside"; "base"; "basefont"; "blockquote"; "body";
    "caption"; "center"; "col"; "colgroup"; "dd"; "details"; "dialog"; "dir";
    "div"; "dl"; "dt"; "fieldset"; "figcaption"; "figure"; "footer"; "form";
    "frame"; "frameset"; "h1"; "h2"; "h3"; "h4"; "h5"; "h6"; "head"; "header";
    "hr"; "html"; "iframe"; "legend"; "li"; "link"; "main"; "menu"; "menuitem";
    "meta"; "nav"; "noframes"; "ol"; "optgroup"; "option"; "p"; "param";
    "section"; "source"; "summary"; "table"; "tbody"; "td"; "tfoot"; "th";
    "thead"; "title"; "tr"; "track"; "ul" ].

(** Modelled from the spec: type 1 of section 4.5, "<pre, <script, <style,
    <textarea". *)
Definition sample_PRE_TAGS : list string := [ "pre"; "script"; "style"; "textarea" ].

(** a link label: characters other than brackets and backslashes, or
    escaped characters, at most 500 of them *)
Definition sample_LINK_LABEL : re :=
  Between 0 500 (Alt (Cls true [COne "\"; COne "["; COne "]"]) (Seq (Chr "\") Dot)).

(** a tag name: a letter, then letters, digits and hyphens *)
Definition sample_HTML_TAGNAME : re :=
  Seq (Cls false [CRange "A" "Z"; CRange "a" "z"])
      (Star (Cls false [CRange "A" "Z"; CRange "a" "z"; CRange "0" "9"; COne "-"])).

(** attributes without values: names separated by white space *)
Definition sample_HTML_ATTRIBUTES : re :=
  Star (Seq (Plus (Cls false [CSpace]))
            (Seq (Cls false [CRange "A" "Z"; CRange "a" "z"; COne "_"; COne ":"])
                 (Star (Cls false [CRange "A" "Z"; CRange "a" "z"; CRange "0" "9";
                                   COne "_"; COne "."; COne ":"; COne "-"])))).

Definition sample_externals : externals :=
  Externals sample_unikey sample_escape (fun s => s) sample_escape sample_strip_end
            sample_expand_tab sample_expand_leading_tab (fun s => s)
            sample_parse_link_href sample_parse_link_title
            sample_LINK_LABEL sample_HTML_TAGNAME sample_HTML_ATTRIBUTES
            sample_BLOCK_TAGS sample_PRE_TAGS.

(** [BlockState()] followed by [process(text)], and the parse of a whole
    document with a parser of the default configuration *)
Definition document (text : string) : BlockState := process text root_state.

Definition parse_document (fuel : nat) (text : string)
  : result (BlockState * BlockParser) :=
  parse sample_externals fuel (default_parser sample_externals) (document text) None.

(** ** Inputs of the examples *)

(** the match object of a pattern at an offset of a text, for the examples *)
Definition no_match : Match := MkMatch "" 0 0 [] None [] 0.

Definition match_at (p : pattern) (text : string) (pos : nat) : Match :=
  default no_match (re_match p text pos).

(** the pattern of one rule, as [compile_sc([name])] builds it *)
Definition rule_pattern (X : externals) (name : string) : pattern :=
  Pattern (Named name (default Eps (sassoc name (SPECIFICATION X)))) true.


(** A second definition of the label [foo], met when [foo] is already
    defined: the table and the tokens stay as they were. *)
Definition redefinition : BlockState :=
  set_env (MkEnv {[ "foo" := LinkAttrs "/u" None ]}) (document (lit "[Foo]: /v\n")).


(** Modelled from the spec: the token variants of section 3 ("Token
    variants (closed set)") with the fields that each carries besides its
    [type]: "block_code (carries raw; if fenced, attrs.info)", and so on. *)
Definition token_schema : list (string * list string) :=
  [ ("blank_line", ["type"]);
    ("thematic_break", ["type"]);
    ("heading", ["type"; "attrs"; "text"]);
    ("block_code", ["type"; "raw"; "attrs"]);
    ("paragraph", ["type"; "text"]);
    ("block_text", ["type"; "text"]);
    ("block_quote", ["type"; "children"]);
    ("list", ["type"; "attrs"; "children"]);
    ("list_item", ["type"; "attrs"; "start_line"; "end_line"; "children"]);
    ("block_html", ["type"; "raw"]) ].

(** a fenced code block with an info string *)
Definition fenced_document : BlockState := document (lit "```py\nx\n```\n").

(** a state in which the paragraph [open] is the last token and the cursor
    is after it *)
Definition after_paragraph (open rest : string) : BlockState :=
  set_cursor (String.length open)
    (add_paragraph open (document (open +:+ rest))).

(** the match of [LIST], compiled on its own with [re.M], at the cursor of
    a state; its groups 1, 2 and 3 are [list_1], [list_2] and [list_3] *)
Definition list_match (state : BlockState) : Match :=
  match_at (Pattern LIST true) (src state) (cursor state).

(** a state of depth [n]: the child of a child ... of a root state *)
Definition nested_state (n : nat) (text : string) : BlockState :=
  process text (Nat.iter n child_state root_state).

(** the matcher that [compile_sc(None)] builds for a parser of the default
    configuration *)
Definition default_matcher (X : externals) : pattern :=
  match compile_sc (default_parser X) None with
  | Ok (sc, _) => sc
  | _ => Pattern Eps true
  end.


(** a parser whose [list_rules] has the rule ['list'] *)
Definition list_parser (X : externals) : BlockParser :=
  BlockParser_init X None None (Some (RULE_NAMES ++ ["list"])) 6.

(** ** Closing fences, as the closing pattern of [parse_fenced_code] reads
    them *)

(** the number of leading characters of [s] that satisfy [f] *)
Fixpoint span (f : ascii -> bool) (s : string) : nat :=
  match s with
  | String a s' => if f a then S (span f s') else 0
  | EmptyString => 0
  end.

Definition is_blank (a : ascii) : bool := Ascii.eqb a SP || Ascii.eqb a TAB.

(** [p] is the offset of the start of a line of [s] *)
Definition line_start (s : string) (p : nat) : bool :=
  match char_before p s with
  | None => true
  | Some a => Ascii.eqb a NL
  end.

(** The text [rest], read from the start of a line, begins with a line that
    closes a fence of [n] characters [c]: at most three spaces, at least [n]
    copies of [c], then, when [trailing] is set, any number of spaces and
    tabs, and then the end of the line.  The result is the length of that
    line, its newline included. *)
Definition closing_line (trailing : bool) (c : ascii) (n : nat) (rest : string)
  : option nat :=
  let s := span (Ascii.eqb SP) rest in
  let r := span (Ascii.eqb c) (sdrop s rest) in
  let w := if trailing then span is_blank (sdrop (s + r) rest) else 0 in
  if (s <=? 3) && (n <=? r) then
    match sdrop (s + r + w) rest with
    | EmptyString => Some (s + r + w)
    | String a _ => if Ascii.eqb a NL then Some (s + r + w + 1) else None
    end
  else None.

(** the closing fence of the code: spaces and tabs may follow the fence *)
Definition closing_fence : ascii -> nat -> string -> option nat := closing_line true.

(** the closing fence as C4 words it: "a line consisting of
    0-3 leading spaces and at least n copies of the same fence character" *)
Definition bare_closing_fence : ascii -> nat -> string -> option nat := closing_line false.

(** the token that [parse_fenced_code] makes of the text [code] between the
    fences *)
Definition fenced_token (X : externals) (spaces info code : string) : token :=
  let code :=
    if negb (String.eqb spaces "") && negb (String.eqb code "") then
      re_sub_del (_trim_pattern (String.length spaces)) code
    else code in
  let token :=
    [("type", VStr "block_code"); ("raw", VStr (escape X code)); ("fenced", VBool true)] in
  if negb (String.eqb info "") then
    dset "attrs" (VDict [("info", VStr (safe_entity X (strip (unescape_char X info))))]) token
  else token.

(** the [raw] of the token that [parse_fenced_code] makes of the text [code]
    between the fences (lines 211-215) *)
Definition fenced_raw (X : externals) (spaces code : string) : string :=
  escape X (if negb (String.eqb spaces "") && negb (String.eqb code "")
            then re_sub_del (_trim_pattern (String.length spaces)) code
            else code).

(** an mstate moved over its next [j] characters *)
Fixpoint skip (j : nat) (st : mstate) : mstate :=
  match j with
  | O => st
  | S j' =>
      match ms_rest st with
      | String a rest => skip j' (advance a rest st)
      | EmptyString => st
      end
  end.

(** the matcher of one character of a class *)
Definition cls_body (neg : bool) (items : list citem)
  : mstate -> (mstate -> option mstate) -> option mstate :=
  fun st k =>
    match ms_rest st with
    | String a rest => if in_class neg items a then k (advance a rest st) else None
    | EmptyString => None
    end.

(** the run of a pattern at the offset [q] of [s] *)
Definition run_at (M : bool) (r : re) (s : string) (q : nat) : option mstate :=
  run M r 0 (MState q (char_before q s) (sdrop q s) [] None) Some.

(** a fenced block whose first closing fence is followed by a space, and a
    backtick fence with a backtick in its info string *)
Definition trailing_space_document : BlockState := document (lit "```\na\n``` \nb\n```\n").
Definition backtick_info_document : BlockState := document (lit "```a`b\nx\n```\n").

Definition fenced_match (state : BlockState) : Match :=
  match_at (rule_pattern sample_externals "fenced_code") (src state) 0.

(** every entry of the link table [e] is in [e'], unchanged *)
Definition keeps_links (e e' : Env) : Prop :=
  forall k v, ref_links e !! k = Some v -> ref_links e' !! k = Some v.

(** the three functions of the driver keep the link table *)
Definition family_keeps_links (X : externals) (fuel : nat) : Prop :=
  (forall self m st r st' self',
      parse_method X fuel self m st = Ok (r, st', self') ->
      keeps_links (env st) (env st'))
  /\ (forall self m st r st' self',
        parse_block_quote X fuel self m st = Ok (r, st', self') ->
        keeps_links (env st) (env st'))
  /\ (forall self st rules st' self',
        parse X fuel self st rules = Ok (st', self') ->
        keeps_links (env st) (env st')).


(** ** More of [block_parser.py] *)

(** the key of [self.__sc] that [compile_sc] uses for its argument *)
Definition sc_key (rules_arg : option (list string)) : string :=
  match rules_arg with
  | None => "$"
  | Some r => join_bar r
  end.

(** the rule list that [compile_sc] reads *)
Definition rules_of (self : BlockParser) (rules_arg : option (list string)) : list string :=
  match rules_arg with
  | None => rules self
  | Some r => r
  end.

Section MoreHandlers.
Variable X : externals.

(** [parse_block_html(m, state)] (lines 505-506) *)
Definition parse_block_html (m : Match) (state : BlockState)
  : result (pyret * BlockState) :=
  parse_raw_html X m state.

End MoreHandlers.

(** the pattern of the rule [axt_heading], as [SPECIFICATION] has it *)
Definition AXT_HEADING_RE : re :=
     seqs [Bol; Spaces03; Named "axt_1" (Between 1 6 (Chr "#"));
           NotAhead (Plus (Chr "#"));
           Named "axt_2" (Alt (Star WS) (Seq (Plus WS) (LazyStar Dot)));
           Eol].

(** ** The render bridge *)

(** Python's truth value of a value, as in [if attrs and attrs.get('tight')] *)
Definition truth (v : pyval) : bool :=
  match v with
  | VNone => false
  | VBool b => b
  | VInt n => negb (n =? 0)
  | VStr s => negb (String.eqb s "")
  | VDict d => match d with [] => false | _ => true end
  | VList l => match l with [] => false | _ => true end
  end.

(** [del d[k]] *)
Definition dremove (k : string) (d : token) : token :=
  List.filter (fun kv => negb (String.eqb k (fst kv))) d.

(** [postprocess_paragraph(token, parent)] (lines 563-569): the token with
    its type changed, or as it was; [attrs.get] raises for a true [attrs]
    that is not a dict *)
Definition postprocess_paragraph (tok parent : token) : result token :=
  match dget "attrs" parent with
  | None => Ok tok
  | Some attrs =>
      if truth attrs then
        match attrs with
        | VDict a =>
            if truth (default VNone (dget "tight" a))
            then Ok (dset "type" (VStr "block_text") tok)
            else Ok tok
        | _ => Raise (AttributeError "get")
        end
      else Ok tok
  end.

(** what [for tok in tokens] goes through: the items of a list, the keys of
    a dict, the characters of a string *)
Definition iterate (v : pyval) : result (list pyval) :=
  match v with
  | VList l => Ok l
  | VDict d => Ok (map (fun kv => VStr (fst kv)) d)
  | VStr s => Ok (map (fun c => VStr (String c "")) (list_ascii_of_string s))
  | _ => Raise (TypeError "object is not iterable")
  end.

(** [key in tok]: a key of a dict, a part of a string, an item of a list *)
Definition contains (key : string) (tok : pyval) : result bool :=
  match tok with
  | VDict d => Ok (bool_decide (is_Some (dget key d)))
  | VStr s => Ok (bool_decide (is_Some (find_from key s 0)))
  | VList l => Ok (existsb (fun v => is_str v key) l)
  | _ => Raise (TypeError "argument is not iterable")
  end.

(** [mapM]: the results of [f] on the items of a list, in order, or the
    first exception *)
Fixpoint each {A B} (f : A -> result B) (l : list A) : result (list B) :=
  match l with
  | [] => Ok []
  | a :: rest => let* b := f a in let* bs := each f rest in Ok (b :: bs)
  end.

Section Render.
(** Modelled from the spec: the inline parser, "a callable (text, env) ->
    children_tokens", and its attribute [renderer], "an optional renderer
    callable (iterator_of_tokens) -> output", taken here to read the whole
    iterator. *)
Variable inline : string -> Env -> pyval.
Variable renderer : option (list pyval -> pyval).

(** the body of [_call_render] (lines 608-612), the generator [data] being
    given by what it yields *)
Definition rendered (data : result (list pyval)) : result pyval :=
  let* l := data in
  match renderer with
  | Some f => Ok (f l)
  | None => Ok (VList l)
  end.

(** One turn of the loop of [_iter_render] for a dict [d] that has no key
    [children]: the branch [elif 'text' in tok], or the token as it is. *)
Definition render_text (state : BlockState) (parent : option token) (d : token)
  : result pyval :=
  match dget "text" d with
  | None => Ok (VDict d)
  | Some (VStr text) =>
      (* text = tok.pop('text') *)
      let children := inline (strip text) (env state) in
      let d := dset "children" children (dremove "text" d) in
      match dget "type" d with
      | None => Raise (KeyError "type")
      | Some ty =>
          if is_str ty "paragraph"
             && match parent with Some (_ :: _) => true | _ => false end
          then
            let* d := postprocess_paragraph d (default [] parent) in Ok (VDict d)
          else Ok (VDict d)
      end
  | Some _ => Raise (AttributeError "strip")
  end.

(** One turn of the loop for a token that is not a dict: ['children' in tok]
    and ['text' in tok] are tests on a string or on a list, after which
    [tok['children']] and [tok.pop('text')] raise. *)
Definition render_other (tok : pyval) : result pyval :=
  let* has_children := contains "children" tok in
  if has_children then Raise (TypeError "indices must be integers")
  else
    let* has_text := contains "text" tok in
    if has_text then
      match tok with
      | VList _ => Raise (TypeError "'str' object cannot be interpreted as an integer")
      | _ => Raise (AttributeError "pop")
      end
    else Ok tok.

(** [_iter_render(tokens, state, inline, parent)] (lines 614-625): the
    tokens that the generator yields.  For a token with children the call
    [self._call_render(tok['children'], state, inline, tok)] is written as
    [rendered] of the recursive call, the lookup of [tok['children']] being
    written out, so that the recursion is on a part of [tokens]. *)
Fixpoint _iter_render (tokens : pyval) (state : BlockState) (parent : option token)
    {struct tokens} : result (list pyval) :=
  match tokens with
  | VList l =>
      (fix loop (l : list pyval) : result (list pyval) :=
         match l with
         | [] => Ok []
         | tok :: rest =>
             let* tok' :=
               match tok with
               | VDict d =>
                   match (fix children_of (fields : list (string * pyval))
                            : option (result pyval) :=
                            match fields with
                            | [] => None
                            | (k, v) :: fields' =>
                                if String.eqb "children" k
                                then Some (rendered (_iter_render v state (Some d)))
                                else children_of fields'
                            end) d with
                   | Some children =>
                       let* children := children in
                       Ok (VDict (dset "children" children d))
                   | None => render_text state parent d
                   end
               | _ => render_other tok
               end in
             let* rest' := loop rest in
             Ok (tok' :: rest')
         end) l
  | _ =>
      let* toks := iterate tokens in
      each render_other toks
  end.

(** [_call_render(tokens, state, inline, parent=None)] (lines 608-612) *)
Definition _call_render (tokens : pyval) (state : BlockState) (parent : option token)
  : result pyval :=
  rendered (_iter_render tokens state parent).

(** one turn of the loop of [_iter_render], as the source has it *)
Definition render_token (state : BlockState) (parent : option token) (tok : pyval)
  : result pyval :=
  match tok with
  | VDict d =>
      match dget "children" d with
      | Some v =>
          let* children := _call_render v state (Some d) in
          Ok (VDict (dset "children" children d))
      | None => render_text state parent d
      end
  | _ => render_other tok
  end.

(** [render(state, inline)] (lines 598-599) *)
Definition render (state : BlockState) : result pyval :=
  _call_render (VTokens (tokens state)) state None.
End Render.

(** ** Scanning rules one at a time *)

Section Scan.
(** [state.get_line()], a method of [BlockState] that the specification
    does not describe: the line read and the state after the call *)
Variable get_line : BlockState -> string * BlockState.
(** the functions given to [register_rule], by the name of their rule: the
    wrapper [lambda state: func(self, state)] calls them with the parser and
    the state *)
Variable registered : string -> BlockParser -> BlockState -> handled.

(** [parse_paragraph(state)] (lines 557-561) *)
Definition parse_paragraph (state : BlockState) : pyret * BlockState :=
  let (end_pos, state) := append_paragraph state in
  if negb (truthy (of_pos end_pos)) then
    let (line, state) := get_line state in
    (RTrue, add_token [("type", VStr "paragraph"); ("text", VStr line)] (Some 1) state)
  else (RTrue, state).

(** [_scan_rules(state, rules)] (lines 601-606): every method is called
    with the state alone, which a bound method [parse_<name>], of
    parameters [m] and [state], does not accept *)
Fixpoint _scan_rules (self : BlockParser) (state : BlockState) (rules : list string)
  : result (BlockState * BlockParser) :=
  match rules with
  | [] => Ok (snd (parse_paragraph state), self)
  | name :: rest =>
      match __methods self !! name with
      | None => Raise (KeyError name)
      | Some (MBound _) =>
          Raise (TypeError "missing 1 required positional argument: 'state'")
      | Some MLambda =>
          let* (r, state, self) := registered name self state in
          if truthy r then Ok (state, self) else _scan_rules self state rest
      end
  end.
End Scan.

(** ** The groups that a match closes *)

(** [st'] has the groups of [st] and, before them, groups of the indices
    from [base + 1] to [base + n] *)
Definition caps_extend (base n : nat) (st st' : mstate) : Prop :=
  exists new, ms_caps st' = new ++ ms_caps st
              /\ Forall (fun e => base < fst e <= base + n) new.

(** ** The tokens that a parse makes *)

(** the kinds of token that the handlers reached from [parse] make, other
    than [block_quote], each with its keys in their order *)
Definition leaf_shapes : list (string * list string) :=
  [ ("blank_line", ["type"]);
    ("thematic_break", ["type"]);
    ("block_code", ["type"; "raw"]);
    ("block_code", ["type"; "raw"; "fenced"]);
    ("block_code", ["type"; "raw"; "fenced"; "attrs"]);
    ("heading", ["type"; "text"; "attrs"]);
    ("paragraph", ["type"; "text"]);
    ("block_html", ["type"; "raw"]) ].

Inductive block_token : token -> Prop :=
| block_leaf (tok : token) (ty : string) :
    dget "type" tok = Some (VStr ty) ->
    In (ty, map fst tok) leaf_shapes ->
    block_token tok
| block_quote_token (kids : list token) :
    Forall block_token kids ->
    block_token [("type", VStr "block_quote"); ("children", VTokens kids)].

(** what a handler leaves of a state: the source and its length, the depth,
    and tokens of the kinds above if the tokens were so *)
Definition state_frame (st st' : BlockState) : Prop :=
  src st' = src st /\ cursor_max st' = cursor_max st /\ depth st' = depth st
  /\ (Forall block_token (tokens st) -> Forall block_token (tokens st')).

(** what a handler leaves of the parser: everything but the cache of
    matchers, which keeps its entries *)
Definition parser_frame (p p' : BlockParser) : Prop :=
  specification p' = specification p /\ rules p' = rules p
  /\ block_quote_rules p' = block_quote_rules p /\ list_rules p' = list_rules p
  /\ max_nested_level p' = max_nested_level p /\ __methods p' = __methods p
  /\ forall k sc, __sc p !! k = Some sc -> __sc p' !! k = Some sc.

(** a state and the parser, and the loop of a block quote *)
Definition pair_frame (a b : BlockState * BlockParser) : Prop :=
  state_frame (fst a) (fst b) /\ parser_frame (snd a) (snd b).

Definition quote_frame (a b : quote_loop) : Prop :=
  state_frame (q_state a) (q_state b) /\ parser_frame (q_self a) (q_self b).

(** the three functions of the driver keep these *)
Definition family_frame (X : externals) (fuel : nat) : Prop :=
  (forall self m st r st' self',
      parse_method X fuel self m st = Ok (r, st', self') ->
      state_frame st st' /\ parser_frame self self')
  /\ (forall self m st r st' self',
        parse_block_quote X fuel self m st = Ok (r, st', self') ->
        state_frame st st' /\ parser_frame self self')
  /\ (forall self st rules st' self',
        parse X fuel self st rules = Ok (st', self') ->
        state_frame st st' /\ parser_frame self self').


(** ** Blank lines *)

(** a character of the class [[ \t\v\f]] *)
Definition is_blank_char (a : ascii) : bool :=
  in_class false [COne SP; COne TAB; COne VT; COne FF] a.

(** the length of the blank line that a text starts with, its newline
    included *)
Definition blank_line_len (rest : string) : option nat :=
  let w := span is_blank_char rest in
  match sdrop w rest with
  | String a _ => if Ascii.eqb a NL then Some (w + 1) else None
  | EmptyString => None
  end.

(** one blank line taken from a subject at the start of a line, as the
    group of [BLANK_LINE] of index [i] takes it *)
Definition blank_line_step (i : nat) (s : mstate) : option mstate :=
  if at_bol true s then
    match blank_line_len (ms_rest s) with
    | Some l => Some (close_group i (ms_pos s) (skip l s))
    | None => None
    end
  else None.

(** * Properties *)

(** ** Tokens and states *)

Lemma set_last_length (l : list token) (t t' : token) :
  last l = Some t -> length (set_last t' l) = length l.
Proof.
  intros H. apply last_Some in H as [l' ->].
  unfold set_last. rewrite removelast_last, !length_app. reflexivity.
Qed.

Lemma set_last_app (l : list token) (t t' : token) :
  set_last t' (l ++ [t]) = l ++ [t'].
Proof. unfold set_last. now rewrite removelast_last. Qed.

Lemma bind_Ok {A B} (c : result A) (k : A -> result B) (b : B) :
  bind c k = Ok b -> exists a, c = Ok a /\ k a = Ok b.
Proof. destruct c; simpl; intros H; try discriminate. eauto. Qed.

(** [append_paragraph] either finds no open paragraph and leaves the state
    as it is, or extends the last token, a paragraph, and returns the end of
    the line. *)
Lemma append_paragraph_cases (s : BlockState) :
  append_paragraph s = (None, s)
  \/ exists tok, last_token s = Some tok /\ is_paragraph tok = true
       /\ append_paragraph s =
            (Some (find_line_end s),
             set_cursor (find_line_end s)
               (set_tokens (set_last (extend_text (get_text s (find_line_end s)) tok)
                                     (tokens s)) s)).
Proof.
  unfold append_paragraph. destruct (last_token s) as [tok|] eqn:E; [|now left].
  destruct (is_paragraph tok) eqn:P; [|now left].
  right. exists tok. auto.
Qed.

Lemma append_paragraph_env (s s' : BlockState) (r : option nat) :
  append_paragraph s = (r, s') -> env s' = env s.
Proof.
  destruct (append_paragraph_cases s) as [H | (tok & _ & _ & H)];
    rewrite H; intros [= <- <-]; reflexivity.
Qed.

Lemma append_paragraph_length (s s' : BlockState) (r : option nat) :
  append_paragraph s = (r, s') -> length (tokens s') = length (tokens s).
Proof.
  destruct (append_paragraph_cases s) as [H | (tok & L & _ & H)];
    rewrite H; intros [= <- <-]; [reflexivity|].
  simpl. now apply set_last_length with (t := tok).
Qed.

(** ** Link reference definitions (C5) *)

Section RefLink.
Variable X : externals.

(** [parse_ref_link] changes the state only in two ways: through
    [append_paragraph], or by adding to [ref_links] a key that it does not
    hold. *)
Lemma parse_ref_link_effect (m : Match) (st st' : BlockState) (r : pyret) :
  parse_ref_link X m st = Ok (r, st') ->
  (exists p, append_paragraph st = (p, st'))
  \/ (exists p st1 label attrs,
        append_paragraph st = (p, st1) /\ group m "link_1" = Ok label
        /\ ref_links (env st1) !! unikey X label = None
        /\ st' = set_env (add_ref_link (unikey X label) attrs (env st1)) st1).
Proof.
  unfold parse_ref_link.
  destruct (append_paragraph st) as [p st1] eqn:AP.
  destruct (truthy (of_pos p)); [intros [= <- <-]; eauto|].
  intros H. apply bind_Ok in H as (label & G & H).
  destruct (String.eqb (unikey X label) ""); [injection H as <- <-; eauto|].
  destruct (parse_link_href X (src st1) (m_end m)) as [[href href_pos]|];
    [|injection H as <- <-; eauto].
  repeat match type of H with
         | context [let (_, _) := ?e in _] => destruct e
         end.
  destruct (negb _); [injection H as <- <-; eauto|].
  destruct (ref_links (env st1) !! unikey X label) eqn:L;
    [injection H as <- <-; eauto|].
  match type of H with context [match ?o with Some _ => _ | None => _ end] =>
    destruct o; [|discriminate] end.
  injection H as <- <-. right. eauto 10.
Qed.
End RefLink.

(** C5: [parse_ref_link] never overwrites an entry of [env.ref_links]: every
    entry present before the call is the same after it; when the normalized
    label of the definition is already a key, the table is left as it was
    (the first definition wins); and the handler emits no token, the number
    of tokens of the state being unchanged. *)
Theorem parse_ref_link_first_wins (X : externals) (m : Match)
    (st st' : BlockState) (r : pyret) :
  parse_ref_link X m st = Ok (r, st') ->
  (forall k v, ref_links (env st) !! k = Some v -> ref_links (env st') !! k = Some v)
  /\ (forall label, group m "link_1" = Ok label ->
        is_Some (ref_links (env st) !! unikey X label) -> env st' = env st)
  /\ length (tokens st') = length (tokens st).
Proof.
  intros H.
  destruct (parse_ref_link_effect X m st st' r H)
    as [(p & AP) | (p & st1 & label & attrs & AP & G & Fresh & ->)].
  - pose proof (append_paragraph_env _ _ _ AP) as E.
    pose proof (append_paragraph_length _ _ _ AP) as L.
    rewrite E. repeat split; auto.
  - pose proof (append_paragraph_env _ _ _ AP) as E.
    pose proof (append_paragraph_length _ _ _ AP) as L.
    rewrite E in Fresh. simpl. rewrite E. repeat split.
    + intros k v Hk. destruct (decide (k = unikey X label)) as [->|Hne].
      * rewrite Fresh in Hk. discriminate.
      * now rewrite lookup_insert_ne by auto.
    + intros label' G' [v Hv]. rewrite G in G'. injection G' as <-.
      rewrite Fresh in Hv. discriminate.
    + exact L.
Qed.

Lemma parse_ref_link_first_wins_witness :
  parse_ref_link sample_externals
    (match_at (rule_pattern sample_externals "ref_link") (src redefinition) 0)
    redefinition = Ok (RPos 10, redefinition)
  /\ env redefinition = env redefinition
  /\ length (tokens redefinition) = length (tokens redefinition).
Proof.
  assert (E : parse_ref_link sample_externals
    (match_at (rule_pattern sample_externals "ref_link") (src redefinition) 0)
    redefinition = Ok (RPos 10, redefinition)) by (vm_compute; reflexivity).
  split; [exact E|].
  destruct (parse_ref_link_first_wins _ _ _ _ _ E) as (_ & Same & Len).
  split; [|exact Len].
  apply (Same "Foo"); [vm_compute; reflexivity|].
  exists (LinkAttrs "/u" None). vm_compute. reflexivity.
Defined.

(** ** The tokens of code blocks (C10) *)

(** C10: every token that the fenced-code handler emits is a [block_code]
    with a [raw] field and a top-level field [fenced] set to [True],
    followed by [attrs = {'info': ...}] when there is an info string; the
    [block_code] token of the indented-code handler has the fields [type]
    and [raw] only; and [fenced] is not a field of [block_code] in the
    token schema of the specification. *)
Theorem fenced_code_token_fenced (X : externals) (m : Match)
    (st st' : BlockState) (r : pyret) :
  parse_fenced_code X m st = Ok (r, st') ->
  ((r = RNone /\ st' = st)
   \/ exists end_pos raw tok,
        r = RPos end_pos /\ st' = append_token tok st
        /\ dget "type" tok = Some (VStr "block_code")
        /\ dget "raw" tok = Some (VStr raw)
        /\ dget "fenced" tok = Some (VBool true)
        /\ (map fst tok = ["type"; "raw"; "fenced"]
            \/ exists info, map fst tok = ["type"; "raw"; "fenced"; "attrs"]
                 /\ dget "attrs" tok = Some (VDict [("info", VStr info)])))
  /\ (forall m2 st2 st2' r2,
        parse_indent_code X m2 st2 = Ok (r2, st2') ->
        (exists p, append_paragraph st2 = (p, st2'))
        \/ exists p st1 raw,
             append_paragraph st2 = (p, st1)
             /\ st2' = append_token [("type", VStr "block_code"); ("raw", VStr raw)] st1
             /\ dget "fenced" [("type", VStr "block_code"); ("raw", VStr raw)] = None)
  /\ (sassoc "block_code" token_schema = Some ["type"; "raw"; "attrs"]
      /\ ~ In "fenced" ["type"; "raw"; "attrs"]).
Proof.
  intros H. split; [|split].
  - unfold parse_fenced_code in H.
    apply bind_Ok in H as (spaces & _ & H).
    apply bind_Ok in H as (marker & _ & H).
    apply bind_Ok in H as (info & _ & H).
    destruct marker as [|c marker]; [discriminate|].
    destruct (negb (String.eqb info "") && Ascii.eqb c "`" && has_char c info);
      [injection H as <- <-; now left|].
    right.
    match type of H with context [let (_, _) := ?e in _] => destruct e as [code end_pos] end.
    injection H as <- <-.
    destruct (negb (String.eqb info "")); simpl; eauto 12.
  - intros m2 st2 st2' r2 H2. unfold parse_indent_code in H2.
    destruct (append_paragraph st2) as [p st1] eqn:AP.
    destruct (truthy (of_pos p)); [injection H2 as <- <-; eauto|].
    apply bind_Ok in H2 as (code & _ & H2). injection H2 as <- <-.
    right. eauto 10.
  - split; [reflexivity|]. simpl. intros [E|[E|[E|[]]]]; discriminate.
Qed.

Lemma fenced_code_token_fenced_witness :
  parse_fenced_code sample_externals
    (match_at (rule_pattern sample_externals "fenced_code") (src fenced_document) 0)
    fenced_document
  = Ok (RPos 12,
        append_token [("type", VStr "block_code"); ("raw", VStr (lit "\nx\n"));
                      ("fenced", VBool true);
                      ("attrs", VDict [("info", VStr "py")])] fenced_document)
  /\ (sassoc "block_code" token_schema = Some ["type"; "raw"; "attrs"]
      /\ ~ In "fenced" ["type"; "raw"; "attrs"]).
Proof.
  assert (E : parse_fenced_code sample_externals
    (match_at (rule_pattern sample_externals "fenced_code") (src fenced_document) 0)
    fenced_document
  = Ok (RPos 12,
        append_token [("type", VStr "block_code"); ("raw", VStr (lit "\nx\n"));
                      ("fenced", VBool true);
                      ("attrs", VDict [("info", VStr "py")])] fenced_document))
    by (vm_compute; reflexivity).
  split; [exact E|].
  exact (proj2 (proj2 (fenced_code_token_fenced _ _ _ _ _ E))).
Defined.

(** ** Rule lists *)

Lemma index_of_split (b : string) (l : list string) (i : nat) :
  index_of b l = Some i ->
  exists pre post, l = pre ++ b :: post /\ ~ In b pre /\ length pre = i.
Proof.
  revert i. induction l as [|y l IH]; intros i H; simpl in H; [discriminate|].
  destruct (String.eqb b y) eqn:E.
  - apply String.eqb_eq in E as ->. injection H as <-.
    exists [], l. simpl. auto.
  - destruct (index_of b l) as [j|]; [|discriminate]. injection H as <-.
    destruct (IH j eq_refl) as (pre & post & -> & Hn & Hl).
    exists (y :: pre), post. simpl. repeat split; auto.
    intros [->|Hin]; [|auto]. now rewrite String.eqb_refl in E.
Qed.

Lemma insert_at_split (pre post : list string) (x : string) :
  insert_at (length pre) x (pre ++ post) = pre ++ x :: post.
Proof.
  unfold insert_at.
  rewrite firstn_app, firstn_all, Nat.sub_diag, skipn_app, skipn_all, Nat.sub_diag.
  simpl. now rewrite app_nil_r.
Qed.




(** ** Setext headings (C2) *)

Lemma is_paragraph_type (tok : token) :
  is_paragraph tok = true ->
  tok <> [] /\ exists ty, dget "type" tok = Some ty /\ is_str ty "paragraph" = true.
Proof.
  unfold is_paragraph. destruct tok as [|kv tok]; [discriminate|].
  destruct (dget "type" (kv :: tok)) as [ty|]; [|discriminate].
  intros H. split; [discriminate|eauto].
Qed.

(** With a paragraph as the last token, [parse_setex_heading] rewrites that
    token, in its place, into a heading of level 1 for [=] and of level 2
    for [-], and returns the offset after the underline. *)
Lemma parse_setex_heading_rewrites (m : Match) (st : BlockState)
    (before : list token) (tok : token) (c : string) :
  tokens st = before ++ [tok] ->
  is_paragraph tok = true ->
  group_opt m "setext_1" = Ok (Some c) ->
  parse_setex_heading m st
  = Ok (RPos (m_end m + 1),
        set_tokens
          (before ++ [dset "attrs" (VDict [("level", VInt (if String.eqb c "=" then 1 else 2))])
                        (dset "type" (VStr "heading") tok)]) st).
Proof.
  intros Ht Hp Hg. unfold parse_setex_heading, last_token.
  rewrite Ht, last_snoc.
  destruct (is_paragraph_type tok Hp) as (Hne & ty & Hty & Hs).
  destruct tok as [|kv tok]; [congruence|].
  rewrite Hty, Hs, Hg. simpl bind. now rewrite set_last_app.
Qed.

(** With no last token, or a last token that is not a paragraph,
    [parse_setex_heading] returns [None] and leaves the state as it is. *)
Lemma parse_setex_heading_declines (m : Match) (st : BlockState) :
  (forall tok, last_token st = Some tok ->
     exists ty, dget "type" tok = Some ty /\ is_str ty "paragraph" = false) ->
  parse_setex_heading m st = Ok (RNone, st).
Proof.
  intros H. unfold parse_setex_heading.
  destruct (last_token st) as [tok|]; [|reflexivity].
  destruct (H tok eq_refl) as (ty & Hty & Hs).
  destruct tok as [|kv tok]; [reflexivity|]. now rewrite Hty, Hs.
Qed.

(** ** The driver (C6) *)

(** C6 fails on the code: in an iteration of the driver in which the
    handler of the matched rule returns no new cursor ([None] or [0]), the
    [else] branch reads the name [pos], which is not bound, and the driver
    raises [NameError] instead of advancing by one line. *)
Theorem parse_iteration_no_progress
    (pm : BlockParser -> option Match -> BlockState -> handled)
    (sc : pattern) (state st2 : BlockState) (self self2 : BlockParser)
    (m : Match) (r : pyret) :
  cursor state < cursor_max state ->
  re_search sc (src state) (cursor state) = Some m ->
  pm self (Some m)
     (if cursor state <? m_start m
      then set_cursor (m_start m) (add_paragraph (get_text state (m_start m)) state)
      else state) = Ok (r, st2, self2) ->
  truthy r = false ->
  parse_iteration pm sc (state, self) = Raise (NameError "pos").
Proof.
  intros Hc Hs Hp Ht. unfold parse_iteration.
  apply Nat.ltb_lt in Hc. rewrite Hc, Hs, Hp. simpl. now rewrite Ht.
Qed.

Lemma parse_iteration_no_progress_witness :
  parse_iteration (parse_method sample_externals 1) (default_matcher sample_externals)
                  (document (lit "```a`b\n"), default_parser sample_externals)
  = Raise (NameError "pos").
Proof.
  eapply parse_iteration_no_progress.
  - apply Nat.ltb_lt. vm_compute. reflexivity.
  - vm_compute. reflexivity.
  - vm_compute. reflexivity.
  - reflexivity.
Defined.

(** C2 fails on the code: for the document [===], a setext underline with
    no paragraph before it, the handler returns [None] and the driver then
    raises [NameError] (the unbound [pos]) instead of making the line a
    paragraph. *)
Theorem setext_underline_alone_raises (X : externals) (fuel : nat) :
  parse X (2 + fuel) (default_parser X) (document (lit "===\n")) None
  = Raise (NameError "pos").
Proof. vm_compute. reflexivity. Qed.

(** ** Block quotes (C1) *)

Section BlockQuote.
Variable X : externals.

(** The lazy loop of [parse_block_quote] goes on only by taking a quoted
    line; a line without the marker never reaches the buffer. *)
Lemma quote_loop_takes_quoted_lines_only
    (pm : BlockParser -> option Match -> BlockState -> handled)
    (break_sc : pattern) (q q' : quote_loop) :
  quote_loop_body X pm break_sc q = Ok (true, q') ->
  exists m, state_match (q_state q) STRICT_BLOCK_QUOTE = Some m
            /\ q_text q' = q_text q +:+ dequote X m
            /\ q_state q' = set_cursor (m_end m) (q_state q).
Proof.
  unfold quote_loop_body.
  destruct (cursor (q_state q) <? cursor_max (q_state q)); [|discriminate].
  destruct (state_match (q_state q) STRICT_BLOCK_QUOTE) as [m|].
  - intros [= <-]. exists m. auto.
  - destruct (q_prev_blank_line q); [discriminate|].
    destruct (pm _ _ _) as [[[end_pos state] self]| |]; simpl; try discriminate.
    destruct (truthy end_pos); discriminate.
Qed.
End BlockQuote.

(** A line that follows the first line of a quote, and that is neither a
    quoted line nor the start of a break rule, makes [parse_block_quote]
    raise: the failed match [None] is passed to [parse_method]. *)
Lemma parse_block_quote_lazy_line_raises (X : externals) (fuel : nat)
    (self self1 self2 : BlockParser) (m : Match) (st : BlockState)
    (quote_1 : string) (sc break_sc : pattern) :
  group m "quote_1" = Ok quote_1 ->
  compile_sc self (Some ["blank_line"; "indent_code"; "fenced_code"]) = Ok (sc, self1) ->
  re_match sc (re_sub_del _BLOCK_QUOTE_TRIM
                 (expand_leading_tab X (quote_1 +:+ String NL "") 3)) 0 = None ->
  compile_sc self1 (Some ["blank_line"; "thematic_break"; "fenced_code"; "block_html"])
  = Ok (break_sc, self2) ->
  m_end m + 1 < cursor_max st ->
  state_match (set_cursor (m_end m + 1) st) STRICT_BLOCK_QUOTE = None ->
  state_match (set_cursor (m_end m + 1) st) break_sc = None ->
  parse_block_quote X (S (S (S fuel))) self m st = Raise (AttributeError "lastgroup").
Proof.
  intros G C1 R C2 Hc S1 S2. cbn [parse_block_quote]. rewrite G. simpl bind.
  rewrite C1. simpl bind. rewrite R.
  rewrite bool_decide_eq_false_2 by (intros [? [=]]).
  rewrite C2. simpl bind. cbn [while]. unfold quote_loop_body at 1.
  cbn [q_state q_prev_blank_line q_self].
  apply Nat.ltb_lt in Hc. cbn [cursor cursor_max set_cursor]. rewrite Hc.
  rewrite S1, S2. reflexivity.
Qed.

(** C1 fails on the code: for [> foo] followed by the line [bar], no break
    rule matches [bar], and [parse_block_quote] passes the [None] of that
    failed match to [parse_method], which raises [AttributeError] on
    [m.lastgroup]. *)
Theorem lazy_continuation_raises (fuel : nat) :
  parse_document (4 + fuel) (lit "> foo\nbar\n") = Raise (AttributeError "lastgroup").
Proof. vm_compute. reflexivity. Qed.

(** ** Lists (C3, C7) *)

Section Lists.
Variable X : externals.

(** [_parse_list_item] never returns: it raises at [self.THEMATIC_BREAK]
    when no earlier step has raised. *)
Lemma _parse_list_item_never_returns (fuel : nat) (self : BlockParser)
    (st : BlockState) (m : Match) (children : list token) (rules : list string) r :
  _parse_list_item X fuel self st m children rules <> Ok r.
Proof.
  unfold _parse_list_item.
  destruct (group_at m 1); simpl; try discriminate.
  destruct (group_at m 2) as [marker| |]; simpl; try discriminate.
  destruct (last_char marker); simpl; try discriminate.
  destruct (group_at m 3) as [g3| |]; simpl; try discriminate.
  destruct (_compile_continue_width X g3 _). discriminate.
Qed.

Lemma list_loop_never_returns (fuel budget : nat) (self : BlockParser)
    (st : BlockState) (m : Match) (rules : list string) r :
  while fuel (fun '(m, children, state, self) =>
      match m with
      | Some m =>
          let* r := _parse_list_item X budget self state m children rules in
          Ok (true, r)
      | None => Ok (false, (m, children, state, self))
      end) (Some m, [], st, self) <> Ok r.
Proof.
  destruct fuel; simpl; [discriminate|].
  destruct (_parse_list_item X budget self st m [] rules) eqn:E; simpl; try discriminate.
  now apply _parse_list_item_never_returns in E.
Qed.

Lemma append_paragraph_open (st st1 : BlockState) (p : nat) :
  append_paragraph st = (Some p, st1) ->
  exists tok, last_token st = Some tok /\ is_paragraph tok = true.
Proof.
  destruct (append_paragraph_cases st) as [H | (tok & L & P & H)]; rewrite H.
  - discriminate.
  - eauto.
Qed.

Lemma truthy_of_pos (p : option nat) :
  truthy (of_pos p) = true -> exists n, p = Some n /\ n <> 0.
Proof. destruct p as [[|n]|]; simpl; try discriminate. eauto. Qed.

(** [parse_list] returns only by joining the line to an open paragraph;
    it never emits a list token and never returns [True]. *)
Lemma parse_list_emits_no_list (fuel : nat) (self self' : BlockParser) (m : Match)
    (st st' : BlockState) (r : pyret) :
  parse_list X fuel self m st = Ok (r, st', self') ->
  (exists tok, last_token st = Some tok /\ is_paragraph tok = true)
  /\ (exists p, r = RPos p)
  /\ length (tokens st') = length (tokens st)
  /\ self' = self.
Proof.
  unfold parse_list. intros H.
  apply bind_Ok in H as (text & _ & H).
  destruct (if String.eqb (strip text) "" then append_paragraph st else (None, st))
    as [p1 st1] eqn:A1.
  assert (L1 : length (tokens st1) = length (tokens st)).
  { destruct (String.eqb (strip text) "");
      [now apply append_paragraph_length in A1 | injection A1 as <- <-; reflexivity]. }
  assert (O1 : forall n, p1 = Some n ->
                 exists tok, last_token st = Some tok /\ is_paragraph tok = true).
  { intros n ->. destruct (String.eqb (strip text) ""); [|discriminate].
    now apply append_paragraph_open in A1. }
  destruct (truthy (of_pos p1)) eqn:T1.
  - injection H as <- <- <-. apply truthy_of_pos in T1 as (n & -> & _).
    repeat split; eauto.
  - apply bind_Ok in H as (marker & _ & H).
    apply bind_Ok in H as ([[p2 attrs] st2] & Hord & H).
    assert (Hst2 : p2 = None
                   \/ exists n, p2 = Some n /\ append_paragraph st1 = (Some n, st2)).
    { destruct (1 <? String.length marker); [|injection Hord as <- _ <-; auto].
      apply bind_Ok in Hord as (start & _ & Hord).
      destruct (negb (start =? 1)); [|injection Hord as <- _ <-; auto].
      destruct (append_paragraph st1) as [p st3] eqn:A2.
      destruct (truthy (of_pos p)) eqn:T2; [|injection Hord as <- _ <-; auto].
      injection Hord as <- _ <-. apply truthy_of_pos in T2 as (n & -> & _). eauto. }
    destruct (truthy (of_pos p2)) eqn:T2.
    + injection H as <- <- <-.
      apply truthy_of_pos in T2 as (n & -> & _).
      destruct Hst2 as [[=] | (n' & [= <-] & A2)].
      pose proof (append_paragraph_length _ _ _ A2) as L2.
      apply append_paragraph_open in A2 as (tok & Hl & Hp).
      repeat split; eauto; [|congruence].
      destruct p1 as [n1|]; [now apply (O1 n1)|].
      destruct (String.eqb (strip text) "").
      * destruct (append_paragraph_cases st) as [E | (tok' & L & P & E)]; rewrite E in A1.
        -- injection A1 as <-. eauto.
        -- discriminate.
      * injection A1 as <-. eauto.
    + apply bind_Ok in H as (rules & _ & H).
      apply bind_Ok in H as (res & Hloop & _).
      now apply list_loop_never_returns in Hloop.
Qed.

(** An empty list item met after an open paragraph is joined to the
    paragraph, whatever the marker. *)
Lemma parse_list_empty_item_joins_paragraph (fuel : nat) (self : BlockParser)
    (m : Match) (st : BlockState) (text : string) (tok : token) :
  group m "list_3" = Ok text ->
  strip text = "" ->
  last_token st = Some tok -> is_paragraph tok = true ->
  find_line_end st <> 0 ->
  parse_list X fuel self m st
  = Ok (RPos (find_line_end st), snd (append_paragraph st), self).
Proof.
  intros G E L P F. unfold parse_list. rewrite G. simpl bind. rewrite E. simpl String.eqb.
  unfold append_paragraph. rewrite L, P.
  destruct (find_line_end st) as [|n] eqn:Fn; [congruence|]. reflexivity.
Qed.

(** An ordered marker with a number other than 1, met after an open
    paragraph, does not interrupt it: the line is joined to the
    paragraph. *)
Lemma parse_list_other_start_joins_paragraph (fuel : nat) (self : BlockParser)
    (m : Match) (st : BlockState) (text marker : string) (start : nat) (tok : token) :
  group m "list_3" = Ok text -> strip text <> "" ->
  group m "list_2" = Ok marker -> 1 < String.length marker ->
  int_of (but_last marker) = Ok start -> start <> 1 ->
  last_token st = Some tok -> is_paragraph tok = true ->
  find_line_end st <> 0 ->
  parse_list X fuel self m st
  = Ok (RPos (find_line_end st), snd (append_paragraph st), self).
Proof.
  intros G E G2 Hl I Hs L P F. unfold parse_list. rewrite G. simpl bind.
  apply String.eqb_neq in E. rewrite E. simpl truthy. cbv iota.
  rewrite G2. simpl bind. apply Nat.ltb_lt in Hl. rewrite Hl, I. simpl bind.
  apply Nat.eqb_neq in Hs. rewrite Hs. simpl negb. cbv iota.
  unfold append_paragraph. rewrite L, P.
  destruct (find_line_end st) as [|n] eqn:Fn; [congruence|]. reflexivity.
Qed.

(** At or beyond [max_nested_level], the rules of the items are
    [list_rules] without its first ['list'], when there is one; this is
    the list [rules] of [parse_list], which then goes on to
    [_parse_list_item]. *)
Lemma remove_first_spec (x : string) (l l' : list string) :
  remove_first x l = Some l' ->
  exists pre post, l = pre ++ x :: post /\ ~ In x pre /\ l' = pre ++ post.
Proof.
  revert l'. induction l as [|y l IH]; intros l' H; simpl in H; [discriminate|].
  destruct (String.eqb x y) eqn:E.
  - apply String.eqb_eq in E as ->. injection H as <-. exists [], l. auto.
  - destruct (remove_first x l) as [l0|]; [|discriminate]. injection H as <-.
    destruct (IH l0 eq_refl) as (pre & post & -> & Hn & ->).
    exists (y :: pre), post. repeat split; auto.
    intros [->|Hin]; [|auto]. now rewrite String.eqb_refl in E.
Qed.

Lemma remove_first_absent (x : string) (l : list string) :
  remove_first x l = None <-> ~ In x l.
Proof.
  induction l as [|y l IH]; simpl; [tauto|].
  destruct (String.eqb x y) eqn:E.
  - apply String.eqb_eq in E as ->. split; [discriminate|]. intros H. exfalso. auto.
  - apply String.eqb_neq in E. destruct (remove_first x l); simpl.
    + split; [discriminate|]. intros H. exfalso. apply H. right.
      destruct (in_dec String.string_dec x l) as [Hin|Hn]; [exact Hin|].
      now apply IH in Hn.
    + split; [|reflexivity]. intros _ [->|Hin]; [congruence|]. now apply IH.
Qed.
End Lists.

(** [_parse_list_item] raises at [self.THEMATIC_BREAK], whatever the
    implementation of the imported functions, once the three groups of the
    match are read. *)
Lemma _parse_list_item_raises (X : externals) (fuel : nat) (self : BlockParser)
    (st : BlockState) (m : Match) (children : list token) (rules : list string)
    (g1 g2 g3 : string) (c : ascii) :
  group_at m 1 = Ok g1 -> group_at m 2 = Ok g2 -> last_char g2 = Ok c ->
  group_at m 3 = Ok g3 ->
  _parse_list_item X fuel self st m children rules
  = Raise (AttributeError "THEMATIC_BREAK").
Proof.
  intros H1 H2 Hc H3. unfold _parse_list_item. rewrite H1. simpl bind.
  rewrite H2. simpl bind. rewrite Hc. simpl bind. rewrite H3. simpl bind.
  now destruct (_compile_continue_width X g3 _).
Qed.

(** A line that starts a list (an item with some content, whose marker is a
    bullet or an ordered marker of number 1) makes [parse_list] raise at the
    first item. *)
Lemma parse_list_items_raise (X : externals) (fuel : nat) (self : BlockParser)
    (m : Match) (st : BlockState) (text marker : string) (rules : list string)
    (g1 g2 g3 : string) (c : ascii) :
  group m "list_3" = Ok text -> strip text <> "" ->
  group m "list_2" = Ok marker ->
  (1 <? String.length marker) = false \/ int_of (but_last marker) = Ok 1 ->
  (if max_nested_level self <=? depth st
   then remove_first "list" (list_rules self) else Some (list_rules self)) = Some rules ->
  group_at m 1 = Ok g1 -> group_at m 2 = Ok g2 -> last_char g2 = Ok c ->
  group_at m 3 = Ok g3 ->
  parse_list X (S fuel) self m st = Raise (AttributeError "THEMATIC_BREAK").
Proof.
  intros G E G2 Hm Hr H1 H2 Hc H3. unfold parse_list. rewrite G. simpl bind.
  apply String.eqb_neq in E. rewrite E. simpl truthy. cbv iota.
  rewrite G2. simpl bind.
  assert (Hitem : forall children,
             _parse_list_item X (S fuel) self st m children rules
             = Raise (AttributeError "THEMATIC_BREAK"))
    by (intros children; exact (_parse_list_item_raises X _ self st m children rules
                                  g1 g2 g3 c H1 H2 Hc H3)).
  destruct (1 <? String.length marker) eqn:O.
  - destruct Hm as [[=]|Hm]. rewrite Hm. simpl.
    destruct (max_nested_level self <=? depth st);
      [rewrite Hr | injection Hr as ->]; simpl; now rewrite Hitem.
  - simpl.
    destruct (max_nested_level self <=? depth st);
      [rewrite Hr | injection Hr as ->]; simpl; now rewrite Hitem.
Qed.

(** An ordered marker with the number 1 and some content does not join an
    open paragraph: [parse_list] goes on to the items, and never returns. *)
Lemma parse_list_start_one_never_returns (X : externals) (fuel : nat)
    (self : BlockParser) (m : Match) (st : BlockState) (text marker : string) r :
  group m "list_3" = Ok text -> strip text <> "" ->
  group m "list_2" = Ok marker -> 1 < String.length marker ->
  int_of (but_last marker) = Ok 1 ->
  parse_list X fuel self m st <> Ok r.
Proof.
  intros G E G2 Hl I. unfold parse_list. rewrite G. simpl bind.
  apply String.eqb_neq in E. rewrite E. simpl truthy. cbv iota.
  rewrite G2. simpl bind. apply Nat.ltb_lt in Hl. rewrite Hl, I. simpl.
  intros H. apply bind_Ok in H as (rules & _ & H).
  apply bind_Ok in H as (res & Hloop & _).
  now apply list_loop_never_returns in Hloop.
Qed.

(** C3 fails on the code in its first part: after the open paragraph [foo],
    the line [2. bar] and the empty item [-] are joined to the paragraph, as
    C3 says, but the line [1. bar], which is to interrupt the
    paragraph and start a list, makes [parse_list] raise [AttributeError]
    in [_parse_list_item] ([self.THEMATIC_BREAK]). *)
Theorem ordered_one_after_paragraph_raises (X : externals) (fuel : nat) :
  let P := default_parser X in
  let one := after_paragraph (lit "foo\n") (lit "1. bar\n") in
  let two := after_paragraph (lit "foo\n") (lit "2. bar\n") in
  let empty := after_paragraph (lit "foo\n") (lit "-\n") in
  parse_list X (1 + fuel) P (list_match one) one
    = Raise (AttributeError "THEMATIC_BREAK")
  /\ parse_list X (1 + fuel) P (list_match two) two
    = Ok (RPos 11,
          set_cursor 11
            (set_tokens [[("type", VStr "paragraph"); ("text", VStr (lit "foo\n2. bar\n"))]] two),
          P)
  /\ parse_list X (1 + fuel) P (list_match empty) empty
    = Ok (RPos 6,
          set_cursor 6
            (set_tokens [[("type", VStr "paragraph"); ("text", VStr (lit "foo\n-\n"))]] empty),
          P).
Proof.
  intros P one two empty. split; [|split; vm_compute; reflexivity].
  eapply parse_list_items_raise; try (vm_compute; reflexivity).
  - vm_compute. discriminate.
  - right. vm_compute. reflexivity.
Qed.

(** C7 fails on the code: with the default configuration, in which
    [list_rules] has no rule ['list'], a list item met at the depth
    [max_nested_level] = 6 makes [rules.remove('list')] raise [ValueError];
    with a [list_rules] that has the rule, the rule is removed, and
    [_parse_list_item] then raises [AttributeError] before any child state
    is parsed. *)
Theorem nested_list_at_limit_raises (X : externals) (fuel : nat) :
  let st := nested_state 6 (lit "- a\n") in
  depth st = 6
  /\ parse_list X fuel (default_parser X) (list_match st) st
     = Raise (ValueError "list.remove(x): x not in list")
  /\ remove_first "list" (list_rules (list_parser X)) = Some RULE_NAMES
  /\ parse_list X (1 + fuel) (list_parser X) (list_match st) st
     = Raise (AttributeError "THEMATIC_BREAK").
Proof.
  intros st. repeat split; try (vm_compute; reflexivity).
  eapply parse_list_items_raise; try (vm_compute; reflexivity).
  - vm_compute. discriminate.
  - left. vm_compute. reflexivity.
Qed.

(** For the list [- a], [- b], [parse_list] produces no list token, and so
    no [tight] attribute: it raises [AttributeError] in [_parse_list_item]
    ([self.THEMATIC_BREAK]) at the first item. *)
Theorem tight_list_raises (X : externals) (fuel : nat) :
  let st := document (lit "- a\n- b\n") in
  parse_list X (1 + fuel) (default_parser X) (list_match st) st
  = Raise (AttributeError "THEMATIC_BREAK").
Proof.
  intros st. eapply parse_list_items_raise; try (vm_compute; reflexivity).
  - vm_compute. discriminate.
  - left. vm_compute. reflexivity.
Qed.

(** ** The matcher *)

Lemma sdrop_length (p : nat) (s : string) :
  String.length (sdrop p s) = String.length s - p.
Proof.
  revert s. induction p as [|p IH]; intros s; simpl; [lia|].
  destruct s; simpl; [reflexivity|]. apply IH.
Qed.

Lemma sdrop_next (p : nat) (s : string) (a : ascii) (rest : string) :
  sdrop p s = String a rest -> sdrop (S p) s = rest /\ String.get p s = Some a.
Proof.
  revert s. induction p as [|p IH]; intros s H.
  - simpl in H. subst s. auto.
  - destruct s as [|b s]; [discriminate|]. simpl in H.
    destruct (IH s H) as [H1 H2]. split; [exact H1|exact H2].
Qed.

Lemma sdrop_sdrop (a b : nat) (s : string) : sdrop a (sdrop b s) = sdrop (b + a) s.
Proof.
  revert s. induction b as [|b IH]; intros s; simpl; [reflexivity|].
  destruct s; [now destruct a|]. apply IH.
Qed.

Lemma skip_rest (j : nat) (st : mstate) : ms_rest (skip j st) = sdrop j (ms_rest st).
Proof.
  revert st. induction j as [|j IH]; intros st; simpl; [reflexivity|].
  destruct (ms_rest st) eqn:E; [now rewrite E|]. now rewrite IH.
Qed.

Lemma skip_pos (j : nat) (st : mstate) :
  j <= String.length (ms_rest st) -> ms_pos (skip j st) = ms_pos st + j.
Proof.
  revert st. induction j as [|j IH]; intros st H; simpl; [lia|].
  destruct (ms_rest st) eqn:E; simpl in H; [lia|].
  rewrite IH; simpl; lia.
Qed.

Lemma skip_caps (j : nat) (st : mstate) :
  ms_caps (skip j st) = ms_caps st /\ ms_last (skip j st) = ms_last st.
Proof.
  revert st. induction j as [|j IH]; intros st; simpl; [auto|].
  destruct (ms_rest st); [auto|]. now destruct (IH (advance a s st)).
Qed.

Lemma span_le (f : ascii -> bool) (s : string) : span f s <= String.length s.
Proof. induction s as [|a s IH]; simpl; [lia|]. destruct (f a); lia. Qed.

(** after its span of [f], a text does not begin with a character of [f] *)
Lemma span_stop (f : ascii -> bool) (s : string) (a : ascii) (rest : string) :
  sdrop (span f s) s = String a rest -> f a = false.
Proof.
  induction s as [|b s IH]; simpl; [discriminate|].
  destruct (f b) eqn:E; simpl; [exact IH|]. now intros [= <- <-].
Qed.

(** A greedy repetition of one character class, followed by a continuation
    that fails before a character of the class, takes the whole span of the
    class or fails. *)
Lemma rep_cls_greedy (neg : bool) (items : list citem) (lo : nat) (hi : option nat)
    (k : mstate -> option mstate) :
  (forall st a rest, ms_rest st = String a rest -> in_class neg items a = true ->
                     k st = None) ->
  forall fuel count st,
    String.length (ms_rest st) <= fuel ->
    match hi with Some h => count <= h | None => True end ->
    rep_loop (cls_body neg items) true lo hi k fuel count st
    = let j := span (in_class neg items) (ms_rest st) in
      if (lo <=? count + j)
         && match hi with Some h => count + j <=? h | None => true end
      then k (skip j st) else None.
Proof.
  intros Hk. induction fuel as [|fuel IH]; intros count st Hf Hh.
  - destruct (ms_rest st) eqn:E; simpl in Hf; [|lia].
    simpl. rewrite Nat.add_0_r.
    destruct hi as [h|]; [|now rewrite andb_true_r].
    apply Nat.leb_le in Hh. now rewrite Hh, andb_true_r.
  - cbn [rep_loop]. unfold orelse, cls_body at 1.
    destruct (ms_rest st) as [|a rest] eqn:E.
    + simpl span. cbv zeta. rewrite Nat.add_0_r.
      assert (Hb : (if below hi count then None else None) = @None mstate)
        by now destruct (below hi count).
      rewrite Hb.
      destruct hi as [h|]; [|now rewrite andb_true_r].
      apply Nat.leb_le in Hh. now rewrite Hh, andb_true_r.
    + simpl span. destruct (in_class neg items a) eqn:Ha.
      * cbv zeta. rewrite (Hk st a rest E Ha).
        assert (Hstop : (if lo <=? count then None else None) = @None mstate)
          by now destruct (lo <=? count).
        rewrite Hstop.
        assert (Hpos : (ms_pos (advance a rest st) <=? ms_pos st) = false)
          by (apply Nat.leb_gt; simpl; lia).
        rewrite Hpos.
        assert (Hskip : skip (S (span (in_class neg items) rest)) st
                        = skip (span (in_class neg items) rest) (advance a rest st))
          by (simpl; now rewrite E).
        rewrite Hskip, <- Nat.add_succ_comm.
        destruct (below hi count) eqn:Hbelow.
        -- rewrite IH; [| simpl in Hf |- *; lia
                        | destruct hi as [h|]; [apply Nat.ltb_lt in Hbelow; lia | exact I]].
           cbv zeta. simpl ms_rest.
           now destruct (((lo <=? S count + span (in_class neg items) rest) && _));
             [destruct (k _)|].
        -- destruct hi as [h|]; [|discriminate].
           simpl in Hbelow. apply Nat.ltb_ge in Hbelow.
           assert (Hle : (S count + span (in_class neg items) rest <=? h) = false)
             by (apply Nat.leb_gt; lia).
           now rewrite Hle, andb_false_r.
      * cbv zeta. rewrite Nat.add_0_r.
        assert (Hb : (if below hi count then None else None) = @None mstate)
          by now destruct (below hi count).
        rewrite Hb.
        destruct hi as [h|]; [|now rewrite andb_true_r].
        apply Nat.leb_le in Hh. now rewrite Hh, andb_true_r.
Qed.

Lemma skip_add (a b : nat) (st : mstate) : skip (a + b) st = skip b (skip a st).
Proof.
  revert st. induction a as [|a IH]; intros st; simpl; [reflexivity|].
  destruct (ms_rest st) eqn:E; [|apply IH].
  destruct b; simpl; [reflexivity|]. now rewrite E.
Qed.

Lemma span_ext (f g : ascii -> bool) (s : string) :
  (forall a, f a = g a) -> span f s = span g s.
Proof. intros H. induction s as [|a s IH]; simpl; [reflexivity|]. now rewrite H, IH. Qed.

Lemma in_class_one (c a : ascii) : in_class false [COne c] a = Ascii.eqb c a.
Proof. unfold in_class. simpl. now rewrite orb_false_r, Ascii.eqb_sym. Qed.

Lemma in_class_blank (a : ascii) : in_class false [COne SP; COne TAB] a = is_blank a.
Proof. unfold in_class, is_blank. simpl. now rewrite orb_false_r. Qed.

(** [(?:\n|$)] with [re.M], at the end of a pattern *)
Lemma run_nl_or_end (base : nat) (st : mstate) :
  run true NLorEnd base st Some
  = match ms_rest st with
    | EmptyString => Some st
    | String a rest => if Ascii.eqb a NL then Some (advance a rest st) else None
    end.
Proof.
  unfold NLorEnd, Chr. cbn [run]. unfold at_eol.
  destruct (ms_rest st) as [|a rest]; [reflexivity|].
  rewrite in_class_one, Ascii.eqb_sym.
  destruct (Ascii.eqb a NL); [reflexivity|]. now destruct rest.
Qed.

(** The closing pattern of [parse_fenced_code], run at the start of a line,
    matches the lines that [closing_fence] describes, and no other. *)
Lemma run_end_pattern (c : ascii) (n : nat) (st : mstate) :
  c <> SP -> c <> TAB -> c <> NL -> 1 <= n ->
  run true (p_re (_end c n)) 0 st Some
  = if at_bol true st then
      match closing_fence c n (ms_rest st) with
      | Some len => Some (skip len st)
      | None => None
      end
    else None.
Proof.
  intros Hsp Htab Hnl Hn.
  assert (Ec : forall a, Ascii.eqb c a = true -> is_blank a = false /\ Ascii.eqb a NL = false
                                               /\ Ascii.eqb SP a = false).
  { intros a Ha. apply Ascii.eqb_eq in Ha as <-. unfold is_blank.
    repeat split; try apply orb_false_iff; repeat split;
      apply Ascii.eqb_neq; congruence. }
  (* the three continuations, from the last one *)
  set (K3 := fun st' : mstate => run true NLorEnd 0 st' Some).
  set (K2 := fun st' : mstate =>
               rep_loop (cls_body false [COne SP; COne TAB]) true 0 None K3
                        (String.length (ms_rest st')) 0 st').
  set (K1 := fun st' : mstate =>
               rep_loop (cls_body false [COne c]) true n None K2
                        (String.length (ms_rest st')) 0 st').
  assert (H3 : forall st' a rest, ms_rest st' = String a rest ->
                 in_class false [COne SP; COne TAB] a = true -> K3 st' = None).
  { intros st' a rest E Ha. unfold K3. rewrite run_nl_or_end, E.
    rewrite in_class_blank in Ha. unfold is_blank in Ha.
    destruct (Ascii.eqb a NL) eqn:En; [|reflexivity].
    apply Ascii.eqb_eq in En as ->. discriminate. }
  assert (E2 : forall st', K2 st' = K3 (skip (span is_blank (ms_rest st')) st')).
  { intros st'. unfold K2. rewrite (rep_cls_greedy _ _ _ _ _ H3); [|lia|exact I].
    cbv zeta. simpl. now rewrite (span_ext _ is_blank) by apply in_class_blank. }
  assert (H2 : forall st' a rest, ms_rest st' = String a rest ->
                 in_class false [COne c] a = true -> K2 st' = None).
  { intros st' a rest E Ha. rewrite in_class_one in Ha.
    destruct (Ec a Ha) as (Hb & Hl & _).
    rewrite E2, E. simpl. rewrite Hb. simpl. unfold K3.
    now rewrite run_nl_or_end, E, Hl. }
  assert (E1 : forall st', K1 st' =
                 if n <=? span (Ascii.eqb c) (ms_rest st')
                 then K2 (skip (span (Ascii.eqb c) (ms_rest st')) st') else None).
  { intros st'. unfold K1. rewrite (rep_cls_greedy _ _ _ _ _ H2); [|lia|exact I].
    cbv zeta. simpl. rewrite andb_true_r.
    now rewrite (span_ext _ (Ascii.eqb c)) by apply in_class_one. }
  assert (H1 : forall st' a rest, ms_rest st' = String a rest ->
                 in_class false [COne SP] a = true -> K1 st' = None).
  { intros st' a rest E Ha. rewrite in_class_one in Ha. apply Ascii.eqb_eq in Ha as <-.
    rewrite E1, E. simpl.
    assert (Hc : Ascii.eqb c SP = false) by (apply Ascii.eqb_neq; congruence).
    rewrite Hc. destruct n; [lia|reflexivity]. }
  unfold _end, Spaces03, AtLeast, Between, Star, Chr, WS. cbn [p_re seqs run ngroups Nat.add].
  destruct (at_bol true st); [|reflexivity].
  change (rep_loop (cls_body false [COne SP]) true 0 (Some 3) K1
                   (String.length (ms_rest st)) 0 st = 
          match closing_fence c n (ms_rest st) with
          | Some len => Some (skip len st)
          | None => None
          end).
  rewrite (rep_cls_greedy _ _ _ _ _ H1); [|lia|simpl; lia].
  cbv zeta. simpl "<=?" at 1. simpl andb. simpl Nat.add.
  rewrite (span_ext _ (Ascii.eqb SP)) by apply in_class_one.
  unfold closing_fence, closing_line.
  set (s := span (Ascii.eqb SP) (ms_rest st)).
  destruct (s <=? 3); [|reflexivity]. simpl andb.
  rewrite E1, skip_rest.
  set (r := span (Ascii.eqb c) (sdrop s (ms_rest st))).
  destruct (n <=? r); [|reflexivity].
  rewrite E2, !skip_rest, !sdrop_sdrop.
  set (w := span is_blank (sdrop (s + r) (ms_rest st))).
  unfold K3. rewrite run_nl_or_end, !skip_rest, !sdrop_sdrop.
  rewrite <- !skip_add, ?Nat.add_assoc.
  destruct (sdrop (s + r + w) (ms_rest st)) as [|a rest] eqn:E; [reflexivity|].
  destruct (Ascii.eqb a NL); [|reflexivity].
  f_equal. rewrite (skip_add (s + r + w) 1). simpl. now rewrite skip_rest, E.
Qed.

(** [search] finds the first offset, from [pos] on, at which the pattern
    matches. *)
Lemma search_from_first (M : bool) (r : re) (s : string) :
  forall n pos, n = String.length s - pos -> pos <= String.length s ->
    match search_from M r pos (char_before pos s) (sdrop pos s) with
    | Some (q, st') =>
        pos <= q <= String.length s /\ run_at M r s q = Some st'
        /\ forall q', pos <= q' < q -> run_at M r s q' = None
    | None => forall q', pos <= q' <= String.length s -> run_at M r s q' = None
    end.
Proof.
  induction n as [|n IH]; intros pos Hn Hpos.
  - pose proof (sdrop_length pos s) as L.
    destruct (sdrop pos s) as [|c rest] eqn:E; [|simpl in L; lia].
    simpl. destruct (run M r 0 _ Some) as [st'|] eqn:R.
    + split; [lia|]. split; [unfold run_at; now rewrite E | intros q' Hq; lia].
    + intros q' Hq. assert (q' = pos) as -> by lia. unfold run_at. now rewrite E.
  - pose proof (sdrop_length pos s) as L.
    destruct (sdrop pos s) as [|c rest] eqn:E; [simpl in L; lia|].
    simpl. destruct (run M r 0 _ Some) as [st'|] eqn:R.
    + split; [lia|]. split; [unfold run_at; now rewrite E | intros q' Hq; lia].
    + destruct (sdrop_next _ _ _ _ E) as [E1 E2].
      simpl in L.
      specialize (IH (S pos)). simpl char_before in IH. rewrite E1, E2 in IH.
      specialize (IH ltac:(lia) ltac:(lia)).
      assert (R0 : run_at M r s pos = None) by (unfold run_at; now rewrite E).
      destruct (search_from M r (S pos) (Some c) rest) as [[q st']|].
      * destruct IH as (Hq & Hr & Hfirst). split; [lia|]. split; [exact Hr|].
        intros q' Hq'. destruct (Nat.eq_dec q' pos) as [->|Hne]; [exact R0|].
        apply Hfirst. lia.
      * intros q' Hq'. destruct (Nat.eq_dec q' pos) as [->|Hne]; [exact R0|].
        apply IH. lia.
Qed.

Lemma re_search_first (p : pattern) (s : string) (pos : nat) :
  pos <= String.length s ->
  match re_search p s pos with
  | Some m =>
      pos <= m_start m <= String.length s
      /\ (exists st', run_at (p_multiline p) (p_re p) s (m_start m) = Some st'
                      /\ m_end m = ms_pos st')
      /\ forall q', pos <= q' < m_start m ->
                    run_at (p_multiline p) (p_re p) s q' = None
  | None =>
      forall q', pos <= q' <= String.length s ->
                 run_at (p_multiline p) (p_re p) s q' = None
  end.
Proof.
  intros Hpos. unfold re_search, start_state.
  rewrite Nat.min_l by exact Hpos. cbn [ms_pos ms_prev ms_rest].
  pose proof (search_from_first (p_multiline p) (p_re p) s _ pos eq_refl Hpos) as H.
  destruct (search_from _ _ _ _ _) as [[q st']|]; [|exact H].
  destruct H as (Hq & Hr & Hfirst). simpl. eauto 6.
Qed.

Lemma closing_line_length (t : bool) (c : ascii) (n : nat) (rest : string) (len : nat) :
  closing_line t c n rest = Some len -> len <= String.length rest.
Proof.
  unfold closing_line.
  set (s := span (Ascii.eqb SP) rest).
  set (r := span (Ascii.eqb c) (sdrop s rest)).
  set (w := if t then span is_blank (sdrop (s + r) rest) else 0).
  pose proof (span_le (Ascii.eqb SP) rest) as Hs. fold s in Hs.
  pose proof (span_le (Ascii.eqb c) (sdrop s rest)) as Hr. fold r in Hr.
  rewrite sdrop_length in Hr.
  assert (Hw : w <= String.length rest - (s + r)).
  { unfold w. destruct t; [|lia].
    pose proof (span_le is_blank (sdrop (s + r) rest)) as Hw.
    now rewrite sdrop_length in Hw. }
  destruct ((s <=? 3) && (n <=? r)); [|discriminate].
  pose proof (sdrop_length (s + r + w) rest) as L.
  destruct (sdrop (s + r + w) rest) as [|a rest']; simpl in L.
  - intros [= <-]. lia.
  - destruct (Ascii.eqb a NL); [|discriminate]. intros [= <-]. lia.
Qed.

Lemma repeat_char_length (c : ascii) (n : nat) : String.length (repeat_char c n) = n.
Proof. induction n as [|n IH]; simpl; [reflexivity|]. now rewrite IH. Qed.

(** the closing pattern at the offset [q] of the source *)
Lemma run_at_end_pattern (c : ascii) (n : nat) (s : string) (q : nat) :
  c = "`"%char \/ c = "~"%char -> 1 <= n ->
  run_at true (p_re (_end c n)) s q
  = if line_start s q then
      match closing_fence c n (sdrop q s) with
      | Some len =>
          Some (skip len (MState q (char_before q s) (sdrop q s) [] None))
      | None => None
      end
    else None.
Proof.
  intros Hc Hn. unfold run_at.
  rewrite run_end_pattern; [| destruct Hc as [-> | ->]; discriminate ..| exact Hn].
  unfold at_bol, line_start. cbn [ms_prev ms_rest].
  now destruct (char_before q s).
Qed.

(** ** Fenced code (C4) *)

Section FencedCode.
Variable X : externals.

(** what [parse_fenced_code] does once the closing pattern is searched *)
Lemma parse_fenced_code_unfold (m : Match) (st : BlockState) (spaces info : string)
    (c : ascii) (n : nat) :
  group m "fenced_1" = Ok spaces ->
  group m "fenced_2" = Ok (repeat_char c n) ->
  group m "fenced_3" = Ok info ->
  1 <= n ->
  (c = "`"%char -> has_char "`" info = false) ->
  parse_fenced_code X m st
  = match re_search (_end c n) (src st) (m_end m) with
    | Some m2 =>
        Ok (RPos (m_end m2),
            append_token
              (fenced_token X spaces info (slice (m_end m) (m_start m2) (src st))) st)
    | None =>
        Ok (RPos (cursor_max st),
            append_token (fenced_token X spaces info (sdrop (m_end m) (src st))) st)
    end.
Proof.
  intros G1 G2 G3 Hn Hinfo. unfold parse_fenced_code. rewrite G1, G2, G3. simpl bind.
  destruct n as [|n]; [lia|]. cbn [repeat_char].
  change (String c (repeat_char c n)) with (repeat_char c (S n)).
  rewrite repeat_char_length.
  assert (Hguard : negb (String.eqb info "") && Ascii.eqb c "`" && has_char c info = false).
  { destruct (Ascii.eqb c "`") eqn:E.
    - apply Ascii.eqb_eq in E. subst c. rewrite (Hinfo eq_refl). apply andb_false_r.
    - now rewrite andb_false_r. }
  rewrite Hguard. unfold fenced_token.
  destruct (re_search (_end c (S n)) (src st) (m_end m)) as [m2|];
    destruct (negb (String.eqb info "")); reflexivity.
Qed.

(** the two ways in which [parse_fenced_code] ends a block whose opening
    passes the test of the info string: at the first closing line, or at
    the end of the input *)
Lemma fenced_code_closing_cases (m : Match) (st : BlockState)
    (spaces info : string) (c : ascii) (n : nat) :
  group m "fenced_1" = Ok spaces ->
  group m "fenced_2" = Ok (repeat_char c n) ->
  group m "fenced_3" = Ok info ->
  c = "`"%char \/ c = "~"%char ->
  3 <= n ->
  (c = "`"%char -> has_char "`" info = false) ->
  m_end m <= String.length (src st) ->
  (forall p len,
      m_end m <= p <= String.length (src st) ->
      line_start (src st) p = true ->
      closing_fence c n (sdrop p (src st)) = Some len ->
      (forall q, m_end m <= q < p -> line_start (src st) q = true ->
                 closing_fence c n (sdrop q (src st)) = None) ->
      parse_fenced_code X m st
      = Ok (RPos (p + len),
            append_token (fenced_token X spaces info (slice (m_end m) p (src st))) st))
  /\ ((forall q, m_end m <= q <= String.length (src st) ->
                 line_start (src st) q = true ->
                 closing_fence c n (sdrop q (src st)) = None) ->
      parse_fenced_code X m st
      = Ok (RPos (cursor_max st),
            append_token (fenced_token X spaces info (sdrop (m_end m) (src st))) st))
  /\ (exists end_pos code,
        parse_fenced_code X m st
        = Ok (RPos end_pos, append_token (fenced_token X spaces info code) st)).
Proof.
  intros G1 G2 G3 Hc Hn Hinfo Hend.
  rewrite (parse_fenced_code_unfold m st spaces info c n G1 G2 G3 ltac:(lia) Hinfo).
  apply and_assoc. split;
    [| destruct (re_search (_end c n) (src st) (m_end m)) as [m2|]; eauto].
  pose proof (re_search_first (_end c n) (src st) (m_end m) Hend) as S.
  assert (Hrun : forall q, run_at (p_multiline (_end c n)) (p_re (_end c n)) (src st) q
                 = if line_start (src st) q then
                     match closing_fence c n (sdrop q (src st)) with
                     | Some len =>
                         Some (skip len (MState q (char_before q (src st))
                                                (sdrop q (src st)) [] None))
                     | None => None
                     end
                   else None)
    by (intros q; apply run_at_end_pattern; [exact Hc | lia]).
  split.
  - intros p len Hp Hline Hclose Hfirst.
    destruct (re_search (_end c n) (src st) (m_end m)) as [m2|].
    + destruct S as (Hq & (st' & Hr & He) & Hmin).
      assert (m_start m2 = p) as Hstart.
      { destruct (Nat.lt_trichotomy (m_start m2) p) as [Hlt | [Heq | Hgt]]; [|exact Heq|].
        - exfalso. rewrite Hrun in Hr.
          destruct (line_start (src st) (m_start m2)) eqn:L; [|discriminate].
          rewrite (Hfirst (m_start m2) ltac:(lia) L) in Hr. discriminate.
        - exfalso. specialize (Hmin p ltac:(lia)).
          rewrite Hrun, Hline, Hclose in Hmin. discriminate. }
      rewrite Hstart in *. rewrite Hrun, Hline, Hclose in Hr. injection Hr as <-.
      rewrite He, skip_pos.
      * reflexivity.
      * cbn [ms_rest]. exact (closing_line_length _ _ _ _ _ Hclose).
    + exfalso. specialize (S p Hp). rewrite Hrun, Hline, Hclose in S. discriminate.
  - intros Hnone.
    destruct (re_search (_end c n) (src st) (m_end m)) as [m2|]; [|reflexivity].
    exfalso. destruct S as (Hq & (st' & Hr & He) & Hmin).
    rewrite Hrun in Hr.
    destruct (line_start (src st) (m_start m2)) eqn:L; [|discriminate].
    rewrite (Hnone (m_start m2) Hq L) in Hr. discriminate.
Qed.

Lemma fenced_token_raw (spaces info code : string) :
  dget "type" (fenced_token X spaces info code) = Some (VStr "block_code")
  /\ dget "raw" (fenced_token X spaces info code) = Some (VStr (fenced_raw X spaces code)).
Proof. unfold fenced_token, fenced_raw. now destruct (negb (String.eqb info "")). Qed.

(** C4, as the code has it.  For a fenced-code opening with a fence of
    [n >= 3] characters [c], a backtick or a tilde: when [c] is a backtick
    and the info string has a backtick, the handler emits nothing and
    returns [None], the state being as it was.  Otherwise the block ends at
    the first line, from the end of the opening line on, that is made of at
    most three spaces, at least [n] copies of [c], and then spaces and tabs
    only: the handler appends one [block_code] token whose [raw] is made of
    the text before that line, and returns the offset after it.  When there
    is no such line, the token is made of the text up to the end of the
    input and the handler returns [cursor_max].  In either case it returns
    with one [block_code] token appended. *)
Theorem fenced_code_ends_at_closing_fence (m : Match) (st : BlockState)
    (spaces info : string) (c : ascii) (n : nat) :
  group m "fenced_1" = Ok spaces ->
  group m "fenced_2" = Ok (repeat_char c n) ->
  group m "fenced_3" = Ok info ->
  c = "`"%char \/ c = "~"%char ->
  3 <= n ->
  m_end m <= String.length (src st) ->
  (c = "`"%char -> has_char "`" info = true ->
   parse_fenced_code X m st = Ok (RNone, st))
  /\ ((c = "`"%char -> has_char "`" info = false) ->
      (forall p len,
          m_end m <= p <= String.length (src st) ->
          line_start (src st) p = true ->
          closing_fence c n (sdrop p (src st)) = Some len ->
          (forall q, m_end m <= q < p -> line_start (src st) q = true ->
                     closing_fence c n (sdrop q (src st)) = None) ->
          exists tok,
            parse_fenced_code X m st = Ok (RPos (p + len), append_token tok st)
            /\ dget "type" tok = Some (VStr "block_code")
            /\ dget "raw" tok
               = Some (VStr (fenced_raw X spaces (slice (m_end m) p (src st)))))
      /\ ((forall q, m_end m <= q <= String.length (src st) ->
                     line_start (src st) q = true ->
                     closing_fence c n (sdrop q (src st)) = None) ->
          exists tok,
            parse_fenced_code X m st = Ok (RPos (cursor_max st), append_token tok st)
            /\ dget "type" tok = Some (VStr "block_code")
            /\ dget "raw" tok
               = Some (VStr (fenced_raw X spaces (sdrop (m_end m) (src st)))))
      /\ (exists end_pos tok,
            parse_fenced_code X m st = Ok (RPos end_pos, append_token tok st)
            /\ dget "type" tok = Some (VStr "block_code"))).
Proof.
  intros G1 G2 G3 Hc Hn Hend. split.
  - intros -> Hinfo. unfold parse_fenced_code. rewrite G1, G2, G3. simpl bind.
    destruct n as [|n]; [lia|]. cbn [repeat_char].
    assert (Hne : String.eqb info "" = false) by (destruct info; [discriminate|reflexivity]).
    now rewrite Hne, Hinfo.
  - intros Hinfo.
    destruct (fenced_code_closing_cases m st spaces info c n G1 G2 G3 Hc Hn Hinfo Hend)
      as (Hclose & Hopen & end_pos & code & Hret).
    split; [|split].
    + intros p len Hp Hline Hlen Hfirst.
      exists (fenced_token X spaces info (slice (m_end m) p (src st))).
      split; [now apply Hclose|]. apply fenced_token_raw.
    + intros Hnone.
      exists (fenced_token X spaces info (sdrop (m_end m) (src st))).
      split; [now apply Hopen|]. apply fenced_token_raw.
    + exists end_pos, (fenced_token X spaces info code).
      split; [exact Hret|]. apply fenced_token_raw.
Qed.
End FencedCode.

Lemma fenced_code_ends_at_closing_fence_witness :
  exists tok,
    parse_fenced_code sample_externals (fenced_match trailing_space_document)
                      trailing_space_document
    = Ok (RPos (6 + 5), append_token tok trailing_space_document)
    /\ dget "type" tok = Some (VStr "block_code")
    /\ dget "raw" tok
       = Some (VStr (fenced_raw sample_externals ""
                                (slice 3 6 (src trailing_space_document)))).
Proof.
  refine (proj1 (proj2 (fenced_code_ends_at_closing_fence sample_externals
                   (fenced_match trailing_space_document) trailing_space_document
                   "" "" "`" 3 _ _ _ _ _ _) _) 6 5 _ _ _ _).
  - vm_compute. reflexivity.
  - vm_compute. reflexivity.
  - vm_compute. reflexivity.
  - left. reflexivity.
  - lia.
  - vm_compute. lia.
  - reflexivity.
  - vm_compute. lia.
  - vm_compute. reflexivity.
  - vm_compute. reflexivity.
  - intros q Hq L.
    assert (q = 3 \/ q = 4 \/ q = 5) as [-> | [-> | ->]] by (vm_compute in Hq; lia);
      vm_compute; reflexivity.
Defined.

(** C4 as stated fails in two ways.  In the first document the block ends
    at the line of three backticks and a space, at offset 6, a line that
    does not consist of the fence alone; the first line from the opening on
    that consists of at most three spaces and at least three backticks is at
    offset 13.  In the second document the opening has a fence of three
    backticks, and the handler, given a backtick in the info string, emits
    nothing and returns [None]. *)
Lemma fenced_code_as_stated_fails :
  (parse_fenced_code sample_externals (fenced_match trailing_space_document)
                     trailing_space_document
   = Ok (RPos 11,
         append_token [("type", VStr "block_code"); ("raw", VStr (lit "\na\n"));
                       ("fenced", VBool true)] trailing_space_document)
   /\ bare_closing_fence "`" 3 (sdrop 6 (src trailing_space_document)) = None
   /\ bare_closing_fence "`" 3 (sdrop 13 (src trailing_space_document)) = Some 4
   /\ forallb (fun q => negb (line_start (src trailing_space_document) q)
                        || bool_decide (bare_closing_fence "`" 3
                                          (sdrop q (src trailing_space_document)) = None))
              (seq 3 10) = true)
  /\ (group (fenced_match backtick_info_document) "fenced_2" = Ok "```"
      /\ parse_fenced_code sample_externals (fenced_match backtick_info_document)
                           backtick_info_document
         = Ok (RNone, backtick_info_document)).
Proof. vm_compute. repeat split. Qed.

(** ** The link table through a whole parse *)

Lemma keeps_links_refl (e : Env) : keeps_links e e.
Proof. intros k v H. exact H. Qed.

Lemma keeps_links_trans (e1 e2 e3 : Env) :
  keeps_links e1 e2 -> keeps_links e2 e3 -> keeps_links e1 e3.
Proof. intros H1 H2 k v H. apply H2, H1, H. Qed.

Lemma keeps_links_eq (e e' : Env) : e' = e -> keeps_links e e'.
Proof. intros ->. apply keeps_links_refl. Qed.

(** a loop keeps what each of its iterations keeps *)
Lemma while_keeps {S : Type} (R : S -> S -> Prop) (body : S -> result (bool * S)) :
  (forall s, R s s) -> (forall a b c, R a b -> R b c -> R a c) ->
  (forall s b s', body s = Ok (b, s') -> R s s') ->
  forall fuel s s', while fuel body s = Ok s' -> R s s'.
Proof.
  intros Hrefl Htrans Hbody. induction fuel as [|fuel IH]; intros s s' H; [discriminate|].
  simpl in H. apply bind_Ok in H as ([b s1] & Hb & H).
  destruct b; [|injection H as <-; eauto].
  eapply Htrans; [eapply Hbody, Hb | eapply IH, H].
Qed.

Section LinkTable.
Variable X : externals.

Lemma _parse_html_to_end_env (st : BlockState) (marker : string) (pos : nat) :
  env (snd (_parse_html_to_end st marker pos)) = env st.
Proof. unfold _parse_html_to_end. now destruct (find_from marker (src st) pos). Qed.

Lemma _parse_html_to_newline_env (st : BlockState) (p : pattern) :
  env (snd (_parse_html_to_newline st p)) = env st.
Proof. unfold _parse_html_to_newline. now destruct (re_search p (src st) (cursor st)). Qed.

Lemma parse_raw_html_env (m : Match) (st st' : BlockState) (r : pyret) :
  parse_raw_html X m st = Ok (r, st') -> env st' = env st.
Proof.
  unfold parse_raw_html. intros H. apply bind_Ok in H as (whole & _ & H).
  repeat match type of H with
         | (if ?b then _ else _) = _ => destruct b
         | Ok (_parse_html_to_end ?s ?mk ?p) = _ =>
             pose proof (_parse_html_to_end_env s mk p) as E;
             destruct (_parse_html_to_end s mk p); injection H as <- <-; exact E
         | Ok (_parse_html_to_newline ?s ?p) = _ =>
             pose proof (_parse_html_to_newline_env s p) as E;
             destruct (_parse_html_to_newline s p); injection H as <- <-; exact E
         end.
  destruct (append_paragraph st) as [p st1] eqn:AP.
  pose proof (append_paragraph_env _ _ _ AP) as E1.
  destruct (truthy (of_pos p)); [injection H as <- <-; exact E1|].
  destruct (negb _); [|injection H as <- <-; exact E1].
  destruct (re_match_until _ _ _ _); [|injection H as <- <-; exact E1].
  pose proof (_parse_html_to_newline_env st1 BLANK_LINE) as E.
  destruct (_parse_html_to_newline st1 BLANK_LINE). injection H as <- <-.
  simpl in E. congruence.
Qed.

Lemma parse_setex_heading_env (m : Match) (st st' : BlockState) (r : pyret) :
  parse_setex_heading m st = Ok (r, st') -> env st' = env st.
Proof.
  unfold parse_setex_heading. intros H.
  destruct (last_token st) as [[|kv tok]|]; try (injection H as <- <-; reflexivity).
  destruct (dget "type" (kv :: tok)); [|discriminate].
  destruct (is_str _ _); [|injection H as <- <-; reflexivity].
  apply bind_Ok in H as (g & _ & H). now injection H as <- <-.
Qed.

Lemma parse_fenced_code_env (m : Match) (st st' : BlockState) (r : pyret) :
  parse_fenced_code X m st = Ok (r, st') -> env st' = env st.
Proof.
  unfold parse_fenced_code. intros H.
  apply bind_Ok in H as (spaces & _ & H).
  apply bind_Ok in H as (marker & _ & H).
  apply bind_Ok in H as (info & _ & H).
  destruct marker; [discriminate|].
  destruct (_ && _ && _); [now injection H as <- <-|].
  match type of H with context [let (_, _) := ?e in _] => destruct e end.
  now injection H as <- <-.
Qed.

Lemma parse_indent_code_env (m : Match) (st st' : BlockState) (r : pyret) :
  parse_indent_code X m st = Ok (r, st') -> env st' = env st.
Proof.
  unfold parse_indent_code. intros H.
  destruct (append_paragraph st) as [p st1] eqn:AP.
  pose proof (append_paragraph_env _ _ _ AP) as E1.
  destruct (truthy (of_pos p)); [injection H as <- <-; exact E1|].
  apply bind_Ok in H as (code & _ & H). injection H as <- <-. exact E1.
Qed.

Lemma parse_axt_heading_env (m : Match) (st st' : BlockState) (r : pyret) :
  parse_axt_heading m st = Ok (r, st') -> env st' = env st.
Proof.
  unfold parse_axt_heading. intros H.
  apply bind_Ok in H as (a1 & _ & H). apply bind_Ok in H as (a2 & _ & H).
  now injection H as <- <-.
Qed.

Lemma parse_ref_link_keeps (m : Match) (st st' : BlockState) (r : pyret) :
  parse_ref_link X m st = Ok (r, st') -> keeps_links (env st) (env st').
Proof.
  intros H.
  destruct (parse_ref_link_effect X m st st' r H)
    as [(p & AP) | (p & st1 & label & attrs & AP & G & Fresh & ->)];
    pose proof (append_paragraph_env _ _ _ AP) as E.
  - now apply keeps_links_eq.
  - intros k v Hk. simpl. rewrite <- E in Hk.
    destruct (decide (k = unikey X label)) as [->|Hne]; [congruence|].
    now rewrite lookup_insert_ne by auto.
Qed.

Lemma lift_keeps (c : result (pyret * BlockState)) (self self' : BlockParser)
    (st st' : BlockState) (r : pyret) :
  (forall r st', c = Ok (r, st') -> keeps_links (env st) (env st')) ->
  lift c self = Ok (r, st', self') -> keeps_links (env st) (env st').
Proof.
  intros Hc H. unfold lift in H. apply bind_Ok in H as ([r0 st0] & E & H).
  injection H as <- <- <-. eauto.
Qed.

Lemma quote_loop_body_keeps
    (pm : BlockParser -> option Match -> BlockState -> handled) (break_sc : pattern) :
  (forall self m st r st' self',
      pm self m st = Ok (r, st', self') -> keeps_links (env st) (env st')) ->
  forall q b q', quote_loop_body X pm break_sc q = Ok (b, q') ->
                 keeps_links (env (q_state q)) (env (q_state q')).
Proof.
  intros Hpm q b q'. unfold quote_loop_body.
  destruct (_ <? _); [|intros [= <- <-]; apply keeps_links_refl].
  destruct (state_match _ _); [intros [= <- <-]; apply keeps_links_refl|].
  destruct (q_prev_blank_line q); [intros [= <- <-]; apply keeps_links_refl|].
  destruct (pm _ _ _) as [[[end_pos state] self]| |] eqn:E; simpl; try discriminate.
  destruct (truthy end_pos); [|discriminate].
  intros [= <- <-]. simpl. eapply Hpm, E.
Qed.

Lemma parse_iteration_keeps
    (pm : BlockParser -> option Match -> BlockState -> handled) (sc : pattern) :
  (forall self m st r st' self',
      pm self m st = Ok (r, st', self') -> keeps_links (env st) (env st')) ->
  forall s b s', parse_iteration pm sc s = Ok (b, s') ->
                 keeps_links (env (fst s)) (env (fst s')).
Proof.
  intros Hpm [state self] b [state' self']. unfold parse_iteration.
  destruct (_ <? _); [|intros [= <- <- <-]; apply keeps_links_refl].
  destruct (re_search _ _ _) as [m|]; [|intros [= <- <- <-]; apply keeps_links_refl].
  match goal with |- context [pm self (Some m) ?s] => set (st1 := s) end.
  assert (E1 : env st1 = env state).
  { unfold st1. destruct (_ <? _); [|reflexivity]. simpl. unfold add_paragraph.
    destruct (last_token state) as [tok|]; [destruct (is_paragraph tok)|]; reflexivity. }
  destruct (pm self (Some m) st1) as [[[end_pos st2] self2]| |] eqn:E; simpl; try discriminate.
  destruct (truthy end_pos); [|discriminate].
  intros [= <- <- <-]. simpl. rewrite <- E1. eapply Hpm, E.
Qed.

Lemma family_keeps_links_all (fuel : nat) : family_keeps_links X fuel.
Proof.
  induction fuel as [|fuel (IHm & IHq & IHp)]; [repeat split; intros; discriminate|].
  repeat split.
  - (* parse_method *)
    intros self m st r st' self' H. cbn [parse_method] in H.
    destruct m as [m|]; [|discriminate].
    destruct (m_lastgroup m); [|discriminate].
    destruct (__methods self !! _) as [[name|]|]; try discriminate.
    repeat match type of H with
           | (if ?b then _ else _) = _ => destruct b
           end; try discriminate;
    try (eapply lift_keeps; [|exact H]; intros r0 st0 E).
    + apply keeps_links_eq. now injection E as _ <-.
    + apply keeps_links_eq. eapply parse_fenced_code_env, E.
    + apply keeps_links_eq. eapply parse_indent_code_env, E.
    + apply keeps_links_eq. eapply parse_axt_heading_env, E.
    + apply keeps_links_eq. eapply parse_setex_heading_env, E.
    + apply keeps_links_eq. now injection E as _ <-.
    + eapply IHq, H.
    + eapply parse_ref_link_keeps, E.
    + apply keeps_links_eq. eapply parse_raw_html_env, E.
  - (* parse_block_quote *)
    intros self m st r st' self' H. cbn [parse_block_quote] in H.
    apply bind_Ok in H as (quote_1 & _ & H).
    apply bind_Ok in H as ([sc self1] & _ & H).
    apply bind_Ok in H as (q & Hq & H).
    assert (Kq : keeps_links (env st) (env (q_state q))).
    { destruct (bool_decide _).
      - destruct (state_match _ _); injection Hq as <-; apply keeps_links_refl.
      - apply bind_Ok in Hq as ([break_sc self2] & _ & Hq).
        apply (while_keeps (fun a b => keeps_links (env (q_state a)) (env (q_state b))))
          in Hq; [exact Hq | intros; apply keeps_links_refl
                 | intros a b c; apply keeps_links_trans |].
        intros s b s'. apply quote_loop_body_keeps, IHm. }
    apply bind_Ok in H as (rules & _ & H).
    apply bind_Ok in H as ([child self3] & Hchild & H).
    apply IHp in Hchild. simpl in Hchild.
    assert (K : keeps_links (env st) (env child)) by (eapply keeps_links_trans; eauto).
    destruct (truthy (q_end_pos q)); injection H as <- <- <-.
    + unfold prepend_token. now destruct (rev _).
    + exact K.
  - (* parse *)
    intros self st rules st' self' H. cbn [parse] in H.
    apply bind_Ok in H as ([sc self1] & _ & H).
    apply bind_Ok in H as ([st1 self2] & Hloop & H).
    apply (while_keeps (fun a b => keeps_links (env (fst a)) (env (fst b)))) in Hloop;
      [| intros; apply keeps_links_refl | intros a b c; apply keeps_links_trans
       | intros s b s'; apply parse_iteration_keeps, IHm].
    injection H as <- <-. simpl in Hloop.
    destruct (_ <? _); [|exact Hloop].
    simpl. unfold add_paragraph.
    destruct (last_token st1) as [tok|]; [destruct (is_paragraph tok)|]; exact Hloop.
Qed.

(** No entry of the link table is lost or overwritten by a parse, whatever
    the rules and the nesting. *)
Lemma parse_keeps_ref_links (fuel : nat) (self self' : BlockParser)
    (st st' : BlockState) (rules : option (list string)) :
  parse X fuel self st rules = Ok (st', self') -> keeps_links (env st) (env st').
Proof. apply (family_keeps_links_all fuel). Qed.
End LinkTable.

(** ** The parser on documents of the specification *)

(** "Setext rewrites previous paragraph": [foo] underlined by [===] *)
Example setext_heading_document :
  option_map (fun r => tokens (fst r))
    (match parse_document 8 (lit "foo\n===\n") with Ok r => Some r | _ => None end)
  = Some [[("type", VStr "heading"); ("text", VStr (lit "foo\n"));
           ("attrs", VDict [("level", VInt 1)])]].
Proof. vm_compute. reflexivity. Qed.

(** "Strict quote around code": the second line, without marker, is not
    part of the quote *)
Example strict_quote_document :
  option_map (fun r => tokens (fst r))
    (match parse_document 8 (lit ">     code\n    code2\n") with
     | Ok r => Some r | _ => None end)
  = Some [[("type", VStr "block_quote");
           ("children", VTokens [[("type", VStr "block_code"); ("raw", VStr "code")]])];
          [("type", VStr "block_code"); ("raw", VStr "code2")]].
Proof. vm_compute. reflexivity. Qed.

(** "Link reference + usage": the definition goes to the table and leaves no
    token *)
Example ref_link_document :
  option_map (fun r => (tokens (fst r), ref_links (env (fst r)) !! "foo"))
    (match parse_document 8 (lit "[Foo]: /u\n\n[foo]\n") with
     | Ok r => Some r | _ => None end)
  = Some ([[("type", VStr "blank_line")];
           [("type", VStr "paragraph"); ("text", VStr (lit "[foo]\n"))]],
          Some (LinkAttrs "/u" None)).
Proof. vm_compute. reflexivity. Qed.

(** a quote ended by a blank line: the token of the quote is put before the
    token of the blank line *)
Example quote_then_blank_document :
  option_map (fun r => tokens (fst r))
    (match parse_document 8 (lit "> a\n> b\n\nc\n") with Ok r => Some r | _ => None end)
  = Some [[("type", VStr "block_quote");
           ("children", VTokens [[("type", VStr "paragraph"); ("text", VStr (lit "a\nb\n"))]])];
          [("type", VStr "blank_line")];
          [("type", VStr "paragraph"); ("text", VStr (lit "c\n"))]].
Proof. vm_compute. reflexivity. Qed.

(** * More properties of the code *)

(** ** The matcher: what a match went through *)

Lemma rep_loop_from_k (body : mstate -> (mstate -> option mstate) -> option mstate)
    (greedy : bool) (lo : nat) (hi : option nat) (k : mstate -> option mstate) :
  (forall st k' x, body st k' = Some x -> exists st', k' st' = Some x) ->
  forall fuel count st x,
    rep_loop body greedy lo hi k fuel count st = Some x -> exists st', k st' = Some x.
Proof.
  intros Hbody. induction fuel as [|fuel IH]; intros count st x H.
  - simpl in H. unfold orelse in H. destruct greedy; simpl in H;
      destruct (lo <=? count); try discriminate; eauto.
    destruct (k st) eqn:E; [injection H as <-; eauto|discriminate].
  - cbn [rep_loop] in H.
    assert (Hagain : forall y,
      (if below hi count
       then body st (fun st' => if ms_pos st' <=? ms_pos st then None
                                else rep_loop body greedy lo hi k fuel (S count) st')
       else None) = Some y -> exists st', k st' = Some y).
    { intros y Hy. destruct (below hi count); [|discriminate].
      apply Hbody in Hy as (st1 & Hy).
      destruct (ms_pos st1 <=? ms_pos st); [discriminate|]. eapply IH, Hy. }
    assert (Hstop : forall y, (if lo <=? count then k st else None) = Some y ->
                              exists st', k st' = Some y).
    { intros y Hy. destruct (lo <=? count); [eauto|discriminate]. }
    unfold orelse in H. destruct greedy.
    + destruct (if below hi count then _ else None) as [y|] eqn:E.
      * eapply Hagain, H.
      * eapply Hstop, H.
    + destruct (if lo <=? count then k st else None) as [y|] eqn:E.
      * eapply Hstop, H.
      * eapply Hagain, H.
Qed.

(** what the matcher returns is what its continuation returned *)
Lemma run_from_k (M : bool) (r : re) :
  forall base st k x, run M r base st k = Some x -> exists st', k st' = Some x.
Proof.
  induction r; intros base st k x H; cbn [run] in H.
  - eauto.
  - destruct (ms_rest st); [discriminate|]. destruct (in_class _ _ _); [eauto|discriminate].
  - apply IHr1 in H as (st1 & H). eapply IHr2, H.
  - destruct (run M r1 base st k) eqn:E; [injection H as <-; eapply IHr1, E | eapply IHr2, H].
  - eapply rep_loop_from_k; [|exact H]. intros st0 k' y Hy. eapply IHr, Hy.
  - apply IHr in H as (st1 & H). eauto.
  - destruct (at_bol M st); [eauto|discriminate].
  - destruct (at_eol M st); [eauto|discriminate].
  - destruct (run M r base st Some); [discriminate|eauto].
  - destruct (ms_prev st); [|discriminate]. destruct (in_class _ _ _); [eauto|discriminate].
Qed.

Lemma group_names_range (r : re) :
  forall base n i, In (n, i) (group_names r base) -> base < i <= base + ngroups r.
Proof.
  induction r; intros base n0 i H; cbn [group_names ngroups] in *; try (destruct H; fail).
  - apply in_app_or in H as [H|H]; [apply IHr1 in H | apply IHr2 in H]; lia.
  - apply in_app_or in H as [H|H]; [apply IHr1 in H | apply IHr2 in H]; lia.
  - apply IHr in H. lia.
  - destruct name as [n1|].
    + destruct H as [[= <- <-]|H]; [lia|]. apply IHr in H. lia.
    + apply IHr in H. lia.
  - apply IHr in H. lia.
Qed.

Lemma name_of_In {A} (i : nat) (l : list (A * nat)) (n : A) :
  name_of i l = Some n -> In (n, i) l.
Proof.
  induction l as [|[n' j] l IH]; simpl; [discriminate|].
  destruct (i =? j) eqn:E; [|auto].
  apply Nat.eqb_eq in E as ->. intros [= ->]. auto.
Qed.

Lemma name_of_app_r {A} (i : nat) (l1 l2 : list (A * nat)) :
  (forall n, ~ In (n, i) l1) -> name_of i (l1 ++ l2) = name_of i l2.
Proof.
  intros H. induction l1 as [|[n j] l1 IH]; simpl; [reflexivity|].
  destruct (i =? j) eqn:E.
  - apply Nat.eqb_eq in E as ->. exfalso. apply (H n). now left.
  - apply IH. intros n' Hin. apply (H n'). now right.
Qed.


Lemma search_from_run (M : bool) (r : re) (rest : string) :
  forall pos prev q st', search_from M r pos prev rest = Some (q, st') ->
    exists st0, ms_last st0 = None /\ run M r 0 st0 Some = Some st'.
Proof.
  induction rest as [|c rest IH]; intros pos prev q st' H; simpl in H.
  - destruct (run M r 0 _ Some) eqn:E; [|discriminate].
    injection H as <- <-. eexists. split; [|exact E]. reflexivity.
  - destruct (run M r 0 _ Some) eqn:E; [|eapply IH, H].
    injection H as <- <-. eexists. split; [|exact E]. reflexivity.
Qed.


(** ** More on the matcher: repetitions of a class, and the groups closed *)

(** A repetition of one character class hands to its continuation the
    subject moved over [j] characters of the class, [j] being within the
    bounds of the repetition. *)
Lemma rep_cls_sound (neg : bool) (items : list citem) (greedy : bool) (lo : nat)
    (hi : option nat) (k : mstate -> option mstate) :
  forall fuel count st x,
    rep_loop (cls_body neg items) greedy lo hi k fuel count st = Some x ->
    exists j, lo <= count + j
              /\ j <= span (in_class neg items) (ms_rest st)
              /\ match hi with Some h => count <= h -> count + j <= h | None => True end
              /\ k (skip j st) = Some x.
Proof.
  induction fuel as [|fuel IH]; intros count st x H.
  - exists 0. cbn [rep_loop] in H. unfold orelse in H.
    assert (Hs : (if lo <=? count then k st else None) = Some x).
    { destruct greedy; [exact H|].
      destruct (if lo <=? count then k st else None); [exact H|discriminate]. }
    destruct (lo <=? count) eqn:L; [|discriminate]. apply Nat.leb_le in L.
    repeat split; [lia|lia| destruct hi; [lia|exact I] | exact Hs].
  - cbn [rep_loop] in H. unfold orelse in H.
    assert (Hcases :
      (if below hi count
       then cls_body neg items st
              (fun st' => if ms_pos st' <=? ms_pos st then None
                          else rep_loop (cls_body neg items) greedy lo hi k fuel (S count) st')
       else None) = Some x
      \/ (if lo <=? count then k st else None) = Some x).
    { destruct greedy.
      - destruct (if below hi count then _ else None) as [y|]; [left; exact H|right; exact H].
      - destruct (if lo <=? count then k st else None) as [y|]; [right; exact H|left; exact H]. }
    destruct Hcases as [Ha|Hs].
    + destruct (below hi count) eqn:B; [|discriminate].
      unfold cls_body in Ha. destruct (ms_rest st) as [|a rest] eqn:E; [discriminate|].
      destruct (in_class neg items a) eqn:C; [|discriminate].
      assert (P : (ms_pos (advance a rest st) <=? ms_pos st) = false)
        by (apply Nat.leb_gt; simpl; lia).
      rewrite P in Ha. apply IH in Ha as (j & Hlo & Hj & Hhi & Hk).
      exists (S j). simpl ms_rest in Hj. simpl span. rewrite C.
      repeat split; [lia|lia| |simpl; now rewrite E].
      destruct hi as [h|]; [|exact I]. simpl in B. apply Nat.ltb_lt in B. lia.
    + exists 0. destruct (lo <=? count) eqn:L; [|discriminate]. apply Nat.leb_le in L.
      repeat split; [lia|lia| destruct hi; [lia|exact I] | exact Hs].
Qed.

Lemma caps_extend_refl (base n : nat) (st : mstate) : caps_extend base n st st.
Proof. exists []. split; [reflexivity|constructor]. Qed.

Lemma caps_extend_trans (base n b1 n1 b2 n2 : nat) (st1 st2 st3 : mstate) :
  base <= b1 -> b1 + n1 <= base + n -> base <= b2 -> b2 + n2 <= base + n ->
  caps_extend b1 n1 st1 st2 -> caps_extend b2 n2 st2 st3 -> caps_extend base n st1 st3.
Proof.
  intros H1 H2 H3 H4 (new1 & E1 & F1) (new2 & E2 & F2).
  exists (new2 ++ new1). split; [now rewrite E2, E1, app_assoc|].
  apply Forall_app. split; eapply List.Forall_impl; try eassumption; simpl; intros; lia.
Qed.

Lemma rep_loop_caps (body : mstate -> (mstate -> option mstate) -> option mstate)
    (greedy : bool) (lo : nat) (hi : option nat) (k : mstate -> option mstate)
    (base n : nat) :
  (forall st k' x, body st k' = Some x ->
     exists st', caps_extend base n st st' /\ k' st' = Some x) ->
  forall fuel count st x,
    rep_loop body greedy lo hi k fuel count st = Some x ->
    exists st', caps_extend base n st st' /\ k st' = Some x.
Proof.
  intros Hbody. induction fuel as [|fuel IH]; intros count st x H.
  - cbn [rep_loop] in H. unfold orelse in H.
    assert (Hs : (if lo <=? count then k st else None) = Some x).
    { destruct greedy; [exact H|].
      destruct (if lo <=? count then k st else None); [exact H|discriminate]. }
    destruct (lo <=? count); [|discriminate]. exists st. split; [apply caps_extend_refl|exact Hs].
  - cbn [rep_loop] in H. unfold orelse in H.
    assert (Hcases :
      (if below hi count
       then body st
              (fun st' => if ms_pos st' <=? ms_pos st then None
                          else rep_loop body greedy lo hi k fuel (S count) st')
       else None) = Some x
      \/ (if lo <=? count then k st else None) = Some x).
    { destruct greedy.
      - destruct (if below hi count then _ else None) as [y|]; [left; exact H|right; exact H].
      - destruct (if lo <=? count then k st else None) as [y|]; [right; exact H|left; exact H]. }
    destruct Hcases as [Ha|Hs].
    + destruct (below hi count); [|discriminate].
      apply Hbody in Ha as (st1 & X1 & Ha).
      destruct (ms_pos st1 <=? ms_pos st); [discriminate|].
      apply IH in Ha as (st2 & X2 & Ha). exists st2. split; [|exact Ha].
      eapply (caps_extend_trans base n base n base n); eauto; lia.
    + destruct (lo <=? count); [|discriminate].
      exists st. split; [apply caps_extend_refl|exact Hs].
Qed.

(** the matcher hands to its continuation a subject to which it has added
    groups of its own indices only *)
Lemma run_caps (M : bool) (r : re) :
  forall base st k x, run M r base st k = Some x ->
    exists st', caps_extend base (ngroups r) st st' /\ k st' = Some x.
Proof.
  induction r; intros base st k x H; cbn [run ngroups] in *.
  - exists st. split; [apply caps_extend_refl|exact H].
  - destruct (ms_rest st) as [|a rest]; [discriminate|].
    destruct (in_class _ _ _); [|discriminate].
    exists (advance a rest st). split; [|exact H]. exists []. split; [reflexivity|constructor].
  - apply IHr1 in H as (st1 & X1 & H). apply IHr2 in H as (st2 & X2 & H).
    exists st2. split; [|exact H].
    eapply (caps_extend_trans base _ base (ngroups r1) (base + ngroups r1) (ngroups r2));
      eauto; lia.
  - destruct (run M r1 base st k) eqn:E.
    + injection H as <-. apply IHr1 in E as (st1 & X1 & E). exists st1. split; [|exact E].
      destruct X1 as (new & E1 & F). exists new. split; [exact E1|].
      eapply List.Forall_impl; [|exact F]. simpl. intros; lia.
    + apply IHr2 in H as (st1 & X1 & H). exists st1. split; [|exact H].
      destruct X1 as (new & E1 & F). exists new. split; [exact E1|].
      eapply List.Forall_impl; [|exact F]. simpl. intros; lia.
  - eapply rep_loop_caps; [|exact H]. intros st0 k' y Hy. eapply IHr, Hy.
  - apply IHr in H as (st1 & (new & E1 & F) & H).
    eexists. split; [|exact H].
    exists ((S base, (ms_pos st, ms_pos st1)) :: new). split; [simpl; now rewrite E1|].
    constructor; [simpl; lia|]. eapply List.Forall_impl; [|exact F]. simpl. intros; lia.
  - destruct (at_bol M st); [|discriminate].
    exists st. split; [apply caps_extend_refl|exact H].
  - destruct (at_eol M st); [|discriminate].
    exists st. split; [apply caps_extend_refl|exact H].
  - destruct (run M r base st Some); [discriminate|].
    exists st. split; [apply caps_extend_refl|exact H].
  - destruct (ms_prev st); [|discriminate]. destruct (in_class _ _ _); [|discriminate].
    exists st. split; [apply caps_extend_refl|exact H].
Qed.

(** a named group: what its continuation receives has the group closed
    last, over the part of the subject that its body matched *)
Lemma run_group (M : bool) (name : option string) (r : re) (base : nat) (st : mstate)
    (k : mstate -> option mstate) (x : mstate) :
  run M (Grp name r) base st k = Some x ->
  exists st1, caps_extend (S base) (ngroups r) st st1
              /\ k (close_group (S base) (ms_pos st) st1) = Some x.
Proof. cbn [run]. intros H. apply run_caps in H as (st1 & X1 & H). eauto. Qed.

Lemma assoc_app_r {A} (i : nat) (l1 l2 : list (nat * A)) :
  Forall (fun e => fst e <> i) l1 -> assoc i (l1 ++ l2) = assoc i l2.
Proof.
  induction 1 as [|[j v] l1 Hj _ IH]; simpl; [reflexivity|].
  simpl in Hj. destruct (i =? j) eqn:E; [apply Nat.eqb_eq in E; congruence|exact IH].
Qed.

Lemma sassoc_NoDup {A} (k : string) (v : A) (l : list (string * A)) :
  NoDup (map fst l) -> In (k, v) l -> sassoc k l = Some v.
Proof.
  induction l as [|[k' v'] l IH]; simpl; intros Hn Hin; [destruct Hin|].
  apply NoDup_cons in Hn as [Hk Hn].
  destruct Hin as [[= -> ->]|Hin].
  - now rewrite String.eqb_refl.
  - destruct (String.eqb k k') eqn:E; [|auto].
    apply String.eqb_eq in E as ->. exfalso. apply Hk.
    apply list_elem_of_In, in_map_iff. exists (k', v). auto.
Qed.

(** A match of the pattern of [compile_sc] is a match of the pattern of one
    rule of the list, the group of which is closed last. *)
Lemma alts_named_branch (spec : gmap string re) (M : bool) :
  forall names parts base st x,
    named_rules spec names = Ok parts -> names <> [] ->
    run M (alts parts) base st Some = Some x ->
    exists k r b, In k names /\ spec !! k = Some r
                  /\ run M (Named k r) b st Some = Some x
                  /\ ms_last x = Some (S b)
                  /\ name_of (S b) (group_names (alts parts) base) = Some k
                  /\ incl (group_names (Named k r) b) (group_names (alts parts) base).
Proof.
  induction names as [|k0 names IH]; intros parts base st x Hn Hne H; [congruence|].
  simpl in Hn. destruct (spec !! k0) as [r|] eqn:Hk0; [|discriminate].
  apply bind_Ok in Hn as (l & Hl & [= <-]).
  assert (Hhead : forall y, run M (Named k0 r) base st Some = Some y ->
                            ms_last y = Some (S base)).
  { intros y Hy. unfold Named in Hy. cbn [run] in Hy.
    apply run_from_k in Hy as (st1 & [= <-]). reflexivity. }
  destruct names as [|k1 names].
  - injection Hl as <-. simpl alts in *. exists k0, r, base.
    split; [now left|]. split; [exact Hk0|]. split; [exact H|].
    split; [now apply Hhead|]. split; [simpl; now rewrite Nat.eqb_refl|apply incl_refl].
  - destruct l as [|r1 l].
    { simpl in Hl. destruct (spec !! k1); [|discriminate].
      apply bind_Ok in Hl as (? & _ & [=]). }
    change (alts (Named k0 r :: r1 :: l)) with (Alt (Named k0 r) (alts (r1 :: l))) in *.
    cbn [run] in H. cbn [group_names].
    destruct (run M (Named k0 r) base st Some) as [y|] eqn:E.
    + injection H as <-. exists k0, r, base.
      split; [now left|]. split; [exact Hk0|]. split; [exact E|].
      split; [now apply Hhead|]. split; [simpl; now rewrite Nat.eqb_refl|].
      apply incl_appl, incl_refl.
    + destruct (IH (r1 :: l) _ st x Hl ltac:(discriminate) H)
        as (k & r' & b & Hin & Hs & Hr & Hlast & Hname & Hincl).
      exists k, r', b. split; [now right|]. split; [exact Hs|]. split; [exact Hr|].
      split; [exact Hlast|]. split; [|now apply incl_appr].
      rewrite name_of_app_r; [exact Hname|].
      intros n Hn. apply group_names_range in Hn.
      apply name_of_In, group_names_range in Hname. lia.
Qed.

Lemma stake_length (n : nat) (s : string) :
  n <= String.length s -> String.length (stake n s) = n.
Proof.
  revert s. induction n as [|n IH]; intros s H; destruct s; simpl in *; try lia.
  now rewrite IH by lia.
Qed.

(** a match that [search] returns is a match of the pattern at its start *)
Lemma re_search_run (p : pattern) (s : string) (pos : nat) (m : Match) :
  pos <= String.length s ->
  re_search p s pos = Some m ->
  exists x, run_at (p_multiline p) (p_re p) s (m_start m) = Some x
            /\ m = to_match p s (m_start m) x
            /\ pos <= m_start m <= String.length s.
Proof.
  intros Hpos H. unfold re_search, start_state in H.
  rewrite Nat.min_l in H by exact Hpos. cbn [ms_pos ms_prev ms_rest] in H.
  pose proof (search_from_first (p_multiline p) (p_re p) s _ pos eq_refl Hpos) as F.
  destruct (search_from _ _ _ _ _) as [[q x]|]; [|discriminate].
  destruct F as (Hq & Hr & _). injection H as <-. simpl. eauto.
Qed.


(** ** Registering a rule (C9) *)





(** ** Compiling and dispatching rules *)

(** X2: dispatch.  A match of a matcher that [compile_sc] has just compiled
    (no entry of the cache was used) has, as its [lastgroup], the name of a
    rule of the list the matcher was compiled from, which has a pattern in
    the specification; with an empty rule list every match has no
    [lastgroup]. *)
Theorem compile_sc_match_names_rule (self self' : BlockParser)
    (rules_arg : option (list string)) (sc : pattern) (s : string) (pos : nat) (m : Match) :
  __sc self !! sc_key rules_arg = None ->
  compile_sc self rules_arg = Ok (sc, self') ->
  re_search sc s pos = Some m \/ re_match sc s pos = Some m ->
  match rules_of self rules_arg with
  | [] => m_lastgroup m = None
  | _ => exists k r, m_lastgroup m = Some k /\ In k (rules_of self rules_arg)
                     /\ specification self !! k = Some r
  end.
Proof.
  intros Hmiss Hc Hm.
  assert (Hparts : exists parts, named_rules (specification self) (rules_of self rules_arg)
                                 = Ok parts /\ sc = Pattern (alts parts) true).
  { unfold compile_sc in Hc. destruct rules_arg as [r|]; simpl in Hmiss, Hc |- *;
      rewrite Hmiss in Hc; apply bind_Ok in Hc as (parts & Hparts & [= <- <-]); eauto. }
  destruct Hparts as (parts & Hparts & ->).
  assert (Hrun : exists st0 st', ms_last st0 = None
                   /\ run true (alts parts) 0 st0 Some = Some st'
                   /\ m_lastindex m = ms_last st'
                   /\ m_names m = group_names (alts parts) 0).
  { destruct Hm as [Hm|Hm].
    - unfold re_search in Hm. cbn [p_re p_multiline] in Hm.
      destruct (search_from _ _ _ _ _) as [[q st']|] eqn:E; [|discriminate].
      injection Hm as <-. apply search_from_run in E as (st0 & L & E). eauto 10.
    - unfold re_match in Hm. cbn [p_re p_multiline] in Hm.
      destruct (run _ _ _ _ _) as [st'|] eqn:E; [|discriminate].
      injection Hm as <-. eexists _, _. split; [|split; [exact E|split; reflexivity]].
      reflexivity. }
  destruct Hrun as (st0 & st' & L0 & R & Hlast & Hnames).
  unfold m_lastgroup. rewrite Hlast, Hnames.
  destruct (rules_of self rules_arg) as [|k0 rules].
  - injection Hparts as <-. simpl in R. injection R as <-. now rewrite L0.
  - destruct (alts_named_branch _ _ _ _ _ _ _ Hparts ltac:(discriminate) R)
      as (k & r & b & Hin & Hk & _ & Hl & Hn & _).
    rewrite Hl. eauto.
Qed.

Lemma compile_sc_match_names_rule_witness :
  exists k r,
    m_lastgroup (match_at (default_matcher sample_externals) (lit "# a\n") 0) = Some k
    /\ In k RULE_NAMES
    /\ specification (default_parser sample_externals) !! k = Some r.
Proof.
  eapply (compile_sc_match_names_rule (default_parser sample_externals) _ None
            (default_matcher sample_externals) (lit "# a\n") 0).
  - vm_compute. reflexivity.
  - vm_compute. reflexivity.
  - right. vm_compute. reflexivity.
Defined.

(** X1: [compile_sc] compiles the matcher of a key once.  After a call that
    returned a matcher, every call whose rule list has the same key (the
    names joined by a bar, or [$] for the active rules) returns that same
    matcher and leaves the parser as it is, whatever the names in the list
    are: two lists with the same joined key share one matcher. *)
Theorem compile_sc_cached (self self1 : BlockParser) (rules rules' : option (list string))
    (sc : pattern) :
  compile_sc self rules = Ok (sc, self1) ->
  sc_key rules' = sc_key rules ->
  compile_sc self1 rules' = Ok (sc, self1).
Proof.
  intros H K. unfold compile_sc in *.
  assert (E : __sc self1 !! sc_key rules = Some sc).
  { destruct rules as [r|]; simpl in *.
    - destruct (__sc self !! join_bar r) as [c|] eqn:L.
      + injection H as <- <-. exact L.
      + apply bind_Ok in H as (parts & _ & [= <- <-]). simpl. apply lookup_insert_eq.
    - destruct (__sc self !! "$") as [c|] eqn:L.
      + injection H as <- <-. exact L.
      + apply bind_Ok in H as (parts & _ & [= <- <-]). simpl. apply lookup_insert_eq. }
  rewrite <- K in E.
  destruct rules' as [r'|]; simpl in E; now rewrite E.
Qed.

Lemma compile_sc_cached_witness :
  match compile_sc (default_parser sample_externals) (Some ["blank_line"; "fenced_code"]) with
  | Ok (sc, self1) => compile_sc self1 (Some ["blank_line|fenced_code"]) = Ok (sc, self1)
  | _ => False
  end.
Proof.
  destruct (compile_sc (default_parser sample_externals) (Some ["blank_line"; "fenced_code"]))
    as [[sc self1]| |] eqn:E; [|vm_compute in E; discriminate ..].
  apply (compile_sc_cached _ _ _ _ _ E). reflexivity.
Defined.

Lemma named_rules_missing (spec : gmap string re) (pre post : list string) (k : string) :
  (forall k', In k' pre -> is_Some (spec !! k')) ->
  spec !! k = None ->
  named_rules spec (pre ++ k :: post) = Raise (KeyError k).
Proof.
  intros Hpre Hk. induction pre as [|k0 pre IH]; simpl.
  - now rewrite Hk.
  - destruct (Hpre k0 ltac:(now left)) as [r ->].
    rewrite IH; [reflexivity|]. intros k' Hin. apply Hpre. now right.
Qed.

Section Dispatch.
Variable X : externals.

(** X3: [register_rule] adds the name to the active rules and not to the
    specification.  For a name that has no pattern there, on a parser whose
    other active rules have one and which has not compiled the matcher of
    its active rules yet, the next [compile_sc(None)], and with it the next
    [parse], raises [KeyError] of that name. *)
Theorem register_rule_needs_pattern (self self' : BlockParser) (name : string)
    (before : option string) (fuel : nat) (st : BlockState) :
  register_rule self name before = Ok self' ->
  __sc self !! "$" = None ->
  specification self !! name = None ->
  (forall k, In k (rules self) -> is_Some (specification self !! k)) ->
  compile_sc self' None = Raise (KeyError name)
  /\ parse X (S fuel) self' st None = Raise (KeyError name).
Proof.
  intros Hreg Hmiss Hname Hall.
  assert (Hc : compile_sc self' None = Raise (KeyError name)).
  { unfold register_rule in Hreg. unfold compile_sc.
    assert (Hsplit : exists pre post, rules self' = pre ++ name :: post
                        /\ (forall k, In k pre -> In k (rules self))
                        /\ __sc self' = __sc self /\ specification self' = specification self).
    { destruct before as [[|c b]|]; simpl in Hreg.
      - injection Hreg as <-. exists (rules self), []. simpl. auto.
      - destruct (index_of (String c b) (rules self)) as [i|] eqn:I; [|discriminate].
        injection Hreg as <-.
        destruct (index_of_split _ _ _ I) as (pre & post & E & _ & <-).
        exists pre, (String c b :: post). simpl. rewrite E, insert_at_split.
        repeat split; auto. intros k Hin. apply in_or_app. now left.
      - injection Hreg as <-. exists (rules self), []. simpl. auto. }
    destruct Hsplit as (pre & post & -> & Hpre & -> & ->).
    rewrite Hmiss, named_rules_missing; auto. }
  split; [exact Hc|]. cbn [parse]. now rewrite Hc.
Qed.

(** X4: the handler that [register_rule] stores is a function of one
    argument, and [parse_method] calls handlers with two: once a rule is
    registered, a match of that rule makes [parse_method] raise
    [TypeError]. *)
Theorem registered_rule_is_not_callable (self self' : BlockParser) (name : string)
    (before : option string) (fuel : nat) (m : Match) (st : BlockState) :
  register_rule self name before = Ok self' ->
  m_lastgroup m = Some name ->
  parse_method X (S fuel) self' (Some m) st
  = Raise (TypeError "<lambda>() takes 1 positional argument but 2 were given").
Proof.
  intros Hreg Hm. cbn [parse_method]. rewrite Hm.
  assert (L : __methods self' !! name = Some MLambda).
  { unfold register_rule in Hreg.
    destruct before as [[|c b]|]; simpl in Hreg;
      [| destruct (index_of _ _); [|discriminate] |];
      injection Hreg as <-; simpl; apply lookup_insert_eq. }
  now rewrite L.
Qed.

Lemma bound_methods_lookup (names : list string) (g : string) :
  bound_methods names !! g = if mem g names then Some (MBound g) else None.
Proof.
  unfold bound_methods, mem. induction names as [|n names IH]; simpl; [reflexivity|].
  destruct (String.eqb g n) eqn:E.
  - apply String.eqb_eq in E as ->. simpl. apply lookup_insert_eq.
  - simpl. rewrite lookup_insert_ne; [exact IH|].
    intros ->. now rewrite String.eqb_refl in E.
Qed.

(** X5: [__init__] gives handlers to the nine names of [RULE_NAMES] only,
    whatever rule lists it is given.  A match whose [lastgroup] is another
    name, such as [list] or [block_html], which have patterns in the
    specification, makes [parse_method] raise [KeyError] of that name. *)
Theorem unlisted_rule_has_no_handler (rules block_quote_rules list_rules : option (list string))
    (level fuel : nat) (m : Match) (st : BlockState) (g : string) :
  m_lastgroup m = Some g ->
  mem g RULE_NAMES = false ->
  parse_method X (S fuel) (BlockParser_init X rules block_quote_rules list_rules level)
               (Some m) st = Raise (KeyError g).
Proof.
  intros Hm Hg. cbn [parse_method]. rewrite Hm. unfold BlockParser_init. cbn [__methods].
  now rewrite bound_methods_lookup, Hg.
Qed.
End Dispatch.

Lemma register_rule_needs_pattern_witness :
  parse sample_externals 1
        (set_rules (RULE_NAMES ++ ["custom"])
           (set_methods (<["custom" := MLambda]> (bound_methods RULE_NAMES))
              (default_parser sample_externals)))
        (document "x") None
  = Raise (KeyError "custom").
Proof.
  refine (proj2 (register_rule_needs_pattern sample_externals
                   (default_parser sample_externals) _ "custom" None 0 (document "x")
                   _ _ _ _)).
  - reflexivity.
  - vm_compute. reflexivity.
  - vm_compute. reflexivity.
  - intros k Hin. simpl in Hin.
    repeat (destruct Hin as [<-|Hin]; [vm_compute; eauto|]). destruct Hin.
Defined.

Lemma registered_rule_is_not_callable_witness :
  parse_method sample_externals 1
    (set_rules (RULE_NAMES ++ ["custom"])
       (set_methods (<["custom" := MLambda]> (bound_methods RULE_NAMES))
          (default_parser sample_externals)))
    (Some (match_at (Pattern (Named "custom" (Str "@")) true) "@" 0)) (document "@")
  = Raise (TypeError "<lambda>() takes 1 positional argument but 2 were given").
Proof.
  apply (registered_rule_is_not_callable sample_externals
           (default_parser sample_externals) _ "custom" None).
  - reflexivity.
  - vm_compute. reflexivity.
Defined.

Lemma unlisted_rule_has_no_handler_witness :
  parse_method sample_externals 1
    (BlockParser_init sample_externals (Some (RULE_NAMES ++ ["list"])) None None 6)
    (Some (match_at (Pattern (Named "list" LIST) true) (lit "- a\n") 0))
    (document (lit "- a\n"))
  = Raise (KeyError "list").
Proof.
  apply unlisted_rule_has_no_handler.
  - vm_compute. reflexivity.
  - vm_compute. reflexivity.
Defined.

(** ** HTML blocks *)

Lemma stake_app (a b : nat) (s : string) :
  stake a s +:+ stake b (sdrop a s) = stake (a + b) s.
Proof.
  revert s. induction a as [|a IH]; intros s; simpl; [reflexivity|].
  destruct s as [|c s]; simpl.
  - now destruct b.
  - unfold String.app in *. simpl. f_equal. apply IH.
Qed.

Lemma slice_app (a b c : nat) (s : string) :
  a <= b -> b <= c -> slice a b s +:+ slice b c s = slice a c s.
Proof.
  intros Hab Hbc. unfold slice.
  replace (sdrop b s) with (sdrop (b - a) (sdrop a s))
    by (rewrite sdrop_sdrop; f_equal; lia).
  rewrite stake_app. f_equal. lia.
Qed.

Lemma stake_all (n : nat) (s : string) : String.length s <= n -> stake n s = s.
Proof.
  revert s. induction n as [|n IH]; intros s H; destruct s; simpl in *; try reflexivity; try lia.
  f_equal. apply IH. lia.
Qed.

Lemma slice_to_end (a : nat) (s : string) : slice a (String.length s) s = sdrop a s.
Proof. unfold slice. apply stake_all. rewrite sdrop_length. lia. Qed.

Lemma find_from_aux_spec (sub : string) (s : string) :
  forall pos,
    match find_from_aux sub s pos with
    | Some p => pos <= p <= pos + String.length s
                /\ String.prefix sub (sdrop (p - pos) s) = true
                /\ forall q, pos <= q < p -> String.prefix sub (sdrop (q - pos) s) = false
    | None => forall q, pos <= q <= pos + String.length s ->
                        String.prefix sub (sdrop (q - pos) s) = false
    end.
Proof.
  induction s as [|c s IH]; intros pos; cbn [find_from_aux].
  - destruct (String.prefix sub "") eqn:E.
    + rewrite Nat.sub_diag. simpl. repeat split; try lia. exact E.
    + intros q Hq. simpl in Hq. replace (q - pos) with 0 by lia. exact E.
  - destruct (String.prefix sub (String c s)) eqn:E.
    + rewrite Nat.sub_diag. simpl sdrop. repeat split; try lia. exact E.
    + specialize (IH (S pos)).
      destruct (find_from_aux sub s (S pos)) as [p|].
      * destruct IH as (Hp & Hpre & Hfirst). simpl String.length.
        split; [lia|]. split.
        -- replace (p - pos) with (S (p - S pos)) by lia. exact Hpre.
        -- intros q Hq. destruct (Nat.eq_dec q pos) as [->|Hne].
           ++ now rewrite Nat.sub_diag.
           ++ replace (q - pos) with (S (q - S pos)) by lia. apply Hfirst. lia.
      * intros q Hq. simpl in Hq. destruct (Nat.eq_dec q pos) as [->|Hne].
        -- now rewrite Nat.sub_diag.
        -- replace (q - pos) with (S (q - S pos)) by lia. apply IH. lia.
Qed.

(** [s.find(sub, start)] gives the first offset, from [start] on, at which
    [sub] occurs *)
Lemma find_from_spec (sub s : string) (start : nat) :
  match find_from sub s start with
  | Some p => start <= p <= String.length s
              /\ String.prefix sub (sdrop p s) = true
              /\ forall q, start <= q < p -> String.prefix sub (sdrop q s) = false
  | None => forall q, start <= q <= String.length s ->
                      String.prefix sub (sdrop q s) = false
  end.
Proof.
  unfold find_from. destruct (String.length s <? start) eqn:L.
  - apply Nat.ltb_lt in L. intros q Hq. lia.
  - apply Nat.ltb_ge in L.
    pose proof (find_from_aux_spec sub (sdrop start s) start) as H.
    rewrite sdrop_length in H.
    destruct (find_from_aux sub (sdrop start s) start) as [p|].
    + destruct H as (Hp & Hpre & Hfirst). split; [lia|]. split.
      * rewrite sdrop_sdrop in Hpre. now replace (start + (p - start)) with p in Hpre by lia.
      * intros q Hq. specialize (Hfirst q Hq). rewrite sdrop_sdrop in Hfirst.
        now replace (start + (q - start)) with q in Hfirst by lia.
    + intros q Hq. specialize (H q ltac:(lia)). rewrite sdrop_sdrop in H.
      now replace (start + (q - start)) with q in H by lia.
Qed.

Lemma prefix_nonempty (sub s : string) :
  sub <> "" -> String.prefix sub s = true -> 0 < String.length s.
Proof. destruct sub; [congruence|]. destruct s; simpl; [discriminate|lia]. Qed.

(** the end of the line of the cursor is after the cursor and within the
    source *)
Lemma find_line_end_bounds (st : BlockState) :
  cursor st <= cursor_max st -> cursor_max st = String.length (src st) ->
  cursor st <= find_line_end st <= cursor_max st
  /\ (cursor st < cursor_max st -> cursor st < find_line_end st).
Proof.
  intros Hc Hm. unfold find_line_end.
  pose proof (find_from_spec (String NL "") (src st) (cursor st)) as H.
  destruct (find_from _ _ _) as [i|]; [|lia].
  destruct H as (Hi & Hpre & _).
  apply prefix_nonempty in Hpre; [|discriminate]. rewrite sdrop_length in Hpre. lia.
Qed.

Lemma prefix_chars (a b : string) :
  String.prefix a b = true ->
  String.length a <= String.length b
  /\ stake (String.length a) b = a
  /\ forall k, k < String.length a -> String.get k b = String.get k a.
Proof.
  revert b. induction a as [|x a IH]; intros b H.
  - simpl. split; [lia|]. split; [reflexivity|]. intros k Hk. simpl in Hk. lia.
  - destruct b as [|y b]; [discriminate|]. simpl in H.
    destruct (Ascii.ascii_dec x y) as [->|]; [|discriminate].
    destruct (IH b H) as (L & T & G). simpl. split; [lia|]. split; [now rewrite T|].
    intros [|k] Hk; [reflexivity|]. simpl. apply G. simpl in Hk. lia.
Qed.

Lemma get_sdrop (p k : nat) (s : string) : String.get k (sdrop p s) = String.get (p + k) s.
Proof.
  revert s. induction p as [|p IH]; intros s; [reflexivity|].
  destruct s as [|c s]; simpl; [now destruct k|]. apply IH.
Qed.

Lemma has_char_get (c : ascii) (s : string) (k : nat) :
  has_char c s = false -> String.get k s <> Some c.
Proof.
  revert k. induction s as [|d s IH]; intros k H; [now destruct k|].
  simpl in H. apply orb_false_elim in H as [Hd Hs].
  destruct k as [|k]; simpl.
  - intros [= ->]. now rewrite Ascii.eqb_refl in Hd.
  - now apply IH.
Qed.

Lemma get_in_range (s : string) (q : nat) (c : ascii) :
  String.get q s = Some c -> q < String.length s.
Proof.
  revert q. induction s as [|d s IH]; intros q H; [now destruct q|].
  destruct q as [|q]; simpl in *; [lia|]. apply IH in H. lia.
Qed.

Lemma prefix_one_get (c : ascii) (s : string) (q : nat) :
  String.prefix (String c "") (sdrop q s) = (if String.get q s is Some d then Ascii.eqb c d else false).
Proof.
  rewrite <- (Nat.add_0_r q) at 2. rewrite <- get_sdrop.
  destruct (sdrop q s) as [|d t]; [reflexivity|]. simpl.
  destruct (Ascii.ascii_dec c d) as [->|Hne].
  - rewrite Ascii.eqb_refl. now destruct t.
  - apply Ascii.eqb_neq in Hne. now rewrite Hne.
Qed.

(** X6: [_parse_html_to_end] appends one [block_html] token whose [raw] is
    the source from the cursor to the offset it returns, which is within
    the source.  When the end marker does not occur from [start_pos] on,
    that offset is the end of the source.  Otherwise, with [p] the first
    occurrence from [start_pos] on, the offset is the end of the line that
    [p] is on: no newline lies between [p] and the character before the
    offset, and that character is a newline unless the source ends before
    one; for a marker that holds no newline, the whole occurrence is
    before the offset. *)
Theorem _parse_html_to_end_verbatim (st : BlockState) (end_marker : string)
    (start_pos : nat) :
  cursor st <= start_pos -> cursor st <= cursor_max st ->
  cursor_max st = String.length (src st) ->
  exists e,
    fst (_parse_html_to_end st end_marker start_pos) = RPos e
    /\ tokens (snd (_parse_html_to_end st end_marker start_pos))
       = tokens st ++ [block_html_token (slice (cursor st) e (src st))]
    /\ cursor st <= e <= cursor_max st
    /\ match find_from end_marker (src st) start_pos with
       | Some p =>
           start_pos <= p <= e
           /\ slice p (p + String.length end_marker) (src st) = end_marker
           /\ (forall q, start_pos <= q < p ->
                 String.prefix end_marker (sdrop q (src st)) = false)
           /\ (forall q, p <= q -> q + 1 < e -> String.get q (src st) <> Some NL)
           /\ ((p < e /\ String.get (e - 1) (src st) = Some NL)
               \/ (e = cursor_max st
                   /\ forall q, p <= q -> String.get q (src st) <> Some NL))
           /\ (has_char NL end_marker = false -> p + String.length end_marker <= e)
       | None =>
           e = cursor_max st
           /\ forall q, start_pos <= q <= String.length (src st) ->
                String.prefix end_marker (sdrop q (src st)) = false
       end.
Proof.
  intros Hs Hc Hm. unfold _parse_html_to_end.
  pose proof (find_from_spec end_marker (src st) start_pos) as F.
  destruct (find_from end_marker (src st) start_pos) as [p|].
  - destruct F as (Hp & Hpre & Hfirst).
    destruct (prefix_chars _ _ Hpre) as (Hlen & Htake & Hget).
    rewrite sdrop_length in Hlen.
    set (st1 := set_cursor p st).
    destruct (find_line_end_bounds st1) as (Hb & _); [simpl; lia | exact Hm |].
    cbn [cursor cursor_max set_cursor st1] in Hb.
    exists (find_line_end st1). cbn [fst snd]. split; [reflexivity|]. split.
    { unfold get_text. cbn [tokens append_token set_tokens set_cursor st1 src cursor].
      f_equal. f_equal. f_equal. apply slice_app; lia. }
    split; [lia|]. split; [lia|]. split.
    { unfold slice. now replace (p + String.length end_marker - p)
                         with (String.length end_marker) by lia. }
    split; [exact Hfirst|].
    unfold find_line_end in *. cbn [src cursor cursor_max st1 set_cursor] in *.
    pose proof (find_from_spec (String NL "") (src st) p) as N.
    destruct (find_from (String NL "") (src st) p) as [i|].
    + destruct N as (Hi & Hnl & Hnone).
      rewrite prefix_one_get in Hnl.
      destruct (String.get i (src st)) as [d|] eqn:G; [|discriminate].
      apply Ascii.eqb_eq in Hnl as <-.
      split; [|split].
      * intros q Hq Hq' E. specialize (Hnone q ltac:(lia)).
        rewrite prefix_one_get, E, Ascii.eqb_refl in Hnone. discriminate.
      * left. split; [lia|]. now replace (S i - 1) with i by lia.
      * intros Hno. destruct (Nat.le_gt_cases (p + String.length end_marker) (S i)) as [|Hgt];
          [assumption|exfalso].
        specialize (Hget (i - p) ltac:(lia)). rewrite get_sdrop in Hget.
        replace (p + (i - p)) with i in Hget by lia. rewrite G in Hget.
        symmetry in Hget. exact (has_char_get _ _ _ Hno Hget).
    + assert (Hnone : forall q, p <= q -> String.get q (src st) <> Some NL).
      { intros q Hq E.
        pose proof (get_in_range _ _ _ E).
        specialize (N q ltac:(lia)).
        rewrite prefix_one_get, E, Ascii.eqb_refl in N. discriminate. }
      split; [|split].
      * intros q Hq _. now apply Hnone.
      * right. split; [reflexivity|exact Hnone].
      * intros _. lia.
  - exists (cursor_max st). cbn [fst snd]. split; [reflexivity|]. split.
    + cbn [tokens append_token set_tokens]. now rewrite Hm, slice_to_end.
    + split; [lia|]. split; [reflexivity|exact F].
Qed.
Section Html.
Variable X : externals.

(** X7: [_parse_html_to_newline] appends one [block_html] token whose [raw]
    is the source from the cursor to the offset it returns, and leaves the
    rest of the state as it is; the pattern matches at no offset between
    the cursor and the returned one, and it matches at the returned offset
    when that is before the end of the source. *)
Theorem _parse_html_to_newline_verbatim (st : BlockState) (newline : pattern) :
  cursor st <= cursor_max st -> cursor_max st = String.length (src st) ->
  exists e,
    _parse_html_to_newline st newline
    = (RPos e, append_token (block_html_token (slice (cursor st) e (src st))) st)
    /\ cursor st <= e <= cursor_max st
    /\ (forall q, cursor st <= q < e ->
          run_at (p_multiline newline) (p_re newline) (src st) q = None)
    /\ (e < cursor_max st ->
          is_Some (run_at (p_multiline newline) (p_re newline) (src st) e)).
Proof.
  intros Hc Hm. unfold _parse_html_to_newline.
  pose proof (re_search_first newline (src st) (cursor st) ltac:(lia)) as S.
  destruct (re_search newline (src st) (cursor st)) as [m|].
  - destruct S as (Hs & (st' & Hr & _) & Hfirst).
    exists (m_start m). split; [reflexivity|]. split; [lia|]. split; [exact Hfirst|].
    intros _. rewrite Hr. eauto.
  - exists (cursor_max st). split; [now rewrite Hm, slice_to_end|].
    split; [lia|]. split; [|lia]. intros q Hq. apply S. lia.
Qed.

(** X8: [parse_raw_html] has three outcomes.  It appends one [block_html]
    token, whose [raw] is the source from the cursor to the offset
    returned; or, a paragraph being open, it adds the line to that
    paragraph ([append_paragraph]) and returns the end of the line; or it
    returns [None] and leaves the state as it is. *)
Theorem parse_raw_html_outcomes (m : Match) (st st' : BlockState) (r : pyret) :
  cursor st <= m_end m -> cursor st < cursor_max st ->
  cursor_max st = String.length (src st) ->
  parse_raw_html X m st = Ok (r, st') ->
  (exists e, r = RPos e /\ cursor st <= e <= cursor_max st
             /\ tokens st' = tokens st ++ [block_html_token (slice (cursor st) e (src st))])
  \/ (exists tok, last_token st = Some tok /\ is_paragraph tok = true
                  /\ append_paragraph st = (Some (find_line_end st), st')
                  /\ r = RPos (find_line_end st))
  \/ (r = RNone /\ st' = st).
Proof.
  intros Hs Hc Hm H.
  assert (Hend : forall mk, exists e,
            Ok (_parse_html_to_end st mk (m_end m)) = Ok (r, st') ->
            r = RPos e /\ cursor st <= e <= cursor_max st
            /\ tokens st' = tokens st ++ [block_html_token (slice (cursor st) e (src st))]).
  { intros mk.
    destruct (_parse_html_to_end_verbatim st mk (m_end m)) as (e & E1 & E2 & E3 & _);
      [lia..|exact Hm|].
    exists e. intros [= Hr]. rewrite Hr in E1, E2. simpl in E1, E2. auto. }
  assert (Hnl : exists e,
            Ok (_parse_html_to_newline st BLANK_LINE) = Ok (r, st') ->
            r = RPos e /\ cursor st <= e <= cursor_max st
            /\ tokens st' = tokens st ++ [block_html_token (slice (cursor st) e (src st))]).
  { destruct (_parse_html_to_newline_verbatim st BLANK_LINE) as (e & E1 & E2 & _);
      [lia|exact Hm|].
    exists e. rewrite E1. intros [= <- <-]. auto. }
  unfold parse_raw_html in H. apply bind_Ok in H as (whole & _ & H).
  repeat match type of H with
         | (if ?b then _ else _) = _ => destruct b
         | Ok (_parse_html_to_end st ?mk _) = _ =>
             destruct (Hend mk) as (e & He); left; exists e; exact (He H)
         | Ok (_parse_html_to_newline st _) = _ =>
             destruct Hnl as (e & He); left; exists e; exact (He H)
         end.
  destruct (append_paragraph_cases st) as [AP | (tok & L & P & AP)]; rewrite AP in H.
  - simpl in H. destruct (negb _); [|injection H as <- <-; auto].
    destruct (re_match_until _ _ _ _); [|injection H as <- <-; auto].
    destruct Hnl as (e & He). left. exists e. exact (He H).
  - destruct (find_line_end_bounds st) as (_ & Hlt); [lia|exact Hm|].
    specialize (Hlt Hc).
    assert (T : truthy (of_pos (Some (find_line_end st))) = true)
      by (simpl; destruct (find_line_end st); [lia|reflexivity]).
    rewrite T in H. injection H as <- <-. right. left. exists tok. auto.
Qed.
End Html.

Lemma _parse_html_to_end_verbatim_witness :
  exists e,
    fst (_parse_html_to_end (document (lit "<!-- a -->\nb\n")) "-->" 4) = RPos e
    /\ tokens (snd (_parse_html_to_end (document (lit "<!-- a -->\nb\n")) "-->" 4))
       = [block_html_token (slice 0 e (lit "<!-- a -->\nb\n"))]
    /\ 0 <= e <= 13
    /\ (4 <= 7 <= e
        /\ slice 7 (7 + 3) (lit "<!-- a -->\nb\n") = "-->"
        /\ (forall q, 4 <= q < 7 ->
              String.prefix "-->" (sdrop q (lit "<!-- a -->\nb\n")) = false)
        /\ (forall q, 7 <= q -> q + 1 < e ->
              String.get q (lit "<!-- a -->\nb\n") <> Some NL)
        /\ ((7 < e /\ String.get (e - 1) (lit "<!-- a -->\nb\n") = Some NL)
            \/ (e = 13 /\ forall q, 7 <= q -> String.get q (lit "<!-- a -->\nb\n") <> Some NL))
        /\ (has_char NL "-->" = false -> 7 + 3 <= e)).
Proof.
  apply (_parse_html_to_end_verbatim (document (lit "<!-- a -->\nb\n")) "-->" 4).
  - simpl. lia.
  - simpl. lia.
  - reflexivity.
Defined.

Lemma _parse_html_to_newline_verbatim_witness :
  exists e,
    _parse_html_to_newline (document (lit "<div>\na\n\nb\n")) BLANK_LINE
    = (RPos e, append_token (block_html_token (slice 0 e (lit "<div>\na\n\nb\n")))
                            (document (lit "<div>\na\n\nb\n")))
    /\ 0 <= e <= 11
    /\ (forall q, 0 <= q < e -> run_at true blank_line_re (lit "<div>\na\n\nb\n") q = None)
    /\ (e < 11 -> is_Some (run_at true blank_line_re (lit "<div>\na\n\nb\n") e)).
Proof.
  apply (_parse_html_to_newline_verbatim (document (lit "<div>\na\n\nb\n")) BLANK_LINE).
  - simpl. lia.
  - reflexivity.
Defined.

Lemma parse_raw_html_outcomes_witness :
  exists e, RPos 8 = RPos e /\ 0 <= e <= 11
            /\ [block_html_token (lit "<div>\na\n")]
               = [] ++ [block_html_token (slice 0 e (lit "<div>\na\n\nb\n"))].
Proof.
  destruct (parse_raw_html_outcomes sample_externals
              (match_at (rule_pattern sample_externals "raw_html") (lit "<div>\na\n\nb\n") 0)
              (document (lit "<div>\na\n\nb\n"))
              (append_token (block_html_token (lit "<div>\na\n")) (document (lit "<div>\na\n\nb\n")))
              (RPos 8))
    as [H | [(tok & L & _) | (E & _)]].
  - vm_compute. lia.
  - vm_compute. lia.
  - reflexivity.
  - vm_compute. reflexivity.
  - exact H.
  - vm_compute in L. discriminate.
  - discriminate.
Defined.

(** ** ATX headings *)

Lemma spec_axt (X : externals) :
  (list_to_map (SPECIFICATION X) : gmap string re) !! "axt_heading" = Some AXT_HEADING_RE.
Proof. vm_compute. reflexivity. Qed.

Lemma caps_extend_none (base : nat) (st st' : mstate) (i : nat) :
  caps_extend base 0 st st' -> ms_caps st' = ms_caps st.
Proof.
  intros (new & E & F). destruct new as [|e new]; [exact E|].
  apply Forall_cons in F as [F _]. lia.
Qed.

Lemma run_axt (b : nat) (st0 x : mstate) :
  ms_caps st0 = [] ->
  run true (Named "axt_heading" AXT_HEADING_RE) b st0 Some = Some x ->
  exists j0 j,
    j0 <= span (Ascii.eqb SP) (ms_rest st0)
    /\ 1 <= j <= 6
    /\ j <= span (Ascii.eqb "#") (ms_rest (skip j0 st0))
    /\ assoc (S (S b)) (ms_caps x)
       = Some (ms_pos (skip j0 st0), ms_pos (skip j (skip j0 st0)))
    /\ is_Some (assoc (S (S (S b))) (ms_caps x)).
Proof.
  intros Hcaps H. unfold AXT_HEADING_RE in H.
  remember (Alt (Star WS) (Seq (Plus WS) (LazyStar Dot))) as body2 eqn:Ebody2.
  assert (N2 : ngroups body2 = 0) by (subst body2; reflexivity).
  remember (Plus (Chr "#")) as hashes eqn:Ehashes.
  assert (NH : ngroups hashes = 0) by (subst hashes; reflexivity).
  unfold Named, Spaces03, Between, Chr in H.
  cbn [run seqs ngroups] in H. rewrite !Nat.add_0_r in H.
  destruct (at_bol true st0); [|discriminate].
  apply (rep_cls_sound false [COne SP]) in H as (j0 & _ & Hj0 & _ & H).
  rewrite (span_ext _ (Ascii.eqb SP)) in Hj0 by apply in_class_one.
  set (st1 := skip j0 st0) in *.
  apply (rep_cls_sound false [COne "#"]) in H as (j & Hlo & Hj & Hhi & H).
  rewrite (span_ext _ (Ascii.eqb "#")) in Hj by apply in_class_one.
  specialize (Hhi ltac:(lia)). simpl in Hlo, Hhi.
  destruct (run true hashes _ _ Some); [discriminate|].
  apply run_caps in H as (st3 & X3 & H). rewrite N2 in X3.
  apply caps_extend_none in X3; [|exact 0].
  destruct (at_eol true _); [|discriminate]. injection H as <-.
  pose proof (skip_caps j st1) as [C1 _]. pose proof (skip_caps j0 st0) as [C0 _].
  fold st1 in C0.
  exists j0, j. split; [exact Hj0|]. split; [lia|]. split; [exact Hj|]. split.
  - cbn [ms_caps close_group]. rewrite X3. cbn [ms_caps close_group assoc].
    rewrite NH.
    repeat match goal with
           | |- context [?a =? ?e] =>
               rewrite (proj2 (Nat.eqb_neq a e)) by lia
           end.
    now rewrite Nat.eqb_refl.
  - cbn [ms_caps close_group assoc]. rewrite NH.
    repeat match goal with
           | |- context [?a =? ?e] =>
               rewrite (proj2 (Nat.eqb_neq a e)) by lia
           end.
    match goal with
    | |- context [?a =? ?e] => rewrite (proj2 (Nat.eqb_eq a e)) by lia
    end.
    eauto.
Qed.

(** X9: the level of an ATX heading is between 1 and 6.  For a parser with
    the pattern of [axt_heading] of the class, and a matcher that
    [compile_sc] has just compiled and whose group names are distinct (as
    [re.compile] requires), a match found from the cursor whose
    [lastgroup] is [axt_heading] makes [parse_axt_heading] append one
    [heading] token with a level from 1 to 6 and return the offset after
    the end of the match. *)
Theorem axt_heading_level (X : externals) (self self' : BlockParser)
    (rules_arg : option (list string)) (sc : pattern) (st : BlockState) (m : Match) :
  specification self !! "axt_heading" = sassoc "axt_heading" (SPECIFICATION X) ->
  __sc self !! sc_key rules_arg = None ->
  compile_sc self rules_arg = Ok (sc, self') ->
  NoDup (map fst (group_names (p_re sc) 0)) ->
  cursor st <= String.length (src st) ->
  re_search sc (src st) (cursor st) = Some m ->
  m_lastgroup m = Some "axt_heading" ->
  exists level text,
    parse_axt_heading m st
    = Ok (RPos (m_end m + 1),
          append_token [("type", VStr "heading"); ("text", VStr text);
                        ("attrs", VDict [("level", VInt level)])] st)
    /\ 1 <= level <= 6.
Proof.
  intros Hspec Hmiss Hc Hnodup Hcur Hm Hlast.
  assert (Hparts : exists parts, named_rules (specification self) (rules_of self rules_arg)
                                 = Ok parts /\ sc = Pattern (alts parts) true).
  { unfold compile_sc in Hc. destruct rules_arg as [r|]; simpl in Hmiss, Hc |- *;
      rewrite Hmiss in Hc; apply bind_Ok in Hc as (parts & Hparts & [= <- <-]); eauto. }
  destruct Hparts as (parts & Hparts & ->).
  destruct (re_search_run _ _ _ _ Hcur Hm) as (x & Hrun & Em & Hq).
  set (s := src st) in *. set (q := m_start m) in *.
  cbn [p_re p_multiline] in Hrun, Hnodup. unfold run_at in Hrun.
  set (st0 := MState q (char_before q s) (sdrop q s) [] None) in *.
  assert (Hne : rules_of self rules_arg <> []).
  { intros E. rewrite E in Hparts. injection Hparts as <-. simpl in Hrun.
    injection Hrun as <-. rewrite Em in Hlast. discriminate. }
  destruct (alts_named_branch _ _ _ _ _ _ _ Hparts Hne Hrun)
    as (k & r & b & _ & Hk & Hr & Hl & Hname & Hincl).
  assert (Ek : k = "axt_heading").
  { rewrite Em in Hlast. unfold m_lastgroup, to_match in Hlast.
    cbn [m_lastindex m_names p_re] in Hlast. rewrite Hl, Hname in Hlast. congruence. }
  subst k. rewrite Hspec in Hk.
  assert (Er : r = AXT_HEADING_RE) by (vm_compute in Hk; now injection Hk as <-).
  subst r.
  destruct (run_axt b st0 x eq_refl Hr) as (j0 & j & Hj0 & Hj & Hspan & Hcap1 & [c2 Hcap2]).
  assert (Hn1 : sassoc "axt_1" (group_names (alts parts) 0) = Some (S (S b))).
  { apply sassoc_NoDup; [exact Hnodup|]. apply Hincl.
    unfold Named, AXT_HEADING_RE. cbn. rewrite !Nat.add_0_r. auto. }
  assert (Hn2 : sassoc "axt_2" (group_names (alts parts) 0) = Some (S (S (S b)))).
  { apply sassoc_NoDup; [exact Hnodup|]. apply Hincl.
    unfold Named, AXT_HEADING_RE. cbn. rewrite !Nat.add_0_r.
    right. right. left. f_equal. lia. }
  pose proof (span_le (Ascii.eqb SP) (ms_rest st0)) as L0.
  pose proof (span_le (Ascii.eqb "#") (ms_rest (skip j0 st0))) as L1.
  rewrite skip_rest in L1, Hspan. cbn [ms_rest st0] in L0, L1, Hspan.
  rewrite sdrop_sdrop, sdrop_length in L1. rewrite sdrop_length in L0.
  rewrite sdrop_sdrop in Hspan.
  assert (P0 : ms_pos (skip j0 st0) = q + j0)
    by (rewrite skip_pos; [reflexivity|cbn [ms_rest st0]; rewrite sdrop_length; lia]).
  assert (P1 : ms_pos (skip j (skip j0 st0)) = q + j0 + j).
  { rewrite skip_pos, P0; [reflexivity|].
    rewrite skip_rest. cbn [ms_rest st0]. rewrite sdrop_sdrop, sdrop_length. lia. }
  rewrite P0, P1 in Hcap1.
  exists j. destruct c2 as [a2 b2].
  exists (let text := strip (slice a2 b2 s) in
          if negb (String.eqb text "") then re_sub_del _AXT_HEADING_TRIM text else text).
  split; [|lia].
  unfold parse_axt_heading, group. rewrite Em. cbn [m_names to_match p_re m_end m_caps
    m_string m_start]. rewrite Hn1, Hn2. unfold group_index.
  cbn [m_caps m_string to_match]. rewrite Hcap1, Hcap2. cbn [bind].
  replace (String.length (slice (q + j0) (q + j0 + j) s)) with j; [reflexivity|].
  unfold slice. replace (q + j0 + j - (q + j0)) with j by lia.
  symmetry. apply stake_length. rewrite sdrop_length. lia.
Qed.

Lemma axt_heading_level_witness :
  exists level text,
    parse_axt_heading
      (default no_match (re_search (default_matcher sample_externals) (lit "a\n## b #\n") 0))
      (document (lit "a\n## b #\n"))
    = Ok (RPos (m_end (default no_match
                         (re_search (default_matcher sample_externals) (lit "a\n## b #\n") 0))
                + 1),
          append_token [("type", VStr "heading"); ("text", VStr text);
                        ("attrs", VDict [("level", VInt level)])]
                       (document (lit "a\n## b #\n")))
    /\ 1 <= level <= 6.
Proof.
  eapply (axt_heading_level sample_externals (default_parser sample_externals) _ None
            (default_matcher sample_externals) (document (lit "a\n## b #\n"))).
  - vm_compute. reflexivity.
  - vm_compute. reflexivity.
  - vm_compute. reflexivity.
  - refine (bool_decide_unpack _ _). vm_compute. reflexivity.
  - vm_compute. lia.
  - vm_compute. reflexivity.
  - vm_compute. reflexivity.
Defined.

(** ** The helpers of list items *)

Lemma prefix_repeat_char (c : ascii) (k : nat) (s : string) :
  String.prefix (repeat_char c k) s = (k <=? span (Ascii.eqb c) s).
Proof.
  revert s. induction k as [|k IH]; intros s; [now destruct s|].
  destruct s as [|a s]; simpl; [reflexivity|].
  destruct (ascii_dec c a) as [->|Hne].
  - rewrite Ascii.eqb_refl. apply IH.
  - apply Ascii.eqb_neq in Hne. now rewrite Hne.
Qed.

Lemma skip_zero_pos (st : mstate) (j : nat) :
  j <= String.length (ms_rest st) -> ms_pos st = 0 -> ms_pos (skip j st) = j.
Proof. intros H E. rewrite skip_pos, E; [reflexivity|exact H]. Qed.

Section ListHelpers.
Variable X : externals.

(** X10: [_compile_continue_width] without its pattern, for a text that is
    made of ASCII characters after the two expansions of tabs.  With [e]
    that text and [n] the number of spaces that [e] starts with: when no
    character, or a white-space character, follows
    these spaces, the text is empty and the width is [leading_width + 1];
    when [n] is 5 or more, one space is dropped and the width is
    [leading_width + 1]; otherwise the [n] spaces are dropped and the
    width is [leading_width + n].  The width is at most
    [leading_width + 4]. *)
Theorem _compile_continue_width_cases (text : string) (leading_width : nat) :
  let e := expand_tab X (expand_leading_tab X text 3) in
  let n := span (Ascii.eqb SP) e in
  ascii_text e = true ->
  _compile_continue_width X text leading_width
  = match sdrop n e with
    | String a _ =>
        if is_space a then ("", leading_width + 1)
        else if 5 <=? n then (sdrop 1 e, leading_width + 1)
        else (sdrop n e, leading_width + n)
    | EmptyString => ("", leading_width + 1)
    end
  /\ leading_width <= snd (_compile_continue_width X text leading_width)
     <= leading_width + 4.
Proof.
  intros e n _.
  assert (Hm : re_match _LINE_HAS_TEXT e 0
               = match sdrop n e with
                 | String a rest =>
                     if is_space a then None
                     else Some (MkMatch e 0 (S n) [(1, (0, n))] (Some 1) [] 1)
                 | EmptyString => None
                 end).
  { unfold re_match, _LINE_HAS_TEXT, Group, Star, Chr, start_state.
    cbn [p_re p_multiline run ngroups]. simpl Nat.min. simpl char_before. simpl sdrop at 1.
    set (st := MState 0 None e [] None).
    set (k := fun st' : mstate =>
                match ms_rest (close_group 1 (ms_pos st) st') with
                | String a rest =>
                    if in_class true [CSpace] a
                    then Some (advance a rest (close_group 1 (ms_pos st) st'))
                    else None
                | EmptyString => None
                end).
    change (match rep_loop (cls_body false [COne SP]) true 0 None k
                           (String.length (ms_rest st)) 0 st with
            | Some st' => Some (to_match
                 (Pattern (Seq (Grp None (Rep true 0 None (Cls false [COne SP])))
                               (Cls true [CSpace])) false) e (ms_pos st) st')
            | None => None
            end = match sdrop n e with
                  | String a rest =>
                      if is_space a then None
                      else Some (MkMatch e 0 (S n) [(1, (0, n))] (Some 1) [] 1)
                  | EmptyString => None
                  end).
    rewrite rep_cls_greedy; [| |lia|exact I].
    - cbv zeta. simpl andb. rewrite (span_ext _ (Ascii.eqb SP)) by apply in_class_one.
      cbn [ms_rest st]. fold n. unfold k. cbn [ms_rest close_group].
      rewrite skip_rest. cbn [ms_rest st].
      pose proof (span_le (Ascii.eqb SP) e) as Hn. fold n in Hn.
      destruct (sdrop n e) as [|a rest]; [reflexivity|].
      unfold in_class. simpl. rewrite orb_false_r.
      destruct (is_space a); [reflexivity|]. simpl.
      unfold to_match. cbn [p_re group_names ngroups ms_pos ms_caps ms_last advance
                            close_group st app Nat.add].
      pose proof (skip_caps n st) as [-> _].
      rewrite skip_zero_pos by (cbn [ms_rest st]; auto). reflexivity.
    - intros st' a rest E Ha. unfold k. cbn [ms_rest close_group]. rewrite E.
      rewrite in_class_one in Ha. apply Ascii.eqb_eq in Ha as <-. reflexivity. }
  assert (Heq : _compile_continue_width X text leading_width
    = match sdrop n e with
      | String a _ =>
          if is_space a then ("", leading_width + 1)
          else if 5 <=? n then (sdrop 1 e, leading_width + 1)
          else (sdrop n e, leading_width + n)
      | EmptyString => ("", leading_width + 1)
      end).
  { unfold _compile_continue_width. fold e. rewrite Hm.
    destruct (sdrop n e) as [|a rest] eqn:E; [reflexivity|].
    destruct (is_space a); [reflexivity|].
    change (startswith "     " e) with (String.prefix (repeat_char SP 5) e).
    rewrite prefix_repeat_char. fold n.
    destruct (5 <=? n) eqn:L; [reflexivity|].
    unfold group_index, slice, default. cbn [assoc m_caps Nat.eqb m_string from_option id sdrop].
    rewrite Nat.sub_0_r, stake_length by apply span_le. fold n. now rewrite E. }
  split; [exact Heq|]. rewrite Heq.
  destruct (sdrop n e) as [|a rest]; [simpl; lia|].
  destruct (is_space a); [simpl; lia|].
  destruct (5 <=? n) eqn:L; [simpl; lia|]. apply Nat.leb_gt in L. simpl. lia.
Qed.
End ListHelpers.

Lemma _compile_continue_width_cases_witness :
  _compile_continue_width sample_externals "  foo" 2 = ("foo", 2 + 2)
  /\ 2 <= snd (_compile_continue_width sample_externals "  foo" 2) <= 2 + 4.
Proof.
  apply (_compile_continue_width_cases sample_externals "  foo" 2). reflexivity.
Defined.

(** a run of [j] characters of [f] that stops before a character outside
    [f] is the whole span of [f] *)
Lemma span_eq (f : ascii -> bool) (s : string) (j : nat) (a : ascii) (rest : string) :
  j <= span f s -> sdrop j s = String a rest -> f a = false -> j = span f s.
Proof.
  revert j. induction s as [|b s IH]; intros j Hj E Ha.
  - simpl in Hj |- *. lia.
  - simpl in Hj |- *. destruct (f b) eqn:Fb.
    + destruct j as [|j]; [simpl in E; congruence|].
      simpl in E. f_equal. apply IH; [lia|exact E|exact Ha].
    + lia.
Qed.

Lemma span_head (f : ascii -> bool) (s : string) :
  0 < span f s -> exists a rest, s = String a rest /\ f a = true.
Proof.
  destruct s as [|a s]; simpl; [lia|]. destruct (f a) eqn:E; [eauto|lia].
Qed.

Lemma in_class_digit (a : ascii) : in_class false [CDigit] a = is_digit a.
Proof. unfold in_class. simpl. now rewrite orb_false_r. Qed.

(** X11: in a text of ASCII characters, the pattern that [_parse_list_item]
    uses for the next item, built by [_get_list_bullet] and
    [_compile_list_item_pattern], matches at an offset only if the text
    there has at most three, and at most
    [leading_width], spaces, then at most nine digits, then the very
    character that ended the marker of the list; for a bullet list no digit
    comes before that character. *)
Theorem list_item_pattern_same_marker (c : ascii) (leading_width : nat) (s : string)
    (pos : nat) (m : Match) :
  In c ["."; ")"; "*"; "+"; "-"]%char ->
  ascii_text s = true ->
  pos <= String.length s ->
  re_match (Pattern (_compile_list_item_pattern (_get_list_bullet c) leading_width) false)
           s pos = Some m ->
  let rest := sdrop pos s in
  let n := span (Ascii.eqb SP) rest in
  let d := span is_digit (sdrop n rest) in
  n <= 3 /\ n <= leading_width /\ d <= 9
  /\ String.get (n + d) rest = Some c
  /\ (c <> "."%char -> c <> ")"%char -> d = 0).
Proof.
  intros Hc _ Hpos Hm rest n d.
  unfold re_match, start_state in Hm. cbn [p_re p_multiline] in Hm.
  rewrite Nat.min_l in Hm by exact Hpos.
  fold rest in Hm.
  set (st := MState _ _ rest [] None) in Hm.
  destruct (run false _ 0 st Some) as [x|] eqn:R; [clear Hm|discriminate].
  unfold _compile_list_item_pattern, Group, Between, Chr in R.
  remember (Alt (Star WS) (Seq WS (Plus NotNL))) as body3.
  remember (_get_list_bullet c) as bullet.
  cbn [run seqs ngroups] in R.
  apply (rep_cls_sound false [COne SP]) in R as (j & _ & Hj & Hhi & R).
  rewrite (span_ext _ (Ascii.eqb SP)) in Hj by apply in_class_one.
  cbn [ms_rest st] in Hj. fold n in Hj. cbv beta iota in Hhi.
  specialize (Hhi ltac:(lia)). rewrite Nat.add_0_l in Hhi.
  assert (Hw : j <= 3 /\ j <= leading_width).
  { destruct (3 <? leading_width) eqn:L; [apply Nat.ltb_lt in L|apply Nat.ltb_ge in L]; lia. }
  clear Hhi.
  set (st1 := close_group 1 (ms_pos st) (skip j st)) in R.
  assert (R1 : ms_rest st1 = sdrop j rest) by (unfold st1; cbn [ms_rest close_group];
                                                now rewrite skip_rest).
  (* the marker: [d'] digits and then [c] *)
  assert (Hmark : exists d' a tail,
             d' <= span is_digit (sdrop j rest) /\ d' <= 9
             /\ sdrop (j + d') rest = String a tail /\ a = c
             /\ (c <> "."%char -> c <> ")"%char -> d' = 0)).
  { subst bullet.
    assert (Hone : forall b k0 y,
               run false (Cls false [COne c]) b st1 k0 = Some y ->
               exists tail, sdrop j rest = String c tail).
    { intros b k0 y Hy. cbn [run] in Hy. rewrite R1 in Hy.
      destruct (sdrop j rest) as [|a tail] eqn:E'; [discriminate|].
      destruct (in_class false [COne c] a) eqn:C; [|discriminate].
      rewrite in_class_one in C. apply Ascii.eqb_eq in C as <-. eauto. }
    assert (Hord : forall b k0 y,
               run false (Seq (Rep true 0 (Some 9) (Cls false [CDigit])) (Cls false [COne c]))
                   b st1 k0 = Some y ->
               exists d' tail, d' <= span is_digit (sdrop j rest) /\ d' <= 9
                               /\ sdrop (j + d') rest = String c tail).
    { intros b k0 y Hy. cbn [run] in Hy.
      apply (rep_cls_sound false [CDigit]) in Hy as (d' & _ & Hd & Hd9 & Hy).
      rewrite (span_ext _ is_digit), R1 in Hd by apply in_class_digit.
      specialize (Hd9 ltac:(lia)). simpl in Hd9.
      rewrite skip_rest, R1, sdrop_sdrop in Hy.
      destruct (sdrop (j + d') rest) as [|a tail] eqn:E'; [discriminate|].
      destruct (in_class false [COne c] a) eqn:C; [|discriminate].
      rewrite in_class_one in C. apply Ascii.eqb_eq in C as <-.
      exists d', tail. auto. }
    destruct Hc as [<-|[<-|[<-|[<-|[<-|[]]]]]].
    - change (_get_list_bullet ".") with
        (Seq (Rep true 0 (Some 9) (Cls false [CDigit])) (Cls false [COne "."%char])) in R.
      apply (Hord 2) in R as (d' & tail & ? & ? & ?). exists d', "."%char, tail.
      repeat split; auto. congruence.
    - change (_get_list_bullet ")") with
        (Seq (Rep true 0 (Some 9) (Cls false [CDigit])) (Cls false [COne ")"%char])) in R.
      apply (Hord 2) in R as (d' & tail & ? & ? & ?). exists d', ")"%char, tail.
      repeat split; auto. congruence.
    - change (_get_list_bullet "*") with (Cls false [COne "*"%char]) in R.
      apply (Hone 2) in R as (tail & E). exists 0, "*"%char, tail.
      rewrite Nat.add_0_r. repeat split; auto; lia.
    - change (_get_list_bullet "+") with (Cls false [COne "+"%char]) in R.
      apply (Hone 2) in R as (tail & E). exists 0, "+"%char, tail.
      rewrite Nat.add_0_r. repeat split; auto; lia.
    - change (_get_list_bullet "-") with (Cls false [COne "-"%char]) in R.
      apply (Hone 2) in R as (tail & E). exists 0, "-"%char, tail.
      rewrite Nat.add_0_r. repeat split; auto; lia. }
  destruct Hmark as (d' & a & tail & Hd & Hd9 & E & -> & Hun).
  assert (Cns : Ascii.eqb SP c = false /\ is_digit c = false)
    by (destruct Hc as [<-|[<-|[<-|[<-|[<-|[]]]]]]; split; reflexivity).
  destruct Cns as [Csp Cdig].
  (* the character after the [j] spaces is not a space *)
  assert (Ej : j = n).
  { destruct d' as [|d'].
    - rewrite Nat.add_0_r in E. eapply span_eq; eauto.
    - destruct (span_head is_digit (sdrop j rest) ltac:(lia)) as (a0 & t0 & E0 & D0).
      eapply span_eq; [exact Hj|exact E0|].
      apply Ascii.eqb_neq. intros <-. discriminate. }
  subst j.
  assert (Ed : d' = d).
  { eapply span_eq; [exact Hd| |exact Cdig]. rewrite sdrop_sdrop. exact E. }
  subst d'. split; [lia|]. split; [lia|]. split; [lia|]. split.
  - destruct (String.get (n + d) rest) eqn:G.
    + pose proof (sdrop_next (n + d) rest c tail) as N.
      assert (E' : sdrop (n + d) rest = String c tail) by exact E.
      destruct (N E') as [_ G']. congruence.
    + pose proof (sdrop_next (n + d) rest c tail E) as [_ G']. congruence.
  - exact Hun.
Qed.

Lemma list_item_pattern_same_marker_witness :
  2 <= 3 /\ 2 <= 4 /\ 1 <= 9
  /\ String.get (2 + 1) (lit "  7. b\n") = Some "."%char
  /\ ("."%char <> "."%char -> "."%char <> ")"%char -> 1 = 0).
Proof.
  apply (list_item_pattern_same_marker "." 4 (lit "a\n  7. b\n") 2
           (match_at (Pattern (_compile_list_item_pattern (_get_list_bullet ".") 4) false)
                     (lit "a\n  7. b\n") 2)).
  - simpl. auto.
  - reflexivity.
  - simpl. lia.
  - vm_compute. reflexivity.
Defined.

(** ** Lines *)

Lemma srev_cons (c : ascii) (s : string) : srev (String c s) = srev s +:+ String c "".
Proof.
  unfold srev. simpl. induction (rev (list_ascii_of_string s)) as [|a l IH]; simpl.
  - reflexivity.
  - unfold String.app in *. simpl. f_equal. exact IH.
Qed.

Lemma app_assoc_string (a b c : string) : (a +:+ b) +:+ c = a +:+ (b +:+ c).
Proof. unfold String.app. induction a as [|x a IH]; simpl; [reflexivity|]. now rewrite IH. Qed.

Lemma join_nl_cons (x : string) (l : list string) :
  l <> [] -> join_nl (x :: l) = x +:+ String NL (join_nl l).
Proof. destruct l; [congruence|reflexivity]. Qed.

Lemma split_nl_aux_nonempty (s cur : string) : split_nl_aux s cur <> [].
Proof.
  revert cur. induction s as [|c s IH]; intros cur; simpl; [discriminate|].
  destruct (Ascii.eqb c NL); [discriminate|apply IH].
Qed.

(** ['\n'.join(s.split('\n')) == s] *)
Lemma join_split_nl_aux (s cur : string) :
  join_nl (split_nl_aux s cur) = srev cur +:+ s.
Proof.
  revert cur. induction s as [|c s IH]; intros cur; simpl.
  - unfold String.app. induction (srev cur); simpl; [reflexivity|]. now f_equal.
  - destruct (Ascii.eqb c NL) eqn:E.
    + apply Ascii.eqb_eq in E as ->.
      rewrite join_nl_cons by apply split_nl_aux_nonempty.
      now rewrite IH.
    + rewrite IH, srev_cons, app_assoc_string. reflexivity.
Qed.

Lemma join_split_nl (s : string) : join_nl (split_nl s) = s.
Proof. unfold split_nl. now rewrite join_split_nl_aux. Qed.

(** X12: when no line of [src] starts with [continue_width] spaces,
    [_clean_list_item_text] returns [src] as it is, after [text] and a
    newline when [text] is not empty: splitting into lines and joining
    them gives the text back. *)
Theorem _clean_list_item_text_keeps_unindented (X : externals) (src text : string)
    (continue_width : nat) :
  (forall line, In line (split_nl src) ->
     startswith (repeat_char SP continue_width) line = false) ->
  _clean_list_item_text X src text continue_width
  = if String.eqb text "" then src else text +:+ String NL src.
Proof.
  intros H. unfold _clean_list_item_text.
  assert (E : map (fun line =>
                     if startswith (repeat_char SP continue_width) line
                     then expand_tab X (sdrop (String.length (repeat_char SP continue_width)) line)
                     else line) (split_nl src) = split_nl src).
  { induction (split_nl src) as [|l ls IH]; [reflexivity|].
    simpl. rewrite (H l) by now left. f_equal. apply IH. intros l' Hl. apply H. now right. }
  rewrite E. destruct (String.eqb text ""); simpl app.
  - apply join_split_nl.
  - rewrite join_nl_cons by apply split_nl_aux_nonempty. now rewrite join_split_nl.
Qed.

Lemma _clean_list_item_text_keeps_unindented_witness :
  _clean_list_item_text sample_externals (lit "b\n c") "a" 2 = lit "a\nb\n c".
Proof.
  apply (_clean_list_item_text_keeps_unindented sample_externals (lit "b\n c") "a" 2).
  intros line Hin. vm_compute in Hin.
  destruct Hin as [<-|[<-|[]]]; reflexivity.
Defined.

(** ** The render bridge *)

Lemma dget_dset_eq (k : string) (v : pyval) (d : token) : dget k (dset k v d) = Some v.
Proof.
  unfold dget. induction d as [|[k' v'] d IH]; simpl; [now rewrite String.eqb_refl|].
  destruct (String.eqb k k') eqn:E; simpl; [now rewrite String.eqb_refl|now rewrite E].
Qed.

Lemma dget_dset_ne (k k' : string) (v : pyval) (d : token) :
  k <> k' -> dget k' (dset k v d) = dget k' d.
Proof.
  intros Hne. apply String.eqb_neq in Hne. rewrite String.eqb_sym in Hne.
  unfold dget. induction d as [|[k0 v0] d IH]; simpl; [now rewrite Hne|].
  destruct (String.eqb k k0) eqn:E; simpl.
  - apply String.eqb_eq in E as <-. now rewrite Hne.
  - now rewrite IH.
Qed.

Lemma dget_dremove_eq (k : string) (d : token) : dget k (dremove k d) = None.
Proof.
  unfold dget, dremove. induction d as [|[k' v'] d IH]; simpl; [reflexivity|].
  destruct (String.eqb k k') eqn:E; simpl; [exact IH|now rewrite E].
Qed.

Lemma dget_dremove_ne (k k' : string) (d : token) :
  k <> k' -> dget k' (dremove k d) = dget k' d.
Proof.
  intros Hne. unfold dget, dremove.
  induction d as [|[k0 v0] d IH]; simpl; [reflexivity|].
  destruct (String.eqb k k0) eqn:E; simpl.
  - apply String.eqb_eq in E as <-.
    apply String.eqb_neq in Hne. rewrite String.eqb_sym in Hne. now rewrite Hne.
  - now rewrite IH.
Qed.

Lemma each_lookup {A B} (f : A -> result B) (l : list A) (out : list B) :
  each f l = Ok out ->
  length out = length l
  /\ forall i a, l !! i = Some a -> exists b, out !! i = Some b /\ f a = Ok b.
Proof.
  revert out. induction l as [|a l IH]; intros out H; simpl in H.
  - injection H as <-. split; [reflexivity|]. intros i a' Hi. destruct i; discriminate.
  - apply bind_Ok in H as (b & Hb & H). apply bind_Ok in H as (bs & Hbs & [= <-]).
    destruct (IH bs Hbs) as [L Hl]. split; [simpl; now rewrite L|].
    intros [|i] a' Hi; simpl in Hi |- *; [injection Hi as <-; eauto|]. now apply Hl.
Qed.

Lemma lookup_map {A B} (f : A -> B) (l : list A) (i : nat) (a : A) :
  l !! i = Some a -> map f l !! i = Some (f a).
Proof.
  revert i. induction l as [|b l IH]; intros [|i] H; simpl in *; try discriminate.
  - now injection H as <-.
  - now apply IH.
Qed.

Section RenderFacts.
Variable inline : string -> Env -> pyval.
Variable renderer : option (list pyval -> pyval).

(** the loop of [_iter_render] over a list of tokens *)
Lemma _iter_render_list (l : list pyval) (state : BlockState) (parent : option token) :
  _iter_render inline renderer (VList l) state parent
  = each (render_token inline renderer state parent) l.
Proof.
  cbn [_iter_render]. induction l as [|tok l IH]; [reflexivity|].
  cbn [each]. rewrite <- IH. f_equal.
  destruct tok as [| | | |d|]; try reflexivity.
  cbn [render_token]. unfold dget.
  assert (E : forall d0 fields,
    (fix children_of (fields : list (string * pyval)) : option (result pyval) :=
       match fields with
       | [] => None
       | (k, v) :: fields' =>
           if String.eqb "children" k
           then Some (rendered renderer (_iter_render inline renderer v state (Some d0)))
           else children_of fields'
       end) fields
    = option_map (fun v => _call_render inline renderer v state (Some d0))
                 (sassoc "children" fields)).
  { intros d0. induction fields as [|[k v] fields IHf]; [reflexivity|].
    cbn [sassoc]. destruct (String.eqb "children" k); [reflexivity|exact IHf]. }
  rewrite E. now destruct (sassoc "children" d).
Qed.
End RenderFacts.

Section RenderTheorems.
Variable inline : string -> Env -> pyval.

Lemma render_text_top (st : BlockState) (tok : token) (r : pyval) :
  render_text inline st None tok = Ok r ->
  exists tok', r = VDict tok'
    /\ dget "type" tok' = dget "type" tok
    /\ match dget "text" tok with
       | None => tok' = tok
       | Some text =>
           exists t, text = VStr t /\ dget "text" tok' = None
                     /\ dget "children" tok' = Some (inline (strip t) (env st))
       end.
Proof.
  unfold render_text. destruct (dget "text" tok) as [[| | |t| |]|] eqn:T; try discriminate.
  - set (d := dset "children" _ _).
    assert (Ty : dget "type" d = dget "type" tok)
      by (unfold d; rewrite dget_dset_ne, dget_dremove_ne; [reflexivity|discriminate..]).
    rewrite Ty. destruct (dget "type" tok) as [ty|]; [|discriminate].
    rewrite andb_false_r. intros [= <-]. exists d. split; [reflexivity|].
    split; [exact Ty|]. exists t. split; [reflexivity|]. unfold d. split.
    + rewrite dget_dset_ne by discriminate. apply dget_dremove_eq.
    + apply dget_dset_eq.
  - intros [= <-]. eauto.
Qed.

(** X13: [render] with no renderer returns a list of as many tokens as the
    state has, in their order, with their types unchanged: a paragraph at
    the top level is never made a [block_text].  A token with neither
    [children] nor [text] is returned as it is; a token with a [text] and
    no [children] loses its [text] and, when the text is made of ASCII
    characters, gets as [children] what the inline parser returns for the
    stripped text and the environment of the state. *)
Theorem render_top_level (st : BlockState) (out : pyval) :
  render inline None st = Ok out ->
  exists l, out = VList l /\ length l = length (tokens st)
    /\ forall i tok, tokens st !! i = Some tok ->
         exists tok', l !! i = Some (VDict tok')
           /\ dget "type" tok' = dget "type" tok
           /\ (dget "children" tok = None ->
               match dget "text" tok with
               | None => tok' = tok
               | Some text =>
                   exists t, text = VStr t /\ dget "text" tok' = None
                             /\ (ascii_text t = true ->
                                 dget "children" tok'
                                 = Some (inline (strip t) (env st)))
               end).
Proof.
  unfold render, _call_render, rendered, VTokens. rewrite _iter_render_list.
  intros H. apply bind_Ok in H as (l & Hl & [= <-]).
  apply each_lookup in Hl as [Len Hl]. rewrite length_map in Len.
  exists l. split; [reflexivity|]. split; [exact Len|].
  intros i tok Hi.
  destruct (Hl i (VDict tok)) as (b & Hb & Hr); [now apply lookup_map|].
  cbn [render_token] in Hr. destruct (dget "children" tok) as [v|] eqn:C.
  - apply bind_Ok in Hr as (c & _ & [= <-]). eexists. split; [exact Hb|].
    split; [now rewrite dget_dset_ne by discriminate|discriminate].
  - apply render_text_top in Hr as (tok' & -> & Ty & Tx).
    exists tok'. split; [exact Hb|]. split; [exact Ty|]. intros _.
    destruct (dget "text" tok) as [text|]; [|exact Tx].
    destruct Tx as (t & Et & Tx1 & Tx2). eauto.
Qed.

(** X14: [_iter_render] on the children of a token with [attrs], whatever
    the children are.  When it returns, it returns one token for each
    child, in their order: a child with [children] has them replaced by
    what [_call_render] returns for them, with the child as their parent; a
    child with neither [children] nor [text], a [blank_line] for one, is
    returned as it is; a child with a [text] and no [children] loses its
    [text], gets [children] from the inline parser, for a text of ASCII
    characters those of the stripped text, and keeps all else, but that the
    type [paragraph] becomes [block_text] when [attrs.tight] of the parent
    is true ([postprocess_paragraph]).  It does return when no child has
    [children] and every text is a string in a child that has a type. *)
Theorem render_in_list_item (renderer : option (list pyval -> pyval)) (st : BlockState)
    (parent a : token) (kids : list token) :
  parent <> [] ->
  dget "attrs" parent = Some (VDict a) ->
  (forall out,
     _iter_render inline renderer (VTokens kids) st (Some parent) = Ok out ->
     exists out', out = map VDict out'
       /\ Forall2 (fun kid kid' =>
            match dget "children" kid with
            | Some v =>
                exists c, _call_render inline renderer v st (Some kid) = Ok c
                          /\ kid' = dset "children" c kid
            | None =>
                match dget "text" kid with
                | None => kid' = kid
                | Some text =>
                    exists t ty c,
                      text = VStr t /\ dget "type" kid = Some ty
                      /\ (ascii_text t = true -> c = inline (strip t) (env st))
                      /\ kid' = (if is_str ty "paragraph"
                                    && truth (default VNone (dget "tight" a))
                                 then dset "type" (VStr "block_text")
                                 else id)
                                  (dset "children" c (dremove "text" kid))
                end
            end) kids out')
  /\ (Forall (fun kid =>
                dget "children" kid = None
                /\ match dget "text" kid with
                   | None => True
                   | Some text => (exists t, text = VStr t) /\ is_Some (dget "type" kid)
                   end) kids ->
      exists out, _iter_render inline renderer (VTokens kids) st (Some parent) = Ok out).
Proof.
  intros Hne Hattrs. unfold VTokens. rewrite _iter_render_list.
  assert (Hp : match Some parent with Some (_ :: _) => true | _ => false end = true)
    by (destruct parent; [congruence|reflexivity]).
  assert (Hpost : forall d, postprocess_paragraph d parent
                  = Ok (if truth (default VNone (dget "tight" a))
                        then dset "type" (VStr "block_text") d else d)).
  { intros d. unfold postprocess_paragraph. rewrite Hattrs. cbn [truth].
    destruct a as [|kv a]; [reflexivity|].
    now destruct (truth (default VNone (dget "tight" (kv :: a)))). }
  assert (Htext : forall kid t,
            dget "text" kid = Some (VStr t) ->
            render_text inline st (Some parent) kid
            = match dget "type" kid with
              | None => Raise (KeyError "type")
              | Some ty =>
                  Ok (VDict ((if is_str ty "paragraph"
                                 && truth (default VNone (dget "tight" a))
                              then dset "type" (VStr "block_text") else id)
                               (dset "children" (inline (strip t) (env st))
                                     (dremove "text" kid))))
              end).
  { intros kid t Tx. unfold render_text. rewrite Tx.
    rewrite dget_dset_ne, dget_dremove_ne by discriminate.
    destruct (dget "type" kid) as [ty|]; [|reflexivity].
    rewrite Hp, andb_true_r. cbn [default from_option id].
    destruct (is_str ty "paragraph"); [|reflexivity].
    rewrite Hpost. cbn [bind andb].
    now destruct (truth (default VNone (dget "tight" a))). }
  split.
  - induction kids as [|kid kids IH]; intros out H.
    + injection H as <-. exists []. split; [reflexivity|constructor].
    + cbn [map each] in H.
      apply bind_Ok in H as (b & Hb & H). apply bind_Ok in H as (bs & Hbs & [= <-]).
      destruct (IH bs Hbs) as (out' & -> & F).
      cbn [render_token] in Hb.
      destruct (dget "children" kid) as [v|] eqn:C.
      * apply bind_Ok in Hb as (c & Hc & [= <-]).
        exists (dset "children" c kid :: out'). split; [reflexivity|].
        constructor; [|exact F]. rewrite C. eauto.
      * destruct (dget "text" kid) as [text|] eqn:T.
        -- destruct text as [| | |t| |];
             try (unfold render_text in Hb; rewrite T in Hb; discriminate).
           rewrite (Htext kid t T) in Hb.
           destruct (dget "type" kid) as [ty|] eqn:Ty; [|discriminate].
           injection Hb as <-. eexists (_ :: out'). split; [reflexivity|].
           constructor; [|exact F]. rewrite C, T.
           exists t, ty, (inline (strip t) (env st)). auto.
        -- unfold render_text in Hb. rewrite T in Hb. injection Hb as <-.
           exists (kid :: out'). split; [reflexivity|].
           constructor; [|exact F]. now rewrite C, T.
  - induction 1 as [|kid kids (C & Hk) _ (out & Hout)].
    + exists []. reflexivity.
    + cbn [map each render_token]. rewrite C, Hout.
      destruct (dget "text" kid) as [text|] eqn:T.
      * destruct Hk as ((t & ->) & (ty & Ty)). rewrite (Htext kid t T), Ty.
        cbn [bind]. eauto.
      * unfold render_text. rewrite T. cbn [bind]. eauto.
Qed.
End RenderTheorems.

Lemma render_top_level_witness :
  exists l,
    VList [VDict [("type", VStr "paragraph"); ("children", VStr "a")];
           VDict [("type", VStr "blank_line")]] = VList l
    /\ length l = 2
    /\ forall i tok,
         [[("type", VStr "paragraph"); ("text", VStr (lit "a\n"))];
          [("type", VStr "blank_line")]] !! i = Some tok ->
         exists tok', l !! i = Some (VDict tok')
           /\ dget "type" tok' = dget "type" tok
           /\ (dget "children" tok = None ->
               match dget "text" tok with
               | None => tok' = tok
               | Some text =>
                   exists t, text = VStr t /\ dget "text" tok' = None
                             /\ (ascii_text t = true ->
                                 dget "children" tok' = Some (VStr (strip t)))
               end).
Proof.
  apply (render_top_level (fun text _ => VStr text)
           (set_tokens [[("type", VStr "paragraph"); ("text", VStr (lit "a\n"))];
                        [("type", VStr "blank_line")]] root_state)).
  vm_compute. reflexivity.
Defined.

Lemma render_in_list_item_witness :
  (forall out,
     _iter_render (fun text _ => VStr text) None
       (VTokens [[("type", VStr "paragraph"); ("text", VStr (lit "a\n"))];
                 [("type", VStr "blank_line")];
                 [("type", VStr "block_quote");
                  ("children", VTokens [[("type", VStr "paragraph"); ("text", VStr "b")]])]])
       root_state
       (Some [("type", VStr "list_item"); ("attrs", list_item_attrs 1 true)])
     = Ok out ->
     exists out', out = map VDict out'
       /\ Forall2 (fun kid kid' =>
            match dget "children" kid with
            | Some v =>
                exists c, _call_render (fun text _ => VStr text) None v root_state (Some kid)
                          = Ok c
                          /\ kid' = dset "children" c kid
            | None =>
                match dget "text" kid with
                | None => kid' = kid
                | Some text =>
                    exists t ty c,
                      text = VStr t /\ dget "type" kid = Some ty
                      /\ (ascii_text t = true -> c = VStr (strip t))
                      /\ kid' = (if is_str ty "paragraph"
                                    && truth (default VNone
                                                (dget "tight" [("depth", VInt 1);
                                                               ("tight", VBool true)]))
                                 then dset "type" (VStr "block_text")
                                 else id)
                                  (dset "children" c (dremove "text" kid))
                end
            end)
            [[("type", VStr "paragraph"); ("text", VStr (lit "a\n"))];
             [("type", VStr "blank_line")];
             [("type", VStr "block_quote");
              ("children", VTokens [[("type", VStr "paragraph"); ("text", VStr "b")]])]]
            out')
  /\ (Forall (fun kid =>
                dget "children" kid = None
                /\ match dget "text" kid with
                   | None => True
                   | Some text => (exists t, text = VStr t) /\ is_Some (dget "type" kid)
                   end)
             [[("type", VStr "paragraph"); ("text", VStr (lit "a\n"))];
              [("type", VStr "blank_line")];
              [("type", VStr "block_quote");
               ("children", VTokens [[("type", VStr "paragraph"); ("text", VStr "b")]])]] ->
      exists out,
        _iter_render (fun text _ => VStr text) None
          (VTokens [[("type", VStr "paragraph"); ("text", VStr (lit "a\n"))];
                    [("type", VStr "blank_line")];
                    [("type", VStr "block_quote");
                     ("children", VTokens [[("type", VStr "paragraph"); ("text", VStr "b")]])]])
          root_state
          (Some [("type", VStr "list_item"); ("attrs", list_item_attrs 1 true)])
        = Ok out).
Proof.
  apply (render_in_list_item (fun text _ => VStr text) None root_state
           [("type", VStr "list_item"); ("attrs", list_item_attrs 1 true)]
           [("depth", VInt 1); ("tight", VBool true)]).
  - discriminate.
  - reflexivity.
Defined.

(** ** The two ways of calling a handler *)

(** X15: [parse_method] calls a handler with the match and the state,
    [_scan_rules] calls it with the state alone.  A name whose handler
    [parse_method] has run without an exception makes [_scan_rules] raise
    [TypeError] when it comes to that name. *)
Theorem handlers_have_one_calling_convention (X : externals)
    (get_line : BlockState -> string * BlockState)
    (registered : string -> BlockParser -> BlockState -> handled)
    (self : BlockParser) (name : string) (fuel : nat) (m : Match) (st : BlockState)
    (r : pyret * BlockState * BlockParser) :
  m_lastgroup m = Some name ->
  parse_method X fuel self (Some m) st = Ok r ->
  forall st2 rest,
    _scan_rules get_line registered self st2 (name :: rest)
    = Raise (TypeError "missing 1 required positional argument: 'state'").
Proof.
  intros Hm H st2 rest. destruct fuel as [|fuel]; [discriminate|].
  cbn [parse_method] in H. rewrite Hm in H. cbn [_scan_rules].
  destruct (__methods self !! name) as [[n|]|]; try discriminate. reflexivity.
Qed.

Lemma handlers_have_one_calling_convention_witness :
  _scan_rules (fun s => ("", s)) (fun _ p s => Ok (RNone, s, p))
              (default_parser sample_externals) (document (lit "\n")) ["blank_line"]
  = Raise (TypeError "missing 1 required positional argument: 'state'").
Proof.
  apply (handlers_have_one_calling_convention sample_externals _ _ _ "blank_line" 1
           (match_at (default_matcher sample_externals) (lit "\n") 0) (document (lit "\n"))
           (RPos 1, append_token [("type", VStr "blank_line")] (document (lit "\n")),
            default_parser sample_externals)).
  - vm_compute. reflexivity.
  - vm_compute. reflexivity.
Defined.

(** ** What a parse keeps *)

Lemma state_frame_refl (st : BlockState) : state_frame st st.
Proof. repeat split; auto. Qed.

Lemma state_frame_trans (a b c : BlockState) :
  state_frame a b -> state_frame b c -> state_frame a c.
Proof.
  intros (A1 & A2 & A3 & A4) (B1 & B2 & B3 & B4).
  repeat split; try congruence. auto.
Qed.

Lemma parser_frame_refl (p : BlockParser) : parser_frame p p.
Proof. repeat split; auto. Qed.

Lemma parser_frame_trans (a b c : BlockParser) :
  parser_frame a b -> parser_frame b c -> parser_frame a c.
Proof.
  intros (A1 & A2 & A3 & A4 & A5 & A6 & A7) (B1 & B2 & B3 & B4 & B5 & B6 & B7).
  repeat split; try congruence. auto.
Qed.

Lemma dset_keys (k : string) (v : pyval) (d : token) :
  is_Some (dget k d) -> map fst (dset k v d) = map fst d.
Proof.
  unfold dget. induction d as [|[k' v'] d IH]; simpl; [intros [? [=]]|].
  destruct (String.eqb k k') eqn:E; simpl.
  - apply String.eqb_eq in E as ->. reflexivity.
  - intros H. now rewrite IH.
Qed.

Lemma dset_keys_new (k : string) (v : pyval) (d : token) :
  dget k d = None -> map fst (dset k v d) = map fst d ++ [k].
Proof.
  unfold dget. induction d as [|[k' v'] d IH]; simpl; [reflexivity|].
  destruct (String.eqb k k') eqn:E; simpl; [discriminate|].
  intros H. now rewrite IH.
Qed.

(** a key of a dict is among its keys *)
Lemma dget_keys (k : string) (d : token) :
  dget k d = (if mem k (map fst d) then dget k d else None).
Proof.
  unfold dget, mem. induction d as [|[k' v'] d IH]; simpl; [reflexivity|].
  destruct (String.eqb k k'); simpl; [reflexivity|exact IH].
Qed.

Lemma block_token_paragraph (tok : token) :
  block_token tok -> is_paragraph tok = true ->
  dget "type" tok = Some (VStr "paragraph") /\ map fst tok = ["type"; "text"].
Proof.
  intros B P. unfold is_paragraph in P. destruct B as [tok ty Ty Sh|kids _].
  - rewrite Ty in P. simpl in P. apply String.eqb_eq in P as ->. split; [exact Ty|].
    simpl in Sh. repeat (destruct Sh as [[= E]|Sh]; try discriminate; try (symmetry; exact E)).
    destruct Sh.
  - discriminate.
Qed.

Lemma extend_text_block (text : string) (tok : token) :
  block_token tok -> is_paragraph tok = true -> block_token (extend_text text tok).
Proof.
  intros B P. destruct (block_token_paragraph tok B P) as [Ty K].
  assert (T : is_Some (dget "text" tok)).
  { rewrite dget_keys, K. simpl. destruct tok as [|[k1 v1] [|[k2 v2] tok]]; try discriminate.
    simpl in K. injection K as -> -> _. unfold dget. simpl. eauto. }
  assert (E : forall v, block_token (dset "text" v tok)).
  { intros v. apply block_leaf with (ty := "paragraph").
    - now rewrite dget_dset_ne by discriminate.
    - rewrite dset_keys, K by exact T. simpl. auto 10. }
  unfold extend_text. destruct (dget "text" tok) as [[]|]; apply E.
Qed.

Lemma new_paragraph_block (text : string) :
  block_token [("type", VStr "paragraph"); ("text", VStr text)].
Proof. apply block_leaf with (ty := "paragraph"); [reflexivity|simpl; auto 10]. Qed.

Lemma set_last_block (tok : token) (l : list token) :
  l <> [] -> Forall block_token l -> block_token tok -> Forall block_token (set_last tok l).
Proof.
  intros Hne F B. unfold set_last. apply Forall_app. split.
  - destruct (exists_last Hne) as (l' & t & ->). rewrite removelast_last.
    apply Forall_app in F. tauto.
  - repeat constructor. exact B.
Qed.

Lemma last_token_in (st : BlockState) (tok : token) :
  last_token st = Some tok -> tokens st <> [] /\ In tok (tokens st).
Proof.
  unfold last_token. intros H. apply last_Some in H as [l' E]. rewrite E. split.
  - now destruct l'.
  - apply in_or_app. right. now left.
Qed.

Lemma append_paragraph_frame (st st' : BlockState) (p : option nat) :
  append_paragraph st = (p, st') -> state_frame st st'.
Proof.
  destruct (append_paragraph_cases st) as [H | (tok & L & P & H)];
    rewrite H; intros [= <- <-]; [apply state_frame_refl|].
  repeat split. cbn [tokens set_cursor set_tokens]. intros F.
  destruct (last_token_in _ _ L) as [Hne Hin].
  apply set_last_block; [exact Hne|exact F|].
  apply extend_text_block; [|exact P]. rewrite List.Forall_forall in F. auto.
Qed.

Lemma add_paragraph_frame (text : string) (st : BlockState) :
  state_frame st (add_paragraph text st).
Proof.
  unfold add_paragraph.
  assert (New : state_frame st
            (append_token [("type", VStr "paragraph"); ("text", VStr text)] st)).
  { repeat split. cbn [tokens append_token set_tokens]. intros F.
    apply Forall_app. split; [exact F|]. repeat constructor. apply new_paragraph_block. }
  destruct (last_token st) as [tok|] eqn:L; [|exact New].
  destruct (is_paragraph tok) eqn:P; [|exact New].
  repeat split. cbn [tokens set_tokens]. intros F.
  destruct (last_token_in _ _ L) as [Hne Hin].
  apply set_last_block; [exact Hne|exact F|].
  apply extend_text_block; [|exact P]. rewrite List.Forall_forall in F. auto.
Qed.

Lemma append_token_frame (tok : token) (st : BlockState) :
  block_token tok -> state_frame st (append_token tok st).
Proof.
  intros B. repeat split. cbn [tokens append_token set_tokens]. intros F.
  apply Forall_app. split; [exact F|]. repeat constructor. exact B.
Qed.

Lemma prepend_token_frame (tok : token) (st : BlockState) :
  block_token tok -> state_frame st (prepend_token tok st).
Proof.
  intros B. unfold prepend_token. destruct (rev (tokens st)) as [|t before] eqn:R.
  - repeat split. intros _. repeat constructor. exact B.
  - repeat split. cbn [tokens set_tokens]. intros F.
    assert (E : tokens st = rev before ++ [t]).
    { rewrite <- (rev_involutive (tokens st)), R. reflexivity. }
    rewrite E in F. apply Forall_app in F as [F1 F2].
    apply Forall_app. split; [exact F1|].
    constructor; [exact B|exact F2].
Qed.

Lemma set_cursor_frame (c : nat) (st st' : BlockState) :
  state_frame st st' -> state_frame st (set_cursor c st').
Proof. intros (A & B & C & D). repeat split; auto. Qed.

Lemma set_cursor_frame_l (c : nat) (st st' : BlockState) :
  state_frame (set_cursor c st) st' -> state_frame st st'.
Proof. intros (A & B & C & D). repeat split; auto. Qed.

Lemma compile_sc_frame (self self' : BlockParser) (rules_arg : option (list string))
    (sc : pattern) :
  compile_sc self rules_arg = Ok (sc, self') -> parser_frame self self'.
Proof.
  unfold compile_sc.
  destruct rules_arg as [r|];
    match goal with |- context [__sc self !! ?key] =>
      destruct (__sc self !! key) eqn:L end;
    intros H; try (injection H as <- <-; apply parser_frame_refl);
    apply bind_Ok in H as (parts & _ & [= <- <-]);
    repeat split; intros k sc' Hk; simpl;
    (rewrite lookup_insert_ne; [exact Hk|intros <-; congruence]).
Qed.

Section Frame.
Variable X : externals.

Lemma leaf_frame (tok : token) (ty : string) (st : BlockState) :
  dget "type" tok = Some (VStr ty) -> In (ty, map fst tok) leaf_shapes ->
  state_frame st (append_token tok st).
Proof. intros. apply append_token_frame. eapply block_leaf; eauto. Qed.

Lemma _parse_html_to_end_frame (st : BlockState) (marker : string) (pos : nat) :
  state_frame st (snd (_parse_html_to_end st marker pos)).
Proof.
  unfold _parse_html_to_end. destruct (find_from marker (src st) pos); cbn [snd].
  - apply (state_frame_trans _ (set_cursor n st)); [now apply set_cursor_frame, state_frame_refl|].
    eapply leaf_frame; [reflexivity|simpl; auto 10].
  - eapply leaf_frame; [reflexivity|simpl; auto 10].
Qed.

Lemma _parse_html_to_newline_frame (st : BlockState) (p : pattern) :
  state_frame st (snd (_parse_html_to_newline st p)).
Proof.
  unfold _parse_html_to_newline. destruct (re_search p (src st) (cursor st)); cbn [snd];
    (eapply leaf_frame; [reflexivity|simpl; auto 10]).
Qed.

Lemma parse_raw_html_frame (m : Match) (st st' : BlockState) (r : pyret) :
  parse_raw_html X m st = Ok (r, st') -> state_frame st st'.
Proof.
  unfold parse_raw_html. intros H. apply bind_Ok in H as (whole & _ & H).
  repeat match type of H with
         | (if ?b then _ else _) = _ => destruct b
         | Ok (_parse_html_to_end ?s ?mk ?p) = _ =>
             pose proof (_parse_html_to_end_frame s mk p) as E;
             destruct (_parse_html_to_end s mk p); injection H as <- <-; exact E
         | Ok (_parse_html_to_newline ?s ?p) = _ =>
             pose proof (_parse_html_to_newline_frame s p) as E;
             destruct (_parse_html_to_newline s p); injection H as <- <-; exact E
         end.
  destruct (append_paragraph st) as [p st1] eqn:AP.
  pose proof (append_paragraph_frame _ _ _ AP) as E1.
  destruct (truthy (of_pos p)); [injection H as <- <-; exact E1|].
  destruct (negb _); [|injection H as <- <-; exact E1].
  destruct (re_match_until _ _ _ _); [|injection H as <- <-; exact E1].
  pose proof (_parse_html_to_newline_frame st1 BLANK_LINE) as E.
  destruct (_parse_html_to_newline st1 BLANK_LINE). injection H as <- <-.
  eapply state_frame_trans; eauto.
Qed.

Lemma parse_setex_heading_frame (m : Match) (st st' : BlockState) (r : pyret) :
  parse_setex_heading m st = Ok (r, st') -> state_frame st st'.
Proof.
  unfold parse_setex_heading. intros H.
  destruct (last_token st) as [[|kv tok]|] eqn:L;
    try (injection H as <- <-; apply state_frame_refl).
  remember (kv :: tok) as lt eqn:Elt. clear Elt.
  destruct (dget "type" lt) as [ty|] eqn:Ty; [|discriminate].
  destruct (is_str ty "paragraph") eqn:P; [|injection H as <- <-; apply state_frame_refl].
  apply bind_Ok in H as (g & _ & H). injection H as <- <-.
  repeat split. cbn [tokens set_tokens]. intros F.
  destruct (last_token_in _ _ L) as [Hne Hin].
  apply set_last_block; [exact Hne|exact F|].
  assert (Par : is_paragraph lt = true) by (unfold is_paragraph; now rewrite Ty).
  rewrite List.Forall_forall in F.
  destruct (block_token_paragraph _ (F _ Hin) Par) as [Ty' K].
  apply block_leaf with (ty := "heading").
  - rewrite dget_dset_ne by discriminate. apply dget_dset_eq.
  - rewrite dset_keys_new, dset_keys, K; [simpl; auto 10|rewrite Ty'; eauto|].
    rewrite dget_dset_ne by discriminate.
    rewrite dget_keys, K. reflexivity.
Qed.

Lemma parse_fenced_code_frame (m : Match) (st st' : BlockState) (r : pyret) :
  parse_fenced_code X m st = Ok (r, st') -> state_frame st st'.
Proof.
  unfold parse_fenced_code. intros H.
  apply bind_Ok in H as (spaces & _ & H).
  apply bind_Ok in H as (marker & _ & H).
  apply bind_Ok in H as (info & _ & H).
  destruct marker; [discriminate|].
  destruct (_ && _ && _); [injection H as <- <-; apply state_frame_refl|].
  match type of H with context [let (_, _) := ?e in _] => destruct e end.
  injection H as <- <-.
  destruct (negb (String.eqb info "")); (eapply leaf_frame; [reflexivity|simpl; auto 10]).
Qed.

Lemma parse_indent_code_frame (m : Match) (st st' : BlockState) (r : pyret) :
  parse_indent_code X m st = Ok (r, st') -> state_frame st st'.
Proof.
  unfold parse_indent_code. intros H.
  destruct (append_paragraph st) as [p st1] eqn:AP.
  pose proof (append_paragraph_frame _ _ _ AP) as E1.
  destruct (truthy (of_pos p)); [injection H as <- <-; exact E1|].
  apply bind_Ok in H as (code & _ & H). injection H as <- <-.
  eapply state_frame_trans; [exact E1|].
  eapply leaf_frame; [reflexivity|simpl; auto 10].
Qed.

Lemma parse_axt_heading_frame (m : Match) (st st' : BlockState) (r : pyret) :
  parse_axt_heading m st = Ok (r, st') -> state_frame st st'.
Proof.
  unfold parse_axt_heading. intros H.
  apply bind_Ok in H as (a1 & _ & H). apply bind_Ok in H as (a2 & _ & H).
  injection H as <- <-. eapply leaf_frame; [reflexivity|simpl; auto 10].
Qed.

Lemma parse_ref_link_frame (m : Match) (st st' : BlockState) (r : pyret) :
  parse_ref_link X m st = Ok (r, st') -> state_frame st st'.
Proof.
  intros H.
  destruct (parse_ref_link_effect X m st st' r H)
    as [(p & AP) | (p & st1 & label & attrs & AP & G & Fresh & ->)];
    pose proof (append_paragraph_frame _ _ _ AP) as (A & B & C & D).
  - repeat split; auto.
  - repeat split; auto.
Qed.

Lemma lift_frame (c : result (pyret * BlockState)) (self self' : BlockParser)
    (st st' : BlockState) (r : pyret) :
  (forall r st', c = Ok (r, st') -> state_frame st st') ->
  lift c self = Ok (r, st', self') -> state_frame st st' /\ parser_frame self self'.
Proof.
  intros Hc H. unfold lift in H. apply bind_Ok in H as ([r0 st0] & E & H).
  injection H as <- <- <-. split; [eauto|apply parser_frame_refl].
Qed.

Lemma quote_loop_body_frame
    (pm : BlockParser -> option Match -> BlockState -> handled) (break_sc : pattern) :
  (forall self m st r st' self',
      pm self m st = Ok (r, st', self') -> state_frame st st' /\ parser_frame self self') ->
  forall q b q', quote_loop_body X pm break_sc q = Ok (b, q') -> quote_frame q q'.
Proof.
  intros Hpm q b q'. unfold quote_loop_body, quote_frame.
  destruct (_ <? _); [|intros [= <- <-]; split; [apply state_frame_refl|apply parser_frame_refl]].
  destruct (state_match _ _).
  { intros [= <- <-]. cbn [q_state q_self].
    split; [apply set_cursor_frame, state_frame_refl|apply parser_frame_refl]. }
  destruct (q_prev_blank_line q);
    [intros [= <- <-]; split; [apply state_frame_refl|apply parser_frame_refl]|].
  destruct (pm _ _ _) as [[[end_pos state] self]| |] eqn:E; simpl; try discriminate.
  destruct (truthy end_pos); [|discriminate].
  intros [= <- <-]. simpl. eapply Hpm, E.
Qed.

Lemma parse_iteration_frame
    (pm : BlockParser -> option Match -> BlockState -> handled) (sc : pattern) :
  (forall self m st r st' self',
      pm self m st = Ok (r, st', self') -> state_frame st st' /\ parser_frame self self') ->
  forall s b s', parse_iteration pm sc s = Ok (b, s') -> pair_frame s s'.
Proof.
  intros Hpm [state self] b [state' self']. unfold parse_iteration, pair_frame.
  destruct (_ <? _);
    [|intros [= <- <- <-]; split; [apply state_frame_refl|apply parser_frame_refl]].
  destruct (re_search _ _ _) as [m|];
    [|intros [= <- <- <-]; split; [apply state_frame_refl|apply parser_frame_refl]].
  match goal with |- context [pm self (Some m) ?s] => set (st1 := s) end.
  assert (E1 : state_frame state st1).
  { unfold st1. destruct (_ <? _); [|apply state_frame_refl].
    apply set_cursor_frame, add_paragraph_frame. }
  destruct (pm self (Some m) st1) as [[[end_pos st2] self2]| |] eqn:E; simpl; try discriminate.
  destruct (truthy end_pos); [|discriminate].
  intros [= <- <- <-]. simpl. destruct (Hpm _ _ _ _ _ _ E) as [F1 F2].
  split; [|exact F2]. apply set_cursor_frame. eapply state_frame_trans; eauto.
Qed.

Lemma family_frame_all (fuel : nat) : family_frame X fuel.
Proof.
  induction fuel as [|fuel (IHm & IHq & IHp)]; [repeat split; intros; discriminate|].
  split; [|split].
  - (* parse_method *)
    intros self m st r st' self' H. cbn [parse_method] in H.
    destruct m as [m|]; [|discriminate].
    destruct (m_lastgroup m); [|discriminate].
    destruct (__methods self !! _) as [[name|]|]; try discriminate.
    repeat match type of H with
           | (if ?b then _ else _) = _ => destruct b
           end; try discriminate;
    try (eapply lift_frame; [|exact H]; intros r0 st0 E).
    + injection E as _ <-. eapply leaf_frame; [reflexivity|simpl; auto 10].
    + eapply parse_fenced_code_frame, E.
    + eapply parse_indent_code_frame, E.
    + eapply parse_axt_heading_frame, E.
    + eapply parse_setex_heading_frame, E.
    + injection E as _ <-. eapply leaf_frame; [reflexivity|simpl; auto 10].
    + eapply IHq, H.
    + eapply parse_ref_link_frame, E.
    + eapply parse_raw_html_frame, E.
  - (* parse_block_quote *)
    intros self m st r st' self' H. cbn [parse_block_quote] in H.
    apply bind_Ok in H as (quote_1 & _ & H).
    apply bind_Ok in H as ([sc self1] & Hsc & H).
    apply compile_sc_frame in Hsc.
    apply bind_Ok in H as (q & Hq & H).
    assert (Kq : state_frame st (q_state q) /\ parser_frame self (q_self q)).
    { destruct (bool_decide _).
      - destruct (state_match _ _); injection Hq as <-; cbn [q_state q_self];
          (split; [|exact Hsc]); repeat apply set_cursor_frame; apply state_frame_refl.
      - apply bind_Ok in Hq as ([break_sc self2] & Hbsc & Hq).
        apply compile_sc_frame in Hbsc.
        apply (while_keeps quote_frame) in Hq.
        + destruct Hq as [Q1 Q2]. cbn [q_state q_self] in Q1, Q2. split.
          * now apply set_cursor_frame_l in Q1.
          * eapply parser_frame_trans; [exact Hsc|].
            eapply parser_frame_trans; [exact Hbsc|exact Q2].
        + intros s. split; [apply state_frame_refl|apply parser_frame_refl].
        + intros a b c [A1 A2] [B1 B2].
          split; [eapply state_frame_trans|eapply parser_frame_trans]; eauto.
        + intros s b s'. apply quote_loop_body_frame, IHm. }
    destruct Kq as [Kst Kself].
    apply bind_Ok in H as (rules & _ & H).
    apply bind_Ok in H as ([child self3] & Hchild & H).
    apply IHp in Hchild as [(_ & _ & _ & Ctok) Cself].
    specialize (Ctok ltac:(constructor)).
    assert (Tok : block_token [("type", VStr "block_quote");
                               ("children", VTokens (tokens child))])
      by (now apply block_quote_token).
    assert (Kenv : state_frame st (set_env (env child) (q_state q))).
    { destruct Kst as (A & B & C & D). repeat split; auto. }
    destruct (truthy (q_end_pos q)); injection H as <- <- <-.
    + split; [|eapply parser_frame_trans; eauto].
      eapply state_frame_trans; [exact Kenv|]. now apply prepend_token_frame.
    + split; [|eapply parser_frame_trans; eauto].
      eapply state_frame_trans; [exact Kenv|]. now apply append_token_frame.
  - (* parse *)
    intros self st rules st' self' H. cbn [parse] in H.
    apply bind_Ok in H as ([sc self1] & Hsc & H).
    apply compile_sc_frame in Hsc.
    apply bind_Ok in H as ([st1 self2] & Hloop & H).
    apply (while_keeps pair_frame) in Hloop.
    + destruct Hloop as [L1 L2]. cbn [fst snd] in L1, L2.
      injection H as <- <-. split; [|eapply parser_frame_trans; eauto].
      destruct (_ <? _); [|exact L1].
      eapply state_frame_trans; [exact L1|]. apply set_cursor_frame, add_paragraph_frame.
    + intros s. split; [apply state_frame_refl|apply parser_frame_refl].
    + intros a b c [A1 A2] [B1 B2].
      split; [eapply state_frame_trans|eapply parser_frame_trans]; eauto.
    + intros s b s'. apply parse_iteration_frame, IHm.
Qed.
End Frame.

(** ** A whole parse *)

Lemma block_token_type (tok : token) :
  block_token tok ->
  exists ty, dget "type" tok = Some (VStr ty)
             /\ In ty ["blank_line"; "thematic_break"; "block_code"; "heading"; "paragraph";
                       "block_html"; "block_quote"].
Proof.
  intros [tok' ty Ty Sh|kids _].
  - exists ty. split; [exact Ty|]. simpl in Sh.
    repeat (destruct Sh as [[= <- _]|Sh]; [simpl; auto 10|]). destruct Sh.
  - exists "block_quote". split; [reflexivity|simpl; auto 10].
Qed.

(** X16: the tokens that [parse] leaves in the state are of seven kinds:
    [blank_line], [thematic_break], [block_code], [heading], [paragraph],
    [block_html], each with the keys of [leaf_shapes], and [block_quote],
    whose children are tokens of these kinds again.  No [list],
    [list_item] or [block_text] token is made. *)
Theorem parse_makes_block_tokens (X : externals) (fuel : nat) (self self' : BlockParser)
    (st st' : BlockState) (rules : option (list string)) :
  parse X fuel self st rules = Ok (st', self') ->
  Forall block_token (tokens st) ->
  Forall block_token (tokens st')
  /\ forall tok, In tok (tokens st') ->
       exists ty, dget "type" tok = Some (VStr ty)
                  /\ In ty ["blank_line"; "thematic_break"; "block_code"; "heading";
                            "paragraph"; "block_html"; "block_quote"].
Proof.
  intros H F.
  destruct (family_frame_all X fuel) as (_ & _ & Hp).
  destruct (Hp _ _ _ _ _ H) as [(_ & _ & _ & T) _]. specialize (T F).
  split; [exact T|]. intros tok Hin. apply block_token_type.
  rewrite List.Forall_forall in T. auto.
Qed.

Lemma parse_makes_block_tokens_witness :
  match parse_document 8 (lit "# a\n> b\n\nc\n") with
  | Ok (st', _) =>
      Forall block_token (tokens st')
      /\ forall tok, In tok (tokens st') ->
           exists ty, dget "type" tok = Some (VStr ty)
                      /\ In ty ["blank_line"; "thematic_break"; "block_code"; "heading";
                                "paragraph"; "block_html"; "block_quote"]
  | _ => False
  end.
Proof.
  destruct (parse_document 8 (lit "# a\n> b\n\nc\n")) as [[st' self']| |] eqn:E;
    [|vm_compute in E; discriminate ..].
  apply (parse_makes_block_tokens _ _ _ _ _ _ _ E). constructor.
Defined.

(** X17: when [parse] returns, the cursor is at or after the end of the
    source, and the source, its length and the depth of the state are what
    they were. *)
Theorem parse_consumes_source (X : externals) (fuel : nat) (self self' : BlockParser)
    (st st' : BlockState) (rules : option (list string)) :
  parse X fuel self st rules = Ok (st', self') ->
  src st' = src st /\ cursor_max st' = cursor_max st /\ depth st' = depth st
  /\ cursor_max st' <= cursor st'.
Proof.
  intros H.
  destruct (family_frame_all X fuel) as (_ & _ & Hp).
  destruct (Hp _ _ _ _ _ H) as [(A & B & C & _) _].
  repeat split; auto.
  destruct fuel as [|fuel]; [discriminate|]. cbn [parse] in H.
  apply bind_Ok in H as ([sc self1] & _ & H).
  apply bind_Ok in H as ([st1 self2] & _ & H). injection H as <- _.
  destruct (cursor st1 <? cursor_max st1) eqn:L.
  - pose proof (add_paragraph_frame (sdrop (cursor st1) (src st1)) st1) as (_ & B' & _).
    cbn [cursor cursor_max set_cursor]. lia.
  - apply Nat.ltb_ge in L. exact L.
Qed.

Lemma parse_consumes_source_witness :
  match parse_document 8 (lit "# a\n> b\n\nc\n") with
  | Ok (st', _) =>
      src st' = lit "# a\n> b\n\nc\n" /\ cursor_max st' = 11 /\ depth st' = 0
      /\ cursor_max st' <= cursor st'
  | _ => False
  end.
Proof.
  destruct (parse_document 8 (lit "# a\n> b\n\nc\n")) as [[st' self']| |] eqn:E;
    [|vm_compute in E; discriminate ..].
  apply (parse_consumes_source _ _ _ _ _ _ _ E).
Defined.

(** X18: [parse] leaves the specification, the three rule lists, the
    nesting limit and the handlers of the parser as they were, and every
    matcher that was in the cache is still there, under its key. *)
Theorem parse_changes_only_the_cache (X : externals) (fuel : nat)
    (self self' : BlockParser) (st st' : BlockState) (rules_arg : option (list string)) :
  parse X fuel self st rules_arg = Ok (st', self') ->
  specification self' = specification self /\ rules self' = rules self
  /\ block_quote_rules self' = block_quote_rules self /\ list_rules self' = list_rules self
  /\ max_nested_level self' = max_nested_level self /\ __methods self' = __methods self
  /\ forall k sc, __sc self !! k = Some sc -> __sc self' !! k = Some sc.
Proof.
  intros H.
  destruct (family_frame_all X fuel) as (_ & _ & Hp).
  destruct (Hp _ _ _ _ _ H) as [_ P]. exact P.
Qed.

Lemma parse_changes_only_the_cache_witness :
  match parse_document 8 (lit "# a\n> b\n\nc\n") with
  | Ok (_, self') =>
      specification self' = specification (default_parser sample_externals)
      /\ rules self' = RULE_NAMES
      /\ block_quote_rules self' = RULE_NAMES /\ list_rules self' = RULE_NAMES
      /\ max_nested_level self' = 6
      /\ __methods self' = bound_methods RULE_NAMES
      /\ forall k sc, (∅ : gmap string pattern) !! k = Some sc -> __sc self' !! k = Some sc
  | _ => False
  end.
Proof.
  destruct (parse_document 8 (lit "# a\n> b\n\nc\n")) as [[st' self']| |] eqn:E;
    [|vm_compute in E; discriminate ..].
  apply (parse_changes_only_the_cache _ _ _ _ _ _ _ E).
Defined.

(** X19: an entry of [env.ref_links] that is there before [parse] is there,
    unchanged, after it, whatever the rules and the nesting of block
    quotes. *)
Theorem parse_never_drops_a_link (X : externals) (fuel : nat) (self self' : BlockParser)
    (st st' : BlockState) (rules : option (list string)) (k : string) (v : link_attrs) :
  parse X fuel self st rules = Ok (st', self') ->
  ref_links (env st) !! k = Some v ->
  ref_links (env st') !! k = Some v.
Proof.
  intros H. destruct (family_keeps_links_all X fuel) as (_ & _ & Hp).
  apply (Hp _ _ _ _ _ H).
Qed.

Lemma parse_never_drops_a_link_witness :
  match parse sample_externals 8 (default_parser sample_externals)
              (set_env (MkEnv {[ "foo" := LinkAttrs "/u" None ]})
                       (document (lit "> [foo]: /v\n\n[bar]: /w\n"))) None with
  | Ok (st', _) => ref_links (env st') !! "foo" = Some (LinkAttrs "/u" None)
  | _ => False
  end.
Proof.
  destruct (parse sample_externals 8 _ _ None) as [[st' self']| |] eqn:E;
    [|vm_compute in E; discriminate ..].
  apply (parse_never_drops_a_link _ _ _ _ _ _ _ _ _ E). reflexivity.
Defined.

(** X20: when no rule matches from the cursor on, [parse] returns: with the
    rest of the source added as paragraph text and the cursor at the end
    when the cursor was before the end, and with the state as it was
    otherwise (an empty source gives no token). *)
Theorem parse_without_match_is_paragraph (X : externals) (fuel : nat)
    (self self1 : BlockParser) (st : BlockState) (rules : option (list string))
    (sc : pattern) :
  compile_sc self rules = Ok (sc, self1) ->
  re_search sc (src st) (cursor st) = None ->
  parse X (S (S fuel)) self st rules
  = Ok (if cursor st <? cursor_max st
        then set_cursor (cursor_max st) (add_paragraph (sdrop (cursor st) (src st)) st)
        else st,
        self1).
Proof.
  intros Hc Hs. cbn [parse]. rewrite Hc. cbn [bind while].
  unfold parse_iteration at 1. rewrite Hs.
  destruct (cursor st <? cursor_max st) eqn:L; cbn [bind]; rewrite L; reflexivity.
Qed.

Lemma parse_without_match_is_paragraph_witness :
  tokens (fst (match parse_document 2 "plain text" with
               | Ok r => r
               | _ => (root_state, default_parser sample_externals)
               end))
  = [[("type", VStr "paragraph"); ("text", VStr "plain text")]].
Proof.
  unfold parse_document.
  rewrite (parse_without_match_is_paragraph sample_externals 0
             (default_parser sample_externals)
             (match compile_sc (default_parser sample_externals) None with
              | Ok (_, p) => p | _ => default_parser sample_externals end)
             (document "plain text") None (default_matcher sample_externals)).
  - reflexivity.
  - vm_compute. reflexivity.
  - vm_compute. reflexivity.
Defined.

(** ** Runs of blank lines *)

(** A greedy repetition without upper bound, of a body that takes one
    step or fails, followed by a continuation that always succeeds, stops
    where the body fails. *)
Lemma rep_greedy_total (step : mstate -> option mstate)
    (body : mstate -> (mstate -> option mstate) -> option mstate) (lo : nat)
    (g : mstate -> mstate) (P : mstate -> Prop) :
  (forall s k', body s k' = match step s with Some s1 => k' s1 | None => None end) ->
  (forall s s1, step s = Some s1 ->
     ms_pos s < ms_pos s1 /\ String.length (ms_rest s1) < String.length (ms_rest s)) ->
  (forall s s1, P s -> step s = Some s1 -> P s1) ->
  forall fuel count st x,
    String.length (ms_rest st) <= fuel -> P st ->
    rep_loop body true lo None (fun s => Some (g s)) fuel count st = Some x ->
    exists s_end, x = g s_end /\ step s_end = None /\ P s_end.
Proof.
  intros Hbody Hstep HP.
  assert (Hsome : forall fuel count st, lo <= count ->
            rep_loop body true lo None (fun s => Some (g s)) fuel count st <> None).
  { intros fuel count st Hlo. destruct fuel; cbn [rep_loop]; unfold orelse.
    - apply Nat.leb_le in Hlo. now rewrite Hlo.
    - destruct (if below None count then _ else None); [discriminate|].
      apply Nat.leb_le in Hlo. now rewrite Hlo. }
  induction fuel as [|fuel IH]; intros count st x Hf Pst H.
  - cbn [rep_loop] in H. unfold orelse in H.
    destruct (lo <=? count); [|discriminate]. injection H as <-.
    exists st. split; [reflexivity|]. split; [|exact Pst].
    destruct (step st) as [s1|] eqn:E; [|reflexivity].
    apply Hstep in E. lia.
  - cbn [rep_loop] in H. unfold orelse in H. cbn [below] in H. rewrite Hbody in H.
    destruct (step st) as [s1|] eqn:E.
    + destruct (Hstep _ _ E) as [Hpos Hlen].
      assert (Q : (ms_pos s1 <=? ms_pos st) = false) by (apply Nat.leb_gt; lia).
      rewrite Q in H.
      destruct (rep_loop body true lo None _ fuel (S count) s1) as [y|] eqn:R.
      * injection H as <-. apply (IH (S count) s1 y); [lia|eauto|exact R].
      * destruct (lo <=? count) eqn:L; [|discriminate].
        apply Nat.leb_le in L. exfalso. apply (Hsome fuel (S count) s1); [lia|exact R].
    + destruct (lo <=? count); [|discriminate]. injection H as <-.
      exists st. auto.
Qed.

Lemma in_class_blank_char (a : ascii) :
  in_class false [COne SP; COne TAB; COne VT; COne FF] a = is_blank_char a.
Proof. reflexivity. Qed.

(** the group of [BLANK_LINE] takes one blank line, at the start of a
    line *)
Lemma run_blank_line_group (base : nat) (s : mstate) (k : mstate -> option mstate) :
  run true (Group (seqs [Bol; Star (Cls false [COne SP; COne TAB; COne VT; COne FF]);
                         Chr NL])) base s k
  = match blank_line_step (S base) s with
    | Some s1 => k s1
    | None => None
    end.
Proof.
  unfold Group, Star, Chr, blank_line_step. cbn [run seqs ngroups].
  destruct (at_bol true s); [|reflexivity].
  set (K := fun st' : mstate =>
              match ms_rest st' with
              | String a rest =>
                  if in_class false [COne NL] a
                  then k (close_group (S base) (ms_pos s) (advance a rest st'))
                  else None
              | EmptyString => None
              end).
  change (rep_loop _ true 0 None K _ 0 s)
    with (rep_loop (cls_body false [COne SP; COne TAB; COne VT; COne FF]) true 0 None K
                   (String.length (ms_rest s)) 0 s).
  rewrite rep_cls_greedy; [| |lia|exact I].
  - cbv zeta. simpl andb. unfold blank_line_len.
    rewrite (span_ext _ is_blank_char) by apply in_class_blank_char.
    set (w := span is_blank_char (ms_rest s)).
    unfold K. rewrite skip_rest.
    destruct (sdrop w (ms_rest s)) as [|a rest] eqn:E; [reflexivity|].
    rewrite in_class_one, Ascii.eqb_sym.
    destruct (Ascii.eqb a NL); [|reflexivity].
    rewrite skip_add. simpl. now rewrite skip_rest, E.
  - intros st' a rest E Ha. unfold K. rewrite E.
    rewrite in_class_one.
    destruct (Ascii.eqb NL a) eqn:N; [|reflexivity].
    apply Ascii.eqb_eq in N as <-. discriminate.
Qed.

Lemma blank_line_len_bounds (rest : string) (l : nat) :
  blank_line_len rest = Some l -> 1 <= l <= String.length rest.
Proof.
  unfold blank_line_len. set (w := span is_blank_char rest).
  pose proof (sdrop_length w rest) as L.
  destruct (sdrop w rest) as [|a r]; [discriminate|].
  destruct (Ascii.eqb a NL); [|discriminate]. intros [= <-]. simpl in L. lia.
Qed.

Lemma blank_line_len_prev (st : mstate) (l : nat) :
  blank_line_len (ms_rest st) = Some l -> ms_prev (skip l st) = Some NL.
Proof.
  unfold blank_line_len. set (w := span is_blank_char (ms_rest st)).
  destruct (sdrop w (ms_rest st)) as [|a r] eqn:E; [discriminate|].
  destruct (Ascii.eqb a NL) eqn:N; [|discriminate]. intros [= <-].
  apply Ascii.eqb_eq in N as ->.
  rewrite skip_add. simpl. now rewrite skip_rest, E.
Qed.

Lemma blank_line_step_spec (i : nat) (s s1 : mstate) :
  blank_line_step i s = Some s1 ->
  exists l, 1 <= l <= String.length (ms_rest s)
            /\ ms_pos s1 = ms_pos s + l
            /\ ms_rest s1 = sdrop l (ms_rest s)
            /\ ms_prev s1 = Some NL.
Proof.
  unfold blank_line_step. destruct (at_bol true s); [|discriminate].
  destruct (blank_line_len (ms_rest s)) as [l|] eqn:E; [|discriminate].
  intros [= <-]. exists l. pose proof (blank_line_len_bounds _ _ E) as B.
  cbn [close_group ms_pos ms_rest ms_prev].
  rewrite skip_pos by lia. rewrite skip_rest.
  split; [exact B|]. split; [reflexivity|]. split; [reflexivity|].
  now apply blank_line_len_prev.
Qed.

(** A match of [BLANK_LINE] as a named rule takes at least one character
    and ends where no blank line starts. *)
Lemma run_blank_line (b : nat) (st0 x : mstate) :
  run true (Named "blank_line" blank_line_re) b st0 Some = Some x ->
  exists j, 1 <= j <= String.length (ms_rest st0)
            /\ ms_pos x = ms_pos st0 + j
            /\ blank_line_len (sdrop j (ms_rest st0)) = None.
Proof.
  unfold Named, blank_line_re, Plus. cbn [run]. intros H.
  destruct (String.length (ms_rest st0)) as [|f] eqn:Ef.
  - cbn [rep_loop] in H. unfold orelse in H. simpl in H. discriminate.
  - cbn [rep_loop] in H. unfold orelse in H. cbn [below] in H.
    rewrite run_blank_line_group in H.
    destruct (blank_line_step (S (S b)) st0) as [s1|] eqn:E1; [|simpl in H; discriminate].
    destruct (blank_line_step_spec _ _ _ E1) as (l & Hl & Hp & Hr & Hprev).
    assert (Q : (ms_pos s1 <=? ms_pos st0) = false) by (apply Nat.leb_gt; lia).
    rewrite Q in H.
    set (P := fun s : mstate =>
                ms_prev s = Some NL
                /\ exists j, 1 <= j <= String.length (ms_rest st0)
                             /\ ms_pos s = ms_pos st0 + j
                             /\ ms_rest s = sdrop j (ms_rest st0)).
    destruct (rep_loop _ true 1 None _ f 1 s1) as [y|] eqn:R; [|simpl in H; discriminate].
    injection H as <-.
    apply (rep_greedy_total (blank_line_step (S (S b))) _ 1
             (close_group (S b) (ms_pos st0)) P) in R.
    + destruct R as (s_end & -> & Hend & Hprev' & j & Hj & Hpos & Hrest).
      exists j. split; [lia|]. split; [exact Hpos|].
      unfold blank_line_step, at_bol in Hend. rewrite Hprev' in Hend.
      simpl in Hend. rewrite <- Hrest.
      destruct (blank_line_len (ms_rest s_end)); [discriminate|reflexivity].
    + intros s k'. apply run_blank_line_group.
    + intros s s2 E. destruct (blank_line_step_spec _ _ _ E) as (l2 & Hl2 & Hp2 & Hr2 & _).
      rewrite Hr2, sdrop_length. lia.
    + intros s s2 (_ & j & Hj & Hpos & Hrest) E.
      destruct (blank_line_step_spec _ _ _ E) as (l2 & Hl2 & Hp2 & Hr2 & Hprev2).
      split; [exact Hprev2|]. exists (j + l2).
      rewrite Hrest, sdrop_length in Hl2.
      split; [lia|]. split; [lia|]. now rewrite Hr2, Hrest, sdrop_sdrop.
    + rewrite Hr, sdrop_length. lia.
    + split; [exact Hprev|]. exists l. rewrite Ef in Hl. rewrite Ef. auto.
Qed.

Lemma spec_blank_line (X : externals) :
  (list_to_map (SPECIFICATION X) : gmap string re) !! "blank_line" = Some blank_line_re.
Proof. vm_compute. reflexivity. Qed.

(** X21: a [blank_line] match covers the whole run of blank lines.  For a
    parser with the pattern of [blank_line] of the class, and a matcher
    that [compile_sc] has just compiled, a match found from the cursor
    whose [lastgroup] is [blank_line] is not empty, [parse_blank_line]
    appends one [blank_line] token and returns the end of the match, and
    [BLANK_LINE] does not match again at that offset: the lines of the run
    make one token. *)
Theorem blank_line_match_is_maximal (X : externals) (self self' : BlockParser)
    (rules_arg : option (list string)) (sc : pattern) (st : BlockState) (m : Match) :
  specification self !! "blank_line" = sassoc "blank_line" (SPECIFICATION X) ->
  __sc self !! sc_key rules_arg = None ->
  compile_sc self rules_arg = Ok (sc, self') ->
  cursor st <= String.length (src st) ->
  re_search sc (src st) (cursor st) = Some m ->
  m_lastgroup m = Some "blank_line" ->
  parse_blank_line m st
  = Ok (RPos (m_end m), append_token [("type", VStr "blank_line")] st)
  /\ m_start m < m_end m <= String.length (src st)
  /\ state_match (set_cursor (m_end m) st) BLANK_LINE = None.
Proof.
  intros Hspec Hmiss Hc Hcur Hm Hlast.
  split; [reflexivity|].
  assert (Hparts : exists parts, named_rules (specification self) (rules_of self rules_arg)
                                 = Ok parts /\ sc = Pattern (alts parts) true).
  { unfold compile_sc in Hc. destruct rules_arg as [r|]; simpl in Hmiss, Hc |- *;
      rewrite Hmiss in Hc; apply bind_Ok in Hc as (parts & Hparts & [= <- <-]); eauto. }
  destruct Hparts as (parts & Hparts & ->).
  destruct (re_search_run _ _ _ _ Hcur Hm) as (x & Hrun & Em & Hq).
  set (s := src st) in *. set (q := m_start m) in *.
  cbn [p_re p_multiline] in Hrun. unfold run_at in Hrun.
  set (st0 := MState q (char_before q s) (sdrop q s) [] None) in *.
  assert (Hne : rules_of self rules_arg <> []).
  { intros E. rewrite E in Hparts. injection Hparts as <-. simpl in Hrun.
    injection Hrun as <-. rewrite Em in Hlast. discriminate. }
  destruct (alts_named_branch _ _ _ _ _ _ _ Hparts Hne Hrun)
    as (k & r & b & _ & Hk & Hr & Hl & Hname & _).
  assert (Ek : k = "blank_line").
  { rewrite Em in Hlast. unfold m_lastgroup, to_match in Hlast.
    cbn [m_lastindex m_names p_re] in Hlast. rewrite Hl, Hname in Hlast. congruence. }
  subst k. rewrite Hspec in Hk.
  assert (Er : r = blank_line_re) by (vm_compute in Hk; now injection Hk as <-).
  subst r.
  destruct (run_blank_line b st0 x Hr) as (j & Hj & Hpos & Hnone).
  cbn [ms_rest ms_pos st0] in Hj, Hpos, Hnone.
  rewrite sdrop_length in Hj. rewrite sdrop_sdrop in Hnone.
  assert (Ee : m_end m = q + j) by (rewrite Em; exact Hpos).
  split; [lia|].
  unfold state_match, re_match, start_state. cbn [src cursor set_cursor].
  fold s. rewrite Ee, Nat.min_l by lia.
  unfold BLANK_LINE. cbn [p_re p_multiline].
  unfold blank_line_re, Plus. cbn [run ms_rest].
  assert (Hfail : forall fuel,
            rep_loop (fun st' k' =>
                        run true (Group (seqs [Bol; Star (Cls false [COne SP; COne TAB;
                                                                     COne VT; COne FF]);
                                               Chr NL])) 0 st' k')
                     true 1 None Some fuel 0
                     (MState (q + j) (char_before (q + j) s) (sdrop (q + j) s) [] None)
            = None).
  { intros [|fuel]; cbn [rep_loop]; unfold orelse; [reflexivity|].
    cbn [below]. rewrite run_blank_line_group. unfold blank_line_step.
    cbn [ms_rest]. rewrite Hnone. now destruct (at_bol true _). }
  now rewrite Hfail.
Qed.

Lemma blank_line_match_is_maximal_witness :
  parse_blank_line
    (default no_match (re_search (default_matcher sample_externals) (lit "a\n\n \n\nb\n") 0))
    (document (lit "a\n\n \n\nb\n"))
  = Ok (RPos (m_end (default no_match
                       (re_search (default_matcher sample_externals)
                                  (lit "a\n\n \n\nb\n") 0))),
        append_token [("type", VStr "blank_line")] (document (lit "a\n\n \n\nb\n")))
  /\ m_start (default no_match
                (re_search (default_matcher sample_externals) (lit "a\n\n \n\nb\n") 0))
     < m_end (default no_match
                (re_search (default_matcher sample_externals) (lit "a\n\n \n\nb\n") 0))
     <= String.length (src (document (lit "a\n\n \n\nb\n")))
  /\ state_match
       (set_cursor
          (m_end (default no_match
                    (re_search (default_matcher sample_externals) (lit "a\n\n \n\nb\n") 0)))
          (document (lit "a\n\n \n\nb\n")))
       BLANK_LINE = None.
Proof.
  eapply (blank_line_match_is_maximal sample_externals (default_parser sample_externals) _ None
            (default_matcher sample_externals) (document (lit "a\n\n \n\nb\n"))).
  - vm_compute. reflexivity.
  - vm_compute. reflexivity.
  - vm_compute. reflexivity.
  - vm_compute. lia.
  - vm_compute. reflexivity.
  - vm_compute. reflexivity.
Defined.
